(** * evopkg: the existence prober, the resolver and the comparison engine

    A shallow embedding of [evopkg.py].  Text is a [string] whose characters
    are code points below 256; a Python [dict] is an association list in
    insertion order; a child process is answered by an oracle that is asked
    with the number of processes launched so far and the argument vector. *)

From Stdlib Require Import Bool Arith Lia List ZArith Ascii String Permutation.
Import ListNotations.

Local Open Scope string_scope.
Local Open Scope list_scope.
Local Open Scope nat_scope.

(** ** Python text operations *)

Module PyStr.

Definition code (c : ascii) : nat := nat_of_ascii c.

Definition between (lo hi n : nat) : bool := (lo <=? n) && (n <=? hi).

(** [str.lower] on one character: A-Z and the Latin-1 capitals. *)
Definition lower_char (c : ascii) : ascii :=
  let n := code c in
  if between 65 90 n then ascii_of_nat (n + 32)
  else if between 192 222 n && negb (n =? 215) then ascii_of_nat (n + 32)
  else c.

Fixpoint lower (s : string) : string :=
  match s with
  | EmptyString => EmptyString
  | String c t => String (lower_char c) (lower t)
  end.

(** [needle in hay]. *)
Fixpoint contains (needle hay : string) : bool :=
  prefix needle hay ||
  match hay with
  | EmptyString => false
  | String _ t => contains needle t
  end.

(** [str.isspace] on one character. *)
Definition is_space (c : ascii) : bool :=
  let n := code c in
  between 9 13 n || between 28 32 n || (n =? 133) || (n =? 160).

(** The line boundaries of [str.splitlines]. *)
Definition is_linebreak (c : ascii) : bool :=
  let n := code c in
  between 10 13 n || between 28 30 n || (n =? 133).

Definition is_cr (c : ascii) : bool := code c =? 13.
Definition is_lf (c : ascii) : bool := code c =? 10.

Definition snoc (s : string) (c : ascii) : string := (s ++ String c EmptyString)%string.

(** [str.splitlines]: [acc] is the line read so far; a carriage return
    followed by a line feed is one boundary; no empty last line. *)
Fixpoint splitlines_from (acc s : string) : list string :=
  match s with
  | EmptyString => match acc with EmptyString => [] | _ => [acc] end
  | String c t =>
      if is_linebreak c then
        acc :: match t with
               | String d t' =>
                   if is_cr c && is_lf d then splitlines_from EmptyString t'
                   else splitlines_from EmptyString t
               | EmptyString => splitlines_from EmptyString t
               end
      else splitlines_from (snoc acc c) t
  end.

Definition splitlines (s : string) : list string := splitlines_from EmptyString s.

(** [str.split()] with no separator: the whitespace-delimited tokens. *)
Fixpoint split_from (acc s : string) : list string :=
  match s with
  | EmptyString => match acc with EmptyString => [] | _ => [acc] end
  | String c t =>
      if is_space c then
        match acc with
        | EmptyString => split_from EmptyString t
        | _ => acc :: split_from EmptyString t
        end
      else split_from (snoc acc c) t
  end.

Definition split (s : string) : list string := split_from EmptyString s.

Fixpoint lstrip (s : string) : string :=
  match s with
  | EmptyString => EmptyString
  | String c t => if is_space c then lstrip t else s
  end.

Fixpoint rstrip (s : string) : string :=
  match s with
  | EmptyString => EmptyString
  | String c t =>
      match rstrip t with
      | EmptyString => if is_space c then EmptyString else String c EmptyString
      | t' => String c t'
      end
  end.

(** [str.strip()]. *)
Definition strip (s : string) : string := rstrip (lstrip s).

(** [s.split(":", 1)[-1]]: what follows the first colon, or all of [s]. *)
Fixpoint after_colon_aux (s : string) : option string :=
  match s with
  | EmptyString => None
  | String c t => if (code c =? 58) then Some t else after_colon_aux t
  end.

Definition after_colon (s : string) : string :=
  match after_colon_aux s with Some t => t | None => s end.

(** [" ".join(l)]. *)
Definition join_space (l : list string) : string := String.concat " " l.

(** [text[:n]]. *)
Fixpoint take (n : nat) (s : string) : string :=
  match n, s with
  | S n', String c t => String c (take n' t)
  | _, _ => EmptyString
  end.

End PyStr.

(** ** Cell truncation (lines 355-356) *)

Definition truncate_text (text : string) (max_length : nat) : string :=
  if String.length text <=? max_length then text
  else (PyStr.take 19 text ++ "...")%string.

(** The default argument [max_length=22]; every call site uses it. *)
Definition truncate_text_default (text : string) : string := truncate_text text 22.

(** ** Python dictionaries with string keys, in insertion order *)

Module Dict.
Section Dict.
Context {V : Type}.

Definition t := list (string * V).

(** [d.get(k)] *)
Fixpoint get (d : t) (k : string) : option V :=
  match d with
  | [] => None
  | (k', v) :: rest => if (k' =? k)%string then Some v else get rest k
  end.

(** [k in d] *)
Definition mem (d : t) (k : string) : bool :=
  match get d k with Some _ => true | None => false end.

(** [d[k] = v]: a present key keeps its place, a new key goes last. *)
Fixpoint set (d : t) (k : string) (v : V) : t :=
  match d with
  | [] => [(k, v)]
  | (k', v') :: rest =>
      if (k' =? k)%string then (k', v) :: rest else (k', v') :: set rest k v
  end.

(** [list(d.keys())] *)
Definition keys (d : t) : list string := map fst d.

(** [d.get(k, default)] *)
Definition get_default (d : t) (k : string) (default : V) : V :=
  match get d k with Some v => v | None => default end.
End Dict.
Arguments t : clear implicits.
End Dict.

(** ** Exceptions, child processes and the program state *)

Inductive exn : Type :=
  | IndexError | KeyError | OSError | SubprocessError | EOFError | ValueError.

Inductive result (A : Type) : Type :=
  | Ok (a : A)
  | Raise (e : exn).
Arguments Ok {A} a.
Arguments Raise {A} e.

(** What [subprocess.run] does with one argument vector: it returns a
    completed process, or raises [TimeoutExpired], another
    [subprocess.SubprocessError], or an [OSError] when the program cannot be
    started. *)
Inductive run_outcome : Type :=
  | Completed (returncode : Z) (stdout : string)
  | TimedOut
  | SubprocessFailed
  | SpawnFailed.

(** The host: the outcome of the [n]-th child process launched with a
    given argument vector. *)
Definition world : Type := nat -> list string -> run_outcome.

(** The value [package_exists] returns: a [bool] or a [str]. *)
Inductive probe_value : Type :=
  | PBool (b : bool)
  | PStr (s : string).

(** Python truthiness of that value. *)
Definition truthy (v : probe_value) : bool :=
  match v with
  | PBool b => b
  | PStr s => negb (s =? "")%string
  end.

(** What the user does at an [input()] prompt. *)
Inductive user_input : Type :=
  | Line (s : string)
  | KeyboardInterrupt.

(** One printed row of a comparison table: the cells after truncation. *)
Record table_row : Type := mkRow {
  row_manager : string;
  row_version : string;
  row_size : string;
  row_desc : string;
  row_deps : string
}.

(** What the program writes, without colours and padding. *)
Inductive event : Type :=
  | EvProgress (message repo_name : string)
  | EvMismatchNote
  | EvMismatch (pkg flatpak_name : string)
  | EvNoRepositories (packages : list string)
  | EvSelectHeader (packages : list string)
  | EvOption (i : nat) (opt : string)
  | EvExitOption (i : nat)
  | EvPrompt (n : nat)
  | EvInvalidInput
  | EvCanceled
  | EvTable (package : string) (widths : list nat) (rows : list table_row)
  | EvMessage (text : string).

Definition cache_key : Type := (string * string)%type.

Record state : Type := mkState {
  cache : list (cache_key * probe_value);  (* most recently used first *)
  launched : list (list string);           (* argument vectors, oldest first *)
  printed : list event;                    (* oldest first *)
  stdin : list user_input
}.

Definition initial_state (inputs : list user_input) : state :=
  mkState [] [] [] inputs.

Definition set_cache (c : list (cache_key * probe_value)) (st : state) : state :=
  mkState c (launched st) (printed st) (stdin st).

Definition M (A : Type) : Type := state -> result A * state.

Definition ret {A} (a : A) : M A := fun st => (Ok a, st).

Definition raise {A} (e : exn) : M A := fun st => (Raise e, st).

Definition bind {A B} (m : M A) (f : A -> M B) : M B :=
  fun st =>
    match m st with
    | (Ok a, st') => f a st'
    | (Raise e, st') => (Raise e, st')
    end.

Notation "x <- m ;; k" := (bind m (fun x => k))
  (at level 61, m at next level, right associativity).
Notation "m ;;; k" := (bind m (fun _ => k))
  (at level 61, right associativity).

Definition write (e : event) : M unit :=
  fun st => (Ok tt, mkState (cache st) (launched st) (printed st ++ [e]) (stdin st)).

(** [progress_bar]: only the fact that it was drawn is kept. *)
Definition progress_bar (message repo_name : string) : M unit :=
  write (EvProgress message repo_name).

(** A child process is started and its outcome observed. *)
Definition launch (w : world) (command : list string) : state -> run_outcome * state :=
  fun st =>
    (w (List.length (launched st)) command,
     mkState (cache st) (launched st ++ [command]) (printed st) (stdin st)).

(** ** The existence prober (lines 296-322) *)

Definition search_commands : Dict.t (list string) :=
  [ ("pacman", ["pacman"; "-Ss"]);
    ("paru", ["paru"; "-Ss"]);
    ("yay", ["yay"; "-Ss"]);
    ("apt", ["apt"; "search"]);
    ("dnf", ["dnf"; "search"]);
    ("zypper", ["zypper"; "search"]);
    ("snap", ["snap"; "find"]);
    ("flatpak", ["flatpak"; "search"]) ].

Definition search_command (package pkg_manager : string) : list string :=
  Dict.get_default search_commands pkg_manager [] ++ [package].

(** The [for line in result.stdout.splitlines()] loop of the flatpak
    branch: [None] when the loop ends without returning. *)
Fixpoint flatpak_scan (package : string) (lines : list string) : option (result probe_value) :=
  match lines with
  | [] => None
  | line :: rest =>
      if PyStr.contains (PyStr.lower package) (PyStr.lower line) then
        Some match PyStr.split line with
             | flatpak_name :: _ => Ok (PStr flatpak_name)
             | [] => Raise IndexError
             end
      else flatpak_scan package rest
  end.

(** The body of [package_exists] on the outcome of its child process. *)
Definition package_exists_on (package pkg_manager : string) (o : run_outcome)
  : result probe_value :=
  match o with
  | Completed returncode stdout =>
      let output := PyStr.lower stdout in
      let hit := PyStr.contains (PyStr.lower package) output && (returncode =? 0)%Z in
      if (pkg_manager =? "flatpak")%string then
        if negb (PyStr.contains (PyStr.lower package) output) then
          match flatpak_scan package (PyStr.splitlines stdout) with
          | Some r => r
          | None => Ok (PBool hit)
          end
        else Ok (PBool hit)
      else Ok (PBool hit)
  | TimedOut | SubprocessFailed => Ok (PBool false)
  | SpawnFailed => Raise OSError
  end.

Definition package_exists_body (w : world) (package pkg_manager : string)
  : M probe_value :=
  fun st =>
    let (o, st') := launch w (search_command package pkg_manager) st in
    (package_exists_on package pkg_manager o, st').

(** [functools.lru_cache(maxsize=128)] *)
Definition maxsize : nat := 128.

Definition key_eqb (a b : cache_key) : bool :=
  (fst a =? fst b)%string && (snd a =? snd b)%string.

Fixpoint cache_find (k : cache_key) (c : list (cache_key * probe_value))
  : option probe_value :=
  match c with
  | [] => None
  | (k', v) :: rest => if key_eqb k' k then Some v else cache_find k rest
  end.

Definition cache_remove (k : cache_key) (c : list (cache_key * probe_value))
  : list (cache_key * probe_value) :=
  filter (fun e => negb (key_eqb (fst e) k)) c.

(** A hit moves the entry to the front and calls nothing; a miss calls the
    body and, when it returns, stores the value in front and drops the least
    recently used entry beyond [maxsize]; an exception stores nothing. *)
Definition package_exists (w : world) (package pkg_manager : string)
  : M probe_value :=
  fun st =>
    let key := (package, pkg_manager) in
    match cache_find key (cache st) with
    | Some v => (Ok v, set_cache ((key, v) :: cache_remove key (cache st)) st)
    | None =>
        match package_exists_body w package pkg_manager st with
        | (Ok v, st') => (Ok v, set_cache (firstn maxsize ((key, v) :: cache st')) st')
        | (Raise e, st') => (Raise e, st')
        end
    end.

(** ** The command dispatcher (lines 324-336 and 751-761) *)

Definition sudo_required_commands : Dict.t (list string) :=
  [ ("pacman", ["-S"; "-R"; "-Sy"; "-Syu"; "-Sc"]);
    ("paru", []);
    ("yay", []);
    ("apt", ["install"; "remove"; "update"; "dist-upgrade"; "autoremove"]);
    ("dnf", ["install"; "remove"; "update"; "upgrade"; "clean"]);
    ("zypper", ["install"; "remove"; "refresh"; "update"; "clean"]);
    ("snap", ["snap"; "install"; "remove"]);
    ("flatpak", ["install"; "uninstall"]) ].

Definition requires_sudo (command pkg_manager : string) : bool :=
  existsb (String.eqb command)
          (Dict.get_default sudo_required_commands pkg_manager []).

Definition command_mappings : Dict.t (Dict.t (list string)) :=
  [ ("pacman",
      [ ("-S", ["pacman"; "-S"]); ("-R", ["pacman"; "-R"]); ("-Sy", ["pacman"; "-Sy"]);
        ("-Syu", ["pacman"; "-Syu"]); ("-Sc", ["pacman"; "-Sc"]); ("-Q", ["pacman"; "-Q"]);
        ("-Qs", ["pacman"; "-Qs"]); ("-Ss", ["pacman"; "-Ss"]); ("-Qi", ["pacman"; "-Qi"]);
        ("-Ql", ["pacman"; "-Ql"]) ]);
    ("paru",
      [ ("-S", ["paru"; "-S"]); ("-R", ["paru"; "-R"]); ("-Sy", ["paru"; "-Sy"]);
        ("-Syu", ["paru"; "-Syu"]); ("-Sc", ["paru"; "-Sc"]); ("-Q", ["paru"; "-Q"]);
        ("-Qs", ["paru"; "-Qs"]); ("-Ss", ["paru"; "-Ss"]); ("-Qi", ["paru"; "-Qi"]);
        ("-Ql", ["paru"; "-Ql"]) ]);
    ("yay",
      [ ("-S", ["yay"; "-S"]); ("-R", ["yay"; "-R"]); ("-Sy", ["yay"; "-Sy"]);
        ("-Syu", ["yay"; "-Syu"]); ("-Sc", ["yay"; "-Sc"]); ("-Q", ["yay"; "-Q"]);
        ("-Qs", ["yay"; "-Qs"]); ("-Ss", ["yay"; "-Ss"]); ("-Qi", ["yay"; "-Qi"]);
        ("-Ql", ["yay"; "-Ql"]) ]);
    ("apt",
      [ ("-S", ["apt"; "install"]); ("-R", ["apt"; "remove"]); ("-Sy", ["apt"; "update"]);
        ("-Syu", ["apt"; "dist-upgrade"]); ("-Sc", ["apt"; "autoremove"]); ("-Q", ["dpkg"; "-l"]);
        ("-Qs", ["dpkg-query"; "-l"]); ("-Ss", ["apt"; "search"]); ("-Qi", ["apt"; "show"]);
        ("-Ql", ["dpkg"; "-L"]) ]);
    ("dnf",
      [ ("-S", ["dnf"; "install"]); ("-R", ["dnf"; "remove"]); ("-Sy", ["dnf"; "update"]);
        ("-Syu", ["dnf"; "upgrade"]); ("-Sc", ["dnf"; "clean"; "all"]);
        ("-Q", ["dnf"; "list"; "installed"]); ("-Qs", ["dnf"; "list"; "installed"]);
        ("-Ss", ["dnf"; "search"]); ("-Qi", ["dnf"; "info"]); ("-Ql", ["rpm"; "-ql"]) ]);
    ("zypper",
      [ ("-S", ["zypper"; "install"]); ("-R", ["zypper"; "remove"]); ("-Sy", ["zypper"; "refresh"]);
        ("-Syu", ["zypper"; "update"]); ("-Sc", ["zypper"; "clean"]); ("-Q", ["zypper"; "se"; "-i"]);
        ("-Qs", ["zypper"; "se"; "-i"]); ("-Ss", ["zypper"; "search"]); ("-Qi", ["zypper"; "info"]);
        ("-Ql", ["rpm"; "-ql"]) ]);
    ("snap",
      [ ("-S", ["snap"; "install"]); ("-R", ["snap"; "remove"]); ("-Sy", ["snap"; "refresh"]);
        ("-Syu", ["snap"; "refresh"]); ("-Sc", ["snap"; "remove"; "--purge"]);
        ("-Q", ["snap"; "list"]); ("-Qs", ["snap"; "list"]); ("-Ss", ["snap"; "find"]);
        ("-Qi", ["snap"; "info"]) ]);
    ("flatpak",
      [ ("-S", ["flatpak"; "install"]); ("-R", ["flatpak"; "uninstall"]); ("-Sy", ["flatpak"; "update"]);
        ("-Syu", ["flatpak"; "update"]); ("-Sc", ["flatpak"; "uninstall"; "--unused"]);
        ("-Q", ["flatpak"; "list"]); ("-Qs", ["flatpak"; "list"]); ("-Ss", ["flatpak"; "search"]);
        ("-Qi", ["flatpak"; "info"]) ]) ].

(** [command_mappings[chosen_manager][command]] *)
Definition mapped_command (command chosen_manager : string) : result (list string) :=
  match Dict.get command_mappings chosen_manager with
  | None => Raise KeyError
  | Some verbs =>
      match Dict.get verbs command with
      | None => Raise KeyError
      | Some argv => Ok argv
      end
  end.

(** The vector every dispatch site builds (lines 580-582, 645-647,
    894-896, 909-911 and 916-918):
    [cmd = command_mappings[chosen_manager][command] + args], then
    [if requires_sudo(command, chosen_manager): cmd = ["sudo"] + cmd]. *)
Definition build_command (command chosen_manager : string) (args : list string)
  : result (list string) :=
  match mapped_command command chosen_manager with
  | Raise e => Raise e
  | Ok argv =>
      let cmd := argv ++ args in
      Ok (if requires_sudo command chosen_manager then "sudo" :: cmd else cmd)
  end.

(** [run_command] (lines 277-294): the child is waited for without a time
    limit, and only its exit status is looked at. *)
Definition run_command (w : world) (command : list string) : M bool :=
  fun st =>
    let (o, st') := launch w command st in
    match o with
    | Completed returncode _ => (Ok (returncode =? 0)%Z, st')
    | SpawnFailed => (Raise OSError, st')
    | TimedOut | SubprocessFailed => (Raise SubprocessError, st')
    end.

Definition dispatch (w : world) (command chosen_manager : string) (args : list string)
  : M bool :=
  match build_command command chosen_manager args with
  | Raise e => raise e
  | Ok cmd => run_command w cmd
  end.

(** The literal verb a backend runs for an abstract flag: the word after
    the program name in [command_mappings]. *)
Definition literal_verb (command chosen_manager : string) : option string :=
  match mapped_command command chosen_manager with
  | Ok (_ :: verb :: _) => Some verb
  | _ => None
  end.

(** ** The repository resolver (lines 451-508) *)

Record scan : Type := mkScan {
  valid_options : Dict.t bool;
  flatpak_mismatches : Dict.t string;
  available_packages : list string
}.

Definition empty_scan : scan := mkScan [] [] [].

Definition mem_string (x : string) (l : list string) : bool :=
  existsb (String.eqb x) l.

(** Lines 463-468: what one probe result adds to the scan. *)
Definition record_result (install_mode : bool) (manager package : string)
    (result : probe_value) (acc : scan) : scan :=
  let mismatch :=
    match result with
    | PStr s => (manager =? "flatpak")%string && negb (s =? package)%string
    | PBool _ => false
    end in
  if mismatch then
    match result with
    | PStr s => mkScan (valid_options acc)
                       (Dict.set (flatpak_mismatches acc) package s)
                       (available_packages acc)
    | PBool _ => acc
    end
  else
    match result with
    | PBool true =>
        mkScan (Dict.set (valid_options acc) manager true)
               (flatpak_mismatches acc)
               (if install_mode && negb (mem_string package (available_packages acc))
                then available_packages acc ++ [package]
                else available_packages acc)
    | _ => acc
    end.

(** [str.isdigit] and [int] as the prompt loop uses them. *)
Definition is_ascii_digit (c : ascii) : bool := PyStr.between 48 57 (PyStr.code c).

Definition is_digit_char (c : ascii) : bool :=
  let n := PyStr.code c in
  is_ascii_digit c || (n =? 178) || (n =? 179) || (n =? 185).

Fixpoint all_chars (p : ascii -> bool) (s : string) : bool :=
  match s with
  | EmptyString => true
  | String c t => p c && all_chars p t
  end.

Definition isdigit (s : string) : bool :=
  negb (s =? "")%string && all_chars is_digit_char s.

Fixpoint int_digits (acc : nat) (s : string) : nat :=
  match s with
  | EmptyString => acc
  | String c t => int_digits (10 * acc + (PyStr.code c - 48)) t
  end.

(** The default of [sys.int_max_str_digits]: [int] refuses a string of
    more decimal digits, leading zeros included, with a [ValueError]. *)
Definition max_str_digits : nat := 4300.

Definition int_of (s : string) : result nat :=
  if all_chars is_ascii_digit s && (String.length s <=? max_str_digits)
  then Ok (int_digits 0 s) else Raise ValueError.

Definition pop_input : M unit :=
  fun st => (Ok tt, mkState (cache st) (launched st) (printed st) (tl (stdin st))).

Section Resolver.
(** The prober the resolver calls; [package_exists] in the program. *)
Variable prober : string -> string -> M probe_value.

Fixpoint check_packages (install_mode : bool) (manager : string)
    (packages : list string) (acc : scan) : M scan :=
  match packages with
  | [] => ret acc
  | package :: rest =>
      result <- prober package manager ;;
      check_packages install_mode manager rest
        (record_result install_mode manager package result acc)
  end.

(** Lines 459-468. *)
Fixpoint check_repositories (install_mode : bool) (repo_order packages : list string)
    (acc : scan) : M scan :=
  match repo_order with
  | [] => ret acc
  | manager :: rest =>
      progress_bar "Checking repository" manager ;;;
      acc' <- check_packages install_mode manager packages acc ;;
      check_repositories install_mode rest packages acc'
  end.

Fixpoint write_all (l : list event) : M unit :=
  match l with
  | [] => ret tt
  | e :: rest => write e ;;; write_all rest
  end.

Fixpoint enumerate_from (i : nat) (l : list string) : list (nat * string) :=
  match l with
  | [] => []
  | x :: rest => (i, x) :: enumerate_from (S i) rest
  end.

(** Line 482. *)
Definition options_of (repo_order : list string) (acc : scan) : list string :=
  filter (fun mgr => Dict.mem (valid_options acc) mgr) repo_order.

(** Lines 489-508: the prompt loop, one pending input at a time. *)
Fixpoint choose (options packages available : list string) (install_mode : bool)
    (inputs : list user_input) : M (option string * list string) :=
  write (EvPrompt (List.length options + 1)) ;;;
  match inputs with
  | [] => raise EOFError
  | KeyboardInterrupt :: _ =>
      pop_input ;;; write EvCanceled ;;; ret (None, [])
  | Line typed :: rest =>
      pop_input ;;;
      let choice := PyStr.strip typed in
      if isdigit choice then
        match int_of choice with
        | Raise e => raise e
        | Ok choice_int =>
            if (1 <=? choice_int) && (choice_int <=? List.length options) then
              match nth_error options (choice_int - 1) with
              | None => raise IndexError
              | Some selected_manager =>
                  progress_bar "Selecting" selected_manager ;;;
                  ret (Some selected_manager,
                       if install_mode then available else packages)
              end
            else if choice_int =? List.length options + 1 then ret (None, [])
            else choose options packages available install_mode rest
        end
      else
        write EvInvalidInput ;;;
        choose options packages available install_mode rest
  end.

(** Lines 470-487: the mismatch note, then the numbered options. *)
Definition announce_mismatches (install_mode : bool) (acc : scan) : M unit :=
  match flatpak_mismatches acc with
  | [] => ret tt
  | m =>
      if install_mode then
        write EvMismatchNote ;;;
        write_all (map (fun e => EvMismatch (fst e) (snd e)) m)
      else ret tt
  end.

Definition select_repository_with (packages available_managers : list string)
    (install_mode : bool) : M (option string * list string) :=
  let repo_order := available_managers in
  acc <- check_repositories install_mode repo_order packages empty_scan ;;
  announce_mismatches install_mode acc ;;;
  match valid_options acc with
  | [] => write (EvNoRepositories packages) ;;; ret (None, [])
  | _ =>
      let options := options_of repo_order acc in
      write (EvSelectHeader packages) ;;;
      write_all (map (fun e => EvOption (fst e) (snd e)) (enumerate_from 1 options)) ;;;
      write (EvExitOption (List.length options + 1)) ;;;
      fun st => choose options packages (available_packages acc) install_mode (stdin st) st
  end.
End Resolver.

Definition select_repository (w : world) (packages available_managers : list string)
    (install_mode : bool) : M (option string * list string) :=
  select_repository_with (package_exists w) packages available_managers install_mode.

(** ** The comparison engine (lines 358-449) *)

Definition dep_commands : Dict.t (list string) :=
  [ ("pacman", ["pacman"; "-Si"]);
    ("paru", ["paru"; "-Si"]);
    ("yay", ["yay"; "-Si"]);
    ("apt", ["apt"; "show"]);
    ("dnf", ["dnf"; "info"]);
    ("zypper", ["zypper"; "info"]);
    ("snap", ["snap"; "info"]);
    ("flatpak", ["flatpak"; "info"]) ].

(** One cell record: field name to text. *)
Definition info : Type := Dict.t string.

(** [comparison_data]: package to (manager to record). *)
Definition comparison_data : Type := Dict.t (Dict.t info).

(** [line.split(":", 1)[-1].strip()] *)
Definition value_of (line : string) : string := PyStr.strip (PyStr.after_colon line).

(** [... if ":" in line else line.split()[-1]] *)
Definition value_or_last (line : string) : result string :=
  if PyStr.contains ":" line then Ok (value_of line)
  else match rev (PyStr.split line) with
       | last :: _ => Ok last
       | [] => Raise IndexError
       end.

(** [... if ":" in line else " ".join(line.split()[1:])] *)
Definition value_or_rest (line : string) : string :=
  if PyStr.contains ":" line then value_of line
  else PyStr.join_space (tl (PyStr.split line)).

(** Lines 392-401. *)
Definition parse_snap_line (line : string) (i : info) : result info :=
  if prefix "name:" line then Ok (Dict.set i "Name" (value_of line))
  else if prefix "version:" line then Ok (Dict.set i "Version" (value_of line))
  else if prefix "installed:" line || prefix "size:" line then
    match PyStr.split (value_of line) with
    | first :: _ => Ok (Dict.set i "Size" first)
    | [] => Raise IndexError
    end
  else if prefix "summary:" line || prefix "description:" line then
    Ok (Dict.set i "Description" (value_of line))
  else if prefix "depends:" line then Ok (Dict.set i "Dependencies" (value_of line))
  else Ok i.

(** Lines 403-410. *)
Definition parse_other_line (line : string) (i : info) : result info :=
  if PyStr.contains "Version" line || PyStr.contains "version" line then
    match value_or_last line with
    | Ok v => Ok (Dict.set i "Version" v)
    | Raise e => Raise e
    end
  else if PyStr.contains "Size" line || PyStr.contains "Installed-Size" line then
    match value_or_last line with
    | Ok v => Ok (Dict.set i "Size" v)
    | Raise e => Raise e
    end
  else if PyStr.contains "Description" line then
    Ok (Dict.set i "Description" (value_or_rest line))
  else if PyStr.contains "Depends" line then
    Ok (Dict.set i "Dependencies" (value_or_rest line))
  else Ok i.

(** Lines 387-410: the loop over the lines of the detail output. *)
Fixpoint parse_lines (manager : string) (lines : list string) (i : info) : result info :=
  match lines with
  | [] => Ok i
  | raw :: rest =>
      let line := PyStr.strip raw in
      if (line =? "")%string then parse_lines manager rest i
      else
        match (if (manager =? "snap")%string then parse_snap_line line i
               else parse_other_line line i) with
        | Ok i' => parse_lines manager rest i'
        | Raise e => Raise e
        end
  end.

(** [comparison_data[package][manager] = record] *)
Definition store (cd : comparison_data) (package manager : string) (record : info)
  : result comparison_data :=
  match Dict.get cd package with
  | None => Raise KeyError
  | Some table => Ok (Dict.set cd package (Dict.set table manager record))
  end.

Definition lift {A} (r : result A) : M A :=
  match r with Ok a => ret a | Raise e => raise e end.

(** Line 380: [exists if isinstance(exists, str) and manager == "flatpak"
    else package] *)
Definition detail_name (exists_ : probe_value) (manager package : string) : string :=
  match exists_ with
  | PStr s => if (manager =? "flatpak")%string then s else package
  | PBool _ => package
  end.

(** Lines 383-416 on the outcome of the detail query. *)
Definition store_details (cd : comparison_data) (manager package : string)
    (o : run_outcome) : M comparison_data :=
  match o with
  | Completed _ output =>
      match parse_lines manager (PyStr.splitlines output) [] with
      | Raise e => raise e
      | Ok parsed =>
          let record :=
            match parsed with
            | [] => Dict.set parsed "Error" "Data unavailable"
            | _ => parsed
            end in
          lift (store cd package manager record)
      end
  | TimedOut => lift (store cd package manager [("Error", "Timeout")])
  | SubprocessFailed => raise SubprocessError
  | SpawnFailed => raise OSError
  end.

(** Lines 374-416.  The task returns the data with its cell stored; an
    exception leaves the data as it was. *)
Definition fetch_package_info (w : world) (cd : comparison_data)
    (manager package : string) : M comparison_data :=
  exists_ <- package_exists w package manager ;;
  if negb (truthy exists_) then
    lift (store cd package manager [("Error", "Not found")])
  else
    let pkg_name := detail_name exists_ manager package in
    match Dict.get dep_commands manager with
    | None => raise KeyError
    | Some argv =>
        fun st =>
          let (o, st') := launch w (argv ++ [pkg_name]) st in
          store_details cd manager package o st'
    end.

(** Lines 419-421: the tasks in the order they are submitted. *)
Definition tasks (packages available_managers : list string) : list (string * string) :=
  flat_map (fun package => map (fun manager => (manager, package)) available_managers)
           packages.

(** Line 359: [{pkg: {} for pkg in packages}] *)
Definition empty_data (packages : list string) : comparison_data :=
  fold_left (fun cd pkg => Dict.set cd pkg []) packages [].

(** The worker pool: the tasks store their cells in the order [schedule]
    in which they complete; an exception raised in a task stays in its
    future and is never looked at. *)
Fixpoint run_tasks (w : world) (schedule : list (string * string))
    (cd : comparison_data) (st : state) : comparison_data * state :=
  match schedule with
  | [] => (cd, st)
  | (manager, package) :: rest =>
      match fetch_package_info w cd manager package st with
      | (Ok cd', st') => run_tasks w rest cd' st'
      | (Raise _, st') => run_tasks w rest cd st'
      end
  end.

Definition max_list (l : list nat) : nat := fold_right Nat.max 0 l.

Definition field (i : info) (name default : string) : string :=
  Dict.get_default i name default.

(** Lines 426-430. *)
Definition column_widths (table : Dict.t info) : list nat :=
  let width name default header :=
    max_list (map (fun e => Nat.min (String.length (field (snd e) name default)) 22) table
              ++ [String.length header]) in
  [ max_list (map (fun e => Nat.min (String.length (fst e)) 22) table
              ++ [String.length "Repository"]);
    width "Version" "N/A" "Version";
    width "Size" "N/A" "Size";
    width "Description" "No description" "Description";
    width "Dependencies" "None" "Dependencies" ].

(** Lines 438-443. *)
Definition render_row (e : string * info) : table_row :=
  mkRow (fst e)
        (truncate_text_default (field (snd e) "Version" "N/A"))
        (truncate_text_default (field (snd e) "Size" "N/A"))
        (truncate_text_default (field (snd e) "Description" "No description"))
        (truncate_text_default (field (snd e) "Dependencies" "None")).

Definition render_table (package : string) (table : Dict.t info) : event :=
  EvTable package (column_widths table) (map render_row table).

(** Lines 423-448. *)
Fixpoint render (cd : comparison_data) (packages : list string) : M unit :=
  match packages with
  | [] => ret tt
  | package :: rest =>
      match Dict.get cd package with
      | None => raise KeyError
      | Some table => write (render_table package table) ;;; render cd rest
      end
  end.

(** [compare_packages], with the completion order of the pool's tasks. *)
Definition compare_packages (w : world) (packages available_managers : list string)
    (schedule : list (string * string)) : M comparison_data :=
  progress_bar "Comparing packages across repositories" "" ;;;
  write (EvMessage "Building comparison table...") ;;;
  fun st =>
    let (cd, st') := run_tasks w schedule (empty_data packages) st in
    (render cd packages ;;; ret cd) st'.

(** The rows of one package's table. *)
Definition table_of (cd : comparison_data) (package : string) : Dict.t info :=
  Dict.get_default cd package [].

(** The tasks of a schedule that store their cell, in schedule order: those
    that end without an exception. *)
Fixpoint stored_tasks (w : world) (schedule : list (string * string))
    (cd : comparison_data) (st : state) : list (string * string) :=
  match schedule with
  | [] => []
  | (manager, package) :: rest =>
      match fetch_package_info w cd manager package st with
      | (Ok cd', st') => (manager, package) :: stored_tasks w rest cd' st'
      | (Raise _, st') => stored_tasks w rest cd st'
      end
  end.

(** The keys of a dictionary after storing under [ms] one after another. *)
Definition add_key (ks : list string) (m : string) : list string :=
  if mem_string m ks then ks else ks ++ [m].

Definition add_keys (ks ms : list string) : list string := fold_left add_key ms ks.

(** A list without its repetitions, every element at its first place. *)
Definition first_occurrences (ms : list string) : list string := add_keys [] ms.

(** The backends, in order, of the tasks for package [p] in a list of tasks. *)
Definition managers_for (p : string) (l : list (string * string)) : list string :=
  map fst (filter (fun t => (snd t =? p)%string) l).

(** [c] is a detail query of backend [m]. *)
Definition detail_of (m : string) (c : list string) : Prop :=
  exists argv x, Dict.get dep_commands m = Some argv /\ c = argv ++ [x].

(** [c] is the detail query of package [p] with backend [m]. *)
Definition detail_query (m p : string) (c : list string) : Prop :=
  exists argv, Dict.get dep_commands m = Some argv /\ c = argv ++ [p].

(** A table without the row of backend [m]. *)
Definition without_row (m : string) (table : Dict.t info) : Dict.t info :=
  filter (fun e => negb (fst e =? m)%string) table.

(** A run of probes issued one after another, as the loops of the
    resolver and of the installer issue them; results and exceptions of the
    individual probes are dropped. *)
Fixpoint probe_sequence (w : world) (keys : list cache_key) (st : state) : state :=
  match keys with
  | [] => st
  | (package, pkg_manager) :: rest =>
      probe_sequence w rest (snd (package_exists w package pkg_manager st))
  end.

(** ** Notions and scenarios of the statements *)

Definition newline : string := String "010"%char "".

(** The search output of the namespace-divergence scenario. *)
Definition firefox_search_output : string :=
  ("org.mozilla.firefox  Firefox  Web Browser" ++ newline)%string.

Definition git_world : world :=
  fun _ command =>
    match command with
    | ["apt"; "search"; "git"] =>
        Completed 0 ("git - fast version control" ++ newline)%string
    | _ => Completed 0 EmptyString
    end.

(** The entry of [k] sits in the cache behind entries of distinct keys
    that all come from [others]. *)
Definition keeps (k : cache_key) (v : probe_value) (others : list cache_key)
    (c : list (cache_key * probe_value)) : Prop :=
  exists pre suf,
    c = pre ++ (k, v) :: suf /\
    NoDup (map fst pre) /\
    forall k', In k' (map fst pre) -> k' <> k /\ In k' others.

(** The keys of a run other than [k]. *)
Definition other_keys (k : cache_key) (keys : list cache_key) : list cache_key :=
  filter (fun k' => negb (key_eqb k' k)) keys.

(** The first launch times out; from the second on the search succeeds. *)
Definition flaky_world : world :=
  fun n _ =>
    if n =? 0 then TimedOut
    else Completed 0 ("git - fast version control" ++ newline)%string.

(** 128 package names other than "k": "paa", "pab", ..., "php", a "p"
    followed by two letters from "a" to "p". *)
Definition many_names : list string :=
  map (fun i => String "p" (String (ascii_of_nat (97 + i / 16))
                              (String (ascii_of_nat (97 + i mod 16)) EmptyString)))
      (seq 0 128).

Definition empty_world : world := fun _ _ => Completed 0 EmptyString.

Definition count_launches (command : list string) (st : state) : nat :=
  count_occ (list_eq_dec string_dec) (launched st) command.

Definition backends : list string :=
  ["pacman"; "paru"; "yay"; "apt"; "dnf"; "zypper"; "snap"; "flatpak"].

(** The flags of install, remove, update, upgrade and clean. *)
Definition elevated_verbs : list string := ["-S"; "-R"; "-Sy"; "-Syu"; "-Sc"].

(** The policy table marks the verb a backend runs for a flag. *)
Definition marked_privileged (command chosen_manager : string) : bool :=
  match literal_verb command chosen_manager with
  | Some verb =>
      mem_string verb (Dict.get_default sudo_required_commands chosen_manager [])
  | None => false
  end.

(** One probe of a scan: backend, requested name, result. *)
Definition probe_record : Type := (string * string * probe_value)%type.

Definition record_manager (t : probe_record) : string := fst (fst t).
Definition record_package (t : probe_record) : string := snd (fst t).
Definition record_value (t : probe_record) : probe_value := snd t.

(** The probes that the inner loop makes for one backend, with the
    results they return, up to the first that raises. *)
Fixpoint probes_of_manager (prober : string -> string -> M probe_value)
    (manager : string) (packages : list string) (st : state)
  : list probe_record * state :=
  match packages with
  | [] => ([], st)
  | package :: rest =>
      match prober package manager st with
      | (Ok r, st') =>
          let (l, st'') := probes_of_manager prober manager rest st' in
          ((manager, package, r) :: l, st'')
      | (Raise _, st') => ([], st')
      end
  end.

(** The probes of a whole scan, in the order they are made. *)
Fixpoint probes_of_scan (prober : string -> string -> M probe_value)
    (repo_order packages : list string) (st : state) : list probe_record :=
  match repo_order with
  | [] => []
  | manager :: rest =>
      let (l, st') :=
        probes_of_manager prober manager packages
          (snd (progress_bar "Checking repository" manager st)) in
      l ++ probes_of_scan prober rest packages st'
  end.

Definition record_all (install_mode : bool) (trace : list probe_record) (acc : scan) : scan :=
  fold_left (fun a t => record_result install_mode (record_manager t) (record_package t)
                                      (record_value t) a)
            trace acc.

(** Backend-major pairs: the order in which a scan probes. *)
Definition scan_pairs (repo_order packages : list string) : list (string * string) :=
  flat_map (fun manager => map (fun package => (manager, package)) packages) repo_order.

Definition is_found (v : probe_value) : bool :=
  match v with PBool true => true | _ => false end.

(** Some probe of backend [m] in the trace returned [True]. *)
Definition found_by (m : string) (trace : list probe_record) : bool :=
  existsb (fun t => (record_manager t =? m)%string && is_found (record_value t)) trace.

(** The probe returned a string, for flatpak, other than the requested name. *)
Definition is_mismatch (t : probe_record) : bool :=
  match record_value t with
  | PStr s => (record_manager t =? "flatpak")%string && negb (s =? record_package t)%string
  | PBool _ => false
  end.

(** A prober that writes nothing. *)
Definition quiet (prober : string -> string -> M probe_value) : Prop :=
  forall package manager st, printed (snd (prober package manager st)) = printed st.

Definition scan_events (repo_order : list string) : list event :=
  map (EvProgress "Checking repository") repo_order.

(** The note of lines 470-474. *)
Definition mismatch_events (install_mode : bool) (acc : scan) : list event :=
  if install_mode then
    match flatpak_mismatches acc with
    | [] => []
    | m => EvMismatchNote :: map (fun e => EvMismatch (fst e) (snd e)) m
    end
  else [].

(** The numbered menu of lines 483-486. *)
Definition menu_events (packages options : list string) : list event :=
  EvSelectHeader packages
    :: map (fun e => EvOption (fst e) (snd e)) (enumerate_from 1 options)
    ++ [EvExitOption (List.length options + 1)].

(** What the prompt loop writes. *)
Definition prompt_event (e : event) : bool :=
  match e with
  | EvPrompt _ | EvInvalidInput | EvCanceled | EvProgress "Selecting" _ => true
  | _ => false
  end.



(** The cache holds booleans only, as every value the prober computes. *)
Definition bool_cache (c : list (cache_key * probe_value)) : Prop :=
  Forall (fun e => exists b, snd e = PBool b) c.

(** Found or FoundAs. *)
Definition is_hit (v : probe_value) : bool :=
  match v with PBool b => b | PStr _ => true end.

(** The coverage set of backend [m] is not empty: some probe of [m] in
    the trace returned Found or FoundAs. *)
Definition covers (m : string) (trace : list probe_record) : bool :=
  existsb (fun t => (record_manager t =? m)%string && is_hit (record_value t)) trace.

(** Snap knows "curl" only; apt knows "curl" and "git". *)
Definition two_backend_world : world :=
  fun _ command =>
    match command with
    | ["snap"; "find"; "curl"] => Completed 0 ("curl  8.1  woutersj  -  CLI tool" ++ newline)%string
    | ["apt"; "search"; "curl"] => Completed 0 ("curl - command line tool" ++ newline)%string
    | ["apt"; "search"; "git"] => Completed 0 ("git - fast version control" ++ newline)%string
    | _ => Completed 0 EmptyString
    end.

(** The timeout scenario: both backends know "big-pkg"; the detail query
    of dnf times out, that of apt answers. *)
Definition big_pkg_world : world :=
  fun _ command =>
    match command with
    | [a; b; c] =>
        if (c =? "big-pkg")%string then
          if (b =? "search")%string then
            Completed 0 ("big-pkg - a big package" ++ newline)%string
          else if (a =? "dnf")%string && (b =? "info")%string then TimedOut
          else if (a =? "apt")%string && (b =? "show")%string then
            Completed 0 ("Package: big-pkg" ++ newline ++ "Version: 1.2-3" ++ newline
                         ++ "Installed-Size: 4,096 kB" ++ newline)%string
          else Completed 1 EmptyString
        else Completed 1 EmptyString
    | _ => Completed 1 EmptyString
    end.

(** A host on which every search finds what it is asked for, dnf's detail
    query of "big-pkg" runs out of time and its detail query of every
    other package answers. *)
Definition two_pkg_world : world :=
  fun _ command =>
    match command with
    | [a; b; c] =>
        if (b =? "search")%string then Completed 0 (c ++ " - a package" ++ newline)%string
        else if (a =? "dnf")%string && (b =? "info")%string then
          if (c =? "big-pkg")%string then TimedOut
          else Completed 0 ("Version     : 2.0" ++ newline)%string
        else if (a =? "apt")%string && (b =? "show")%string then
          Completed 0 ("Version: 1.2-3" ++ newline)%string
        else Completed 1 EmptyString
    | _ => Completed 1 EmptyString
    end.

(** The same host with a dnf whose detail query of "big-pkg" answers in
    time. *)
Definition two_pkg_world_in_time : world :=
  fun n command =>
    match command with
    | [a; b; c] =>
        if (a =? "dnf")%string && (b =? "info")%string && (c =? "big-pkg")%string then
          Completed 0 ("Version     : 1.2" ++ newline)%string
        else two_pkg_world n command
    | _ => two_pkg_world n command
    end.

(** A host on which flatpak is detected by its directory but cannot be
    started, and apt knows nothing. *)
Definition no_flatpak_world : world :=
  fun _ command =>
    match command with
    | a :: _ => if (a =? "flatpak")%string then SpawnFailed else Completed 0 EmptyString
    | [] => Completed 0 EmptyString
    end.

(** Two data dictionaries with the same packages and the same tables,
    the cell of package [p] and backend [m] apart. *)
Definition similar_cell (p m : string) (cd1 cd2 : comparison_data) : Prop :=
  Forall2 (fun e1 e2 =>
             fst e1 = fst e2 /\
             if (fst e1 =? p)%string
             then without_row m (snd e1) = without_row m (snd e2)
             else snd e1 = snd e2)
          cd1 cd2.

(** What a task leaves: the data with its cell, or the data as it was. *)
Definition after (r : result comparison_data) (cd : comparison_data) : comparison_data :=
  match r with Ok cd' => cd' | Raise _ => cd end.

(** The cache has no pair twice and at most [maxsize] entries. *)
Definition cache_ok (c : list (cache_key * probe_value)) : Prop :=
  NoDup (map fst c) /\ List.length c <= maxsize.

(** The five fields a detail output is parsed into. *)
Definition field_names : list string :=
  ["Name"; "Version"; "Size"; "Description"; "Dependencies"].

(** A record as a task stores it: one of the three error records, or some
    of the five fields and nothing else. *)
Definition well_formed_record (r : info) : Prop :=
  r = [("Error", "Not found")] \/ r = [("Error", "Timeout")] \/
  r = [("Error", "Data unavailable")] \/
  (r <> [] /\ forall k, In k (Dict.keys r) -> In k field_names).

(** The keys of a record are field names. *)
Definition fields_only (i : info) : Prop :=
  forall k, In k (Dict.keys i) -> In k field_names.

(** An input line the prompt loop passes over: no number (it is answered
    with "invalid input"), or a number that [int] accepts and that is
    neither an option nor the exit entry (it is answered with nothing). *)
Definition ignored_input (options : list string) (i : user_input) : bool :=
  match i with
  | KeyboardInterrupt => false
  | Line typed =>
      let choice := PyStr.strip typed in
      if isdigit choice then
        match int_of choice with
        | Ok n => negb ((1 <=? n) && (n <=? List.length options))
                  && negb (n =? List.length options + 1)
        | Raise _ => false
        end
      else true
  end.

(** The superscript two, a digit for [str.isdigit] and no digit for [int]. *)
Definition superscript_two : string := String (ascii_of_nat 178) EmptyString.

(** ** The host: operating system and available backends (lines 235-274) *)

(** [s.split(sep, 1)] when [sep] occurs in [s]: what is before the first
    [sep] and what is after it. *)
Fixpoint split_once (sep : nat) (s : string) : option (string * string) :=
  match s with
  | EmptyString => None
  | String c t =>
      if PyStr.code c =? sep then Some (EmptyString, t)
      else match split_once sep t with
           | Some (before, rest) => Some (String c before, rest)
           | None => None
           end
  end.

(** [str.strip] with the double quote as the character to strip. *)
Fixpoint lstrip_quotes (s : string) : string :=
  match s with
  | EmptyString => EmptyString
  | String c t => if PyStr.code c =? 34 then lstrip_quotes t else s
  end.

Fixpoint rstrip_quotes (s : string) : string :=
  match s with
  | EmptyString => EmptyString
  | String c t =>
      match rstrip_quotes t with
      | EmptyString => if PyStr.code c =? 34 then EmptyString else String c EmptyString
      | t' => String c t'
      end
  end.

Definition strip_quotes (s : string) : string := rstrip_quotes (lstrip_quotes s).

(** Line 240: [dict(line.strip().split("=", 1) for line in f if "=" in line)] *)
Fixpoint os_info_of (lines : list string) (d : Dict.t string) : Dict.t string :=
  match lines with
  | [] => d
  | line :: rest =>
      match split_once 61 (PyStr.strip line) with
      | Some (key, value) => os_info_of rest (Dict.set d key value)
      | None => os_info_of rest d
      end
  end.

(** Lines 244-252: the family of the system and its native backend. *)
Definition classify_os (os_id : string) (os_like : list string) : option (string * string) :=
  if (os_id =? "arch")%string || mem_string "arch" os_like
     || mem_string os_id ["manjaro"; "parch"; "endeavouros"; "garuda"; "artix"]
  then Some ("Arch Linux", "pacman")
  else if (os_id =? "debian")%string || mem_string "debian" os_like
          || mem_string os_id ["ubuntu"; "kali"; "linuxmint"; "pop"; "zorin"; "deepin"; "raspbian"]
  then Some ("Debian", "apt")
  else if (os_id =? "fedora")%string || mem_string "fedora" os_like
          || mem_string os_id ["centos"; "rhel"; "rocky"; "almalinux"]
  then Some ("Fedora", "dnf")
  else if mem_string os_id ["opensuse"; "opensuse-leap"; "opensuse-tumbleweed"; "suse"]
          || mem_string "opensuse" os_like
  then Some ("openSUSE", "zypper")
  else None.

(** [detect_os] on the lines of /etc/os-release, [None] when the file does
    not exist; the result [None] stands for the pair (None, None). *)
Definition detect_os (os_release : option (list string)) : option (string * string) :=
  match os_release with
  | None => None
  | Some lines =>
      let os_info := os_info_of lines [] in
      let os_id := strip_quotes (Dict.get_default os_info "ID" "") in
      let os_like := PyStr.split (strip_quotes (Dict.get_default os_info "ID_LIKE" "")) in
      classify_os os_id os_like
  end.

(** What the program asks the host: the lines of /etc/os-release,
    [shutil.which], [os.path.exists] and [os.path.expanduser]. *)
Record host : Type := mkHost {
  os_release : option (list string);
  which : string -> bool;
  path_exists : string -> bool;
  expanduser : string -> string
}.

Definition distro_is (h : host) (name : string) : bool :=
  match detect_os (os_release h) with
  | Some (distro, _) => (distro =? name)%string
  | None => false
  end.

Definition add_if (b : bool) (name : string) (managers : Dict.t bool) : Dict.t bool :=
  if b then Dict.set managers name true else managers.

(** Lines 255-274. *)
Definition detect_package_managers (h : host) : Dict.t bool :=
  let managers := [] in
  let managers :=
    if distro_is h "Arch Linux" then
      add_if (which h "yay") "yay"
        (add_if (which h "paru") "paru" (Dict.set managers "pacman" true))
    else managers in
  let managers := add_if (which h "apt" && distro_is h "Debian") "apt" managers in
  let managers := add_if (which h "dnf" && distro_is h "Fedora") "dnf" managers in
  let managers := add_if (which h "zypper" && distro_is h "openSUSE") "zypper" managers in
  let managers := add_if (which h "snap") "snap" managers in
  add_if (which h "flatpak" || path_exists h "/var/lib/flatpak"
          || path_exists h (expanduser h "~/.local/share/flatpak"))
         "flatpak" managers.

(** ** Names of custom commands (lines 231-233 and 795-820) *)

Definition RESERVED_NAMES : list string :=
  ["pacman"; "paru"; "yay"; "apt"; "dnf"; "zypper"; "snap"; "flatpak"].

(** [str.isalnum] on one character. *)
Definition is_alnum_char (c : ascii) : bool :=
  let n := PyStr.code c in
  PyStr.between 48 57 n || PyStr.between 65 90 n || PyStr.between 97 122 n
  || (n =? 170) || (n =? 178) || (n =? 179) || (n =? 181) || (n =? 185) || (n =? 186)
  || PyStr.between 188 190 n || PyStr.between 192 214 n || PyStr.between 216 246 n
  || PyStr.between 248 255 n.

(** Lines 232-233. *)
Definition is_english_alphanumeric (text : string) : bool :=
  all_chars (fun c => is_alnum_char c && (PyStr.code c <? 128)) text.

(** How the loop that asks for a name ends. *)
Inductive name_outcome : Type :=
  | NameChosen (custom_name : string)   (* handed to [self_install] *)
  | NoName                              (* an empty line: nothing is installed *)
  | Canceled                            (* interrupt: [sys.exit(0)] *)
  | InputEnded.                         (* [EOFError] *)

(** Lines 800-816 of [custom_install]: the messages written and the end. *)
Fixpoint ask_custom_name (inputs : list user_input) : list event * name_outcome :=
  match inputs with
  | [] => ([], InputEnded)
  | KeyboardInterrupt :: _ => ([EvMessage "Installation canceled by user"], Canceled)
  | Line typed :: rest =>
      let custom_name := PyStr.strip typed in
      if mem_string (PyStr.lower custom_name) (map PyStr.lower RESERVED_NAMES) then
        let (evs, r) := ask_custom_name rest in
        (EvMessage ("Error: '" ++ custom_name ++
                    "' is a reserved package manager name. Please choose a different name.")
           :: evs, r)
      else if (custom_name =? "")%string then ([], NoName)
      else if is_english_alphanumeric custom_name then ([], NameChosen custom_name)
      else
        let (evs, r) := ask_custom_name rest in
        (EvMessage "Use only English letters and numbers" :: evs, r)
  end.

(** A letter of the English alphabet or a decimal digit. *)
Definition ascii_letter_or_digit (c : ascii) : bool :=
  let n := PyStr.code c in
  PyStr.between 48 57 n || PyStr.between 65 90 n || PyStr.between 97 122 n.

(** The flags of [command_mappings]. *)
Definition all_flags : list string :=
  ["-S"; "-R"; "-Sy"; "-Syu"; "-Sc"; "-Q"; "-Qs"; "-Ss"; "-Qi"; "-Ql"].

(** The backends that are native to a family of systems. *)
Definition native_backends : list string := ["pacman"; "apt"; "dnf"; "zypper"].

Definition debian_host : host :=
  mkHost (Some ["NAME=Ubuntu"; "ID=ubuntu"; "ID_LIKE=debian"])
         (fun name => mem_string name ["apt"; "snap"])
         (fun path => (path =? "/var/lib/flatpak")%string)
         (fun path => path).

(** ** Showing and installing packages (lines 338-353 and 630-656) *)

Definition info_commands : Dict.t (list string) :=
  [ ("pacman", ["pacman"; "-Qi"]);
    ("paru", ["paru"; "-Qi"]);
    ("yay", ["yay"; "-Qi"]);
    ("apt", ["apt"; "show"]);
    ("dnf", ["dnf"; "info"]);
    ("zypper", ["zypper"; "info"]);
    ("snap", ["snap"; "info"]);
    ("flatpak", ["flatpak"; "info"]) ].

Definition info_command (package pkg_manager : string) : list string :=
  Dict.get_default info_commands pkg_manager [] ++ [package].

(** Lines 339-353. *)
Definition show_dependencies (w : world) (package pkg_manager : string) : M unit :=
  write (EvMessage ("Fetching info for " ++ package ++ " with " ++ pkg_manager ++ "...")) ;;;
  _ <- run_command w (info_command package pkg_manager) ;;
  ret tt.

(** [[pkg for pkg in pkgs if package_exists(pkg, manager)]], and with
    [negate] the same with [if not package_exists(pkg, manager)]. *)
Fixpoint probe_filter (w : world) (negate : bool) (manager : string) (pkgs : list string)
  : M (list string) :=
  match pkgs with
  | [] => ret []
  | pkg :: rest =>
      v <- package_exists w pkg manager ;;
      l <- probe_filter w negate manager rest ;;
      ret (if xorb (truthy v) negate then pkg :: l else l)
  end.

Fixpoint show_all (w : world) (manager : string) (pkgs : list string) : M unit :=
  match pkgs with
  | [] => ret tt
  | package :: rest => show_dependencies w package manager ;;; show_all w manager rest
  end.

(** [', '.join(l)] *)
Definition join_comma (l : list string) : string := String.concat ", " l.

(** Lines 641-656: what one round of the loop does with the chosen
    backend; it returns the names still to be installed. *)
Definition install_round (w : world) (chosen_manager : string)
    (available_packages remaining_packages : list string) : M (list string) :=
  existing_packages <- probe_filter w false chosen_manager available_packages ;;
  match existing_packages with
  | [] => ret tt
  | _ =>
      show_all w chosen_manager existing_packages ;;;
      match build_command "-S" chosen_manager existing_packages with
      | Raise e => raise e
      | Ok command =>
          write (EvMessage ("Installing " ++ join_comma existing_packages ++ " with "
                            ++ chosen_manager ++ "...")) ;;;
          _ <- run_command w command ;;
          ret tt
      end
  end ;;;
  remaining <- probe_filter w true chosen_manager remaining_packages ;;
  match remaining with
  | [] => ret tt
  | _ =>
      write (EvMessage ("The following packages were not found in " ++ chosen_manager
                        ++ ": " ++ join_comma remaining)) ;;;
      write (EvMessage "Please select another repository for the remaining packages.")
  end ;;;
  ret remaining.

(** Lines 631-656: the loop [while remaining_packages], with a bound
    [fuel] on its rounds; [None] when the bound is reached. *)
Fixpoint handle_install_loop (fuel : nat) (w : world)
    (available_managers remaining_packages : list string) (st : state)
  : option (result unit * state) :=
  match remaining_packages with
  | [] => Some (Ok tt, st)
  | _ :: _ =>
      match fuel with
      | 0 => None
      | S fuel' =>
          match select_repository w remaining_packages available_managers true st with
          | (Raise e, st1) => Some (Raise e, st1)
          | (Ok (Some chosen_manager, (_ :: _) as available_packages), st1) =>
              if (chosen_manager =? "")%string then
                Some (write (EvMessage "Installation aborted.") st1)
              else
                match install_round w chosen_manager available_packages
                        remaining_packages st1 with
                | (Raise e, st2) => Some (Raise e, st2)
                | (Ok remaining, st2) =>
                    handle_install_loop fuel' w available_managers remaining st2
                end
          | (Ok _, st1) => Some (write (EvMessage "Installation aborted.") st1)
          end
      end
  end.

Definition handle_install (fuel : nat) (w : world) (packages available_managers : list string)
  : state -> option (result unit * state) :=
  handle_install_loop fuel w available_managers packages.

(** A process that [handle_install] may launch for a request: the search
    for a requested name, the info command for a requested name, or the
    install command of a backend for some requested names. *)
Definition launched_for (packages : list string) (c : list string) : Prop :=
  (exists p m, In p packages /\ (c = search_command p m \/ c = info_command p m)) \/
  (exists m ps, ps <> [] /\ incl ps packages /\ build_command "-S" m ps = Ok c).

(** From [st] to [st'] only such processes were launched. *)
Definition launches_for (packages : list string) (st st' : state) : Prop :=
  exists new, launched st' = launched st ++ new /\ Forall (launched_for packages) new.

(** A computation that launches only such processes and whose value, when
    it returns one, satisfies [Q]. *)
Definition keeps_to {A : Type} (packages : list string) (Q : A -> Prop) (m : M A) : Prop :=
  forall st, launches_for packages st (snd (m st)) /\
             forall a, fst (m st) = Ok a -> Q a.

(** A computation that reads no input. *)
Definition input_kept {A : Type} (m : M A) : Prop :=
  forall st, stdin (snd (m st)) = stdin st.

(** ** The cache after a scan *)

(** The cache entry a probe of the trace leaves. *)
Definition probed (t : probe_record) : cache_key * probe_value :=
  ((record_package t, record_manager t), record_value t).

(** The entries of [done], the probes made so far, are all in the cache,
    in front of everything older. *)
Definition holds (done c : list (cache_key * probe_value)) : Prop :=
  exists front back,
    c = front ++ back /\
    NoDup (map fst front) /\
    List.length front <= List.length done /\
    incl done front.

(** ** A round of installation after its scan *)

(** Some probe of name [p] with backend [m] in the trace returned a
    truthy value. *)
Definition found_with (m p : string) (trace : list probe_record) : bool :=
  existsb (fun t => (record_manager t =? m)%string && (record_package t =? p)%string
                    && truthy (record_value t)) trace.

(** The cache answers every pair of [done] with the value [done] has. *)
Definition answers (done c : list (cache_key * probe_value)) : Prop :=
  forall k v, In (k, v) done -> cache_find k c = Some v.

(** The truth value [done] has for name [p] with backend [m]. *)
Definition answered (done : list (cache_key * probe_value)) (m p : string) : bool :=
  match cache_find (p, m) done with
  | Some v => truthy v
  | None => false
  end.

(** ** Installing the script under a name (lines 727-748) *)

(** What [shutil.copyfile] does: it copies, raises [PermissionError], or
    raises another [OSError]. *)
Inductive copy_outcome : Type := Copied | PermissionDenied | CopyFailed.

(** The path of the running script and the outcome of copying a file. *)
Record install_env : Type := mkEnv {
  script_path : string;
  copyfile : string -> string -> copy_outcome
}.

(** A call that returns, or ends the program with [sys.exit(code)]. *)
Inductive flow (A : Type) : Type :=
  | Continue (a : A)
  | Exited (code : nat).
Arguments Continue {A} a.
Arguments Exited {A} code.

Definition self_install (w : world) (h : host) (env : install_env) (name : string)
  : M (flow unit) :=
  let target_path := ("/usr/local/bin/" ++ name)%string in
  if path_exists h target_path then ret (Continue tt)
  else
    write (EvMessage ("Installing " ++ name ++ "...")) ;;;
    progress_bar "Installing" name ;;;
    copied <- match copyfile env (script_path env) target_path with
              | Copied => ret (Continue tt)
              | PermissionDenied =>
                  ok <- run_command w ["sudo"; "cp"; script_path env; target_path] ;;
                  if ok then
                    write (EvMessage "Installed with sudo") ;;; ret (Continue tt)
                  else
                    write (EvMessage ("Failed to install " ++ name ++ ". Run with sudo.")) ;;;
                    ret (Exited 1)
              | CopyFailed => raise OSError
              end ;;
    match copied with
    | Exited code => ret (Exited code)
    | Continue _ =>
        ok <- run_command w ["chmod"; "755"; target_path] ;;
        ok <- (if ok then ret true
               else run_command w ["sudo"; "chmod"; "755"; target_path]) ;;
        if ok then
          progress_bar "Setting up" name ;;;
          write (EvMessage ("Installed! Use '" ++ name ++ "' now.")) ;;;
          ret (Continue tt)
        else
          write (EvMessage "Failed to set permissions.") ;;; ret (Exited 1)
    end.

(** ** The entry point (lines 823-925) *)

(** The menus that [main] hands over to; they are not entered here. *)
Inductive menu : Type := InteractiveMenu | MainMenu | RemovalMenu | ColorMenu.

(** How [main] ends: it calls a menu (and, after the options -r, -m and
    -c, exits with status 0 when the menu returns), it exits with a
    status, or it returns. *)
Inductive main_result : Type :=
  | Enters (m : menu) (exits_after : bool)
  | Exits (code : nat)
  | Returns.

(** [s.endswith(suffix)] *)
Definition endswith (s suffix : string) : bool :=
  (String.length suffix <=? String.length s) &&
  (substring (String.length s - String.length suffix) (String.length suffix) s
   =? suffix)%string.

(** Truthiness of a value that is [None] or a string. *)
Definition truthy_name (o : option string) : bool :=
  match o with
  | Some s => negb (s =? "")%string
  | None => false
  end.

(** Line 840. *)
Definition simulated_manager (script_name : string) : option string :=
  if mem_string script_name ["dnf"; "zypper"; "apt"; "pacman"] then Some script_name
  else None.

(** Line 841. *)
Definition custom_manager (script_name : string) : option string :=
  if negb (mem_string script_name ["dnf"; "zypper"; "apt"; "pacman"; "python3"])
     && negb (endswith script_name ".py")
  then Some script_name else None.

(** Lines 864-880. *)
Definition translate_verb (command : string) : string :=
  if (command =? "install")%string then "-S"
  else if (command =? "remove")%string then "-R"
  else if (command =? "update")%string then "-Sy"
  else if (command =? "upgrade")%string then "-Syu"
  else if (command =? "clean")%string then "-Sc"
  else if (command =? "list")%string then "-Q"
  else if (command =? "search")%string then "-Ss"
  else if (command =? "info")%string then "-Qi"
  else command.

(** Lines 908-913 and 915-920. *)
Definition execute (w : world) (command chosen_manager : string) (args : list string)
  : M main_result :=
  match build_command command chosen_manager args with
  | Raise e => raise e
  | Ok cmd =>
      write (EvMessage ("Executing with " ++ chosen_manager ++ "...")) ;;;
      _ <- run_command w cmd ;;
      ret Returns
  end.

(** Lines 887-906: remove, search and info go through the resolver. *)
Definition resolve_and_run (w : world) (command : string) (args available_managers : list string)
  : M main_result :=
  r <- select_repository w args available_managers false ;;
  let (chosen, available_packages) := r in
  match chosen with
  | Some chosen_manager =>
      if (chosen_manager =? "")%string then
        write (EvMessage "No repository selected.") ;;; ret (Exits 1)
      else if (command =? "-R")%string then
        match build_command "-R" chosen_manager available_packages with
        | Raise e => raise e
        | Ok cmd =>
            write (EvMessage ("Removing with " ++ chosen_manager ++ "...")) ;;;
            _ <- run_command w cmd ;;
            ret Returns
        end
      else if (command =? "-Ss")%string then
        match mapped_command "-Ss" chosen_manager with
        | Raise e => raise e
        | Ok argv =>
            write (EvMessage ("Searching with " ++ chosen_manager ++ "...")) ;;;
            _ <- run_command w (argv ++ args) ;;
            ret Returns
        end
      else if (command =? "-Qi")%string then
        show_all w chosen_manager args ;;; ret Returns
      else ret Returns
  | None => write (EvMessage "No repository selected.") ;;; ret (Exits 1)
  end.

(** Lines 839-925, with [argv] for [sys.argv[1:]]; [None] when the bound on
    the rounds of the installation loop is reached. *)
Definition run_main (fuel : nat) (w : world) (script_name : string) (argv : list string)
    (pkg_manager : string) (available_managers : list string)
  : state -> option (result main_result * state) :=
  let running_with_python :=
    prefix "python3" script_name || endswith script_name ".py" in
  let simulated := truthy_name (simulated_manager script_name) in
  let custom := truthy_name (custom_manager script_name) in
  match argv with
  | [] =>
      fun st =>
        Some (Ok (if (script_name =? "evopkg")%string || custom then Enters InteractiveMenu false
                  else if running_with_python then Enters MainMenu false
                  else Enters InteractiveMenu false), st)
  | command :: args =>
      if (command =? "-r")%string && (script_name =? "evopkg")%string then
        fun st => Some (Ok (Enters RemovalMenu true), st)
      else if (command =? "-m")%string && (script_name =? "evopkg")%string then
        fun st => Some (Ok (Enters MainMenu true), st)
      else if (command =? "-c")%string && (script_name =? "evopkg")%string then
        fun st => Some (Ok (Enters ColorMenu true), st)
      else
        let command := if simulated then translate_verb command else command in
        match Dict.get command_mappings pkg_manager with
        | None => fun st => Some (Raise KeyError, st)
        | Some verbs =>
            if Dict.mem verbs command then
              if (simulated || custom || (script_name =? "evopkg")%string)
                 && negb (match args with [] => true | _ => false end) then
                if (command =? "-S")%string then
                  fun st =>
                    match handle_install fuel w args available_managers st with
                    | Some (Ok _, st') => Some (Ok Returns, st')
                    | Some (Raise e, st') => Some (Raise e, st')
                    | None => None
                    end
                else if mem_string command ["-R"; "-Ss"; "-Qi"] then
                  fun st => Some (resolve_and_run w command args available_managers st)
                else fun st => Some (execute w command pkg_manager args st)
              else fun st => Some (execute w command pkg_manager args st)
            else
              fun st =>
                Some ((write (EvMessage ("Unknown command '" ++ command ++ "'!")) ;;;
                       ret (Exits 1)) st)
        end
  end.

(** Lines 823-837, then the dispatch above.  [script_name] is the base
    name of [sys.argv[0]]. *)
Definition main (fuel : nat) (w : world) (h : host) (env : install_env)
    (script_name : string) (argv : list string)
  : state -> option (result main_result * state) :=
  fun st =>
    match detect_os (os_release h) with
    | None => Some ((write (EvMessage "Unsupported OS!") ;;; ret (Exits 1)) st)
    | Some (distro, pkg_manager) =>
        let available_managers := Dict.keys (detect_package_managers h) in
        match (if path_exists h "/usr/local/bin/evopkg" then ret (Continue tt)
               else self_install w h env "evopkg") st with
        | (Raise e, st1) => Some (Raise e, st1)
        | (Ok (Exited code), st1) => Some (Ok (Exits code), st1)
        | (Ok (Continue _), st1) =>
            run_main fuel w script_name argv pkg_manager available_managers st1
        end
    end.

(** Neither a [KeyError] nor an [IndexError]. *)
Definition no_lookup_error {A : Type} (r : result A) : Prop :=
  r <> Raise KeyError /\ r <> Raise IndexError.

(** A computation that raises no such error and whose value, when it
    returns one, satisfies [Q]. *)
Definition yields {A : Type} (Q : A -> Prop) (m : M A) : Prop :=
  forall st, no_lookup_error (fst (m st)) /\ forall a, fst (m st) = Ok a -> Q a.

(** A host of the Debian family on which evopkg is installed. *)
Definition installed_debian_host : host :=
  mkHost (Some ["NAME=Ubuntu"; "ID=ubuntu"; "ID_LIKE=debian"])
         (fun name => mem_string name ["apt"; "snap"])
         (fun path => (path =? "/usr/local/bin/evopkg")%string)
         (fun path => path).

Definition plain_env : install_env := mkEnv "/opt/evopkg.py" (fun _ _ => Copied).

(** The command [main] looks up: the verb translated under a simulated
    name, the command as given otherwise. *)
Definition looked_up (script_name command : string) : string :=
  if truthy_name (simulated_manager script_name) then translate_verb command else command.

(** The eight verbs that are translated under a simulated name. *)
Definition literal_verbs : list string :=
  ["install"; "remove"; "update"; "upgrade"; "clean"; "list"; "search"; "info"].

(** ** Installing under a custom name (lines 795-820) *)

(** The inputs that the loop of [ask_custom_name] leaves unread. *)
Fixpoint inputs_after_name (inputs : list user_input) : list user_input :=
  match inputs with
  | [] => []
  | KeyboardInterrupt :: rest => rest
  | Line typed :: rest =>
      let custom_name := PyStr.strip typed in
      if mem_string (PyStr.lower custom_name) (map PyStr.lower RESERVED_NAMES) then
        inputs_after_name rest
      else if (custom_name =? "")%string then rest
      else if is_english_alphanumeric custom_name then rest
      else inputs_after_name rest
  end.

(** [detect_os()[0]] as an f-string prints it. *)
Definition detected_os_text (h : host) : string :=
  match detect_os (os_release h) with
  | Some (distro, _) => distro
  | None => "None"
  end.

Definition custom_install (w : world) (h : host) (env : install_env) : M (flow unit) :=
  write (EvMessage ("Detected OS: " ++ detected_os_text h)) ;;;
  fun st =>
    let (evs, outcome) := ask_custom_name (stdin st) in
    let st1 := mkState (cache st) (launched st) (printed st ++ evs)
                       (inputs_after_name (stdin st)) in
    match outcome with
    | NameChosen custom_name => self_install w h env custom_name st1
    | NoName => (Ok (Continue tt), st1)
    | Canceled => (Ok (Exited 0), st1)
    | InputEnded => (Raise EOFError, st1)
    end.

(** The processes [self_install] may launch for a name. *)
Definition install_step (env : install_env) (name : string) (c : list string) : Prop :=
  let target_path := ("/usr/local/bin/" ++ name)%string in
  c = ["sudo"; "cp"; script_path env; target_path] \/
  c = ["chmod"; "755"; target_path] \/
  c = ["sudo"; "chmod"; "755"; target_path].

(** The [n]-th process of the run made the file of [name] executable. *)
Definition made_executable (w : world) (name : string) (log : list (list string)) (n : nat)
  : Prop :=
  let target_path := ("/usr/local/bin/" ++ name)%string in
  exists c out,
    nth_error log n = Some c /\
    (c = ["chmod"; "755"; target_path] \/ c = ["sudo"; "chmod"; "755"; target_path]) /\
    w n c = Completed 0 out.

(** A name made of English letters and digits that is no backend's. *)
Definition valid_name (name : string) : Prop :=
  name <> EmptyString /\
  all_chars ascii_letter_or_digit name = true /\
  ~ In (PyStr.lower name) RESERVED_NAMES.

Definition denying_env : install_env := mkEnv "/opt/evopkg.py" (fun _ _ => PermissionDenied).

(** ** Simulating a package manager (lines 510-549) *)

(** Line 512: the four simulated names without the native backend. *)
Definition simulation_options (h : host) : list string :=
  filter (fun mgr => match detect_os (os_release h) with
                     | Some (_, pkg_manager) => negb (mgr =? pkg_manager)%string
                     | None => true
                     end)
         ["dnf"; "zypper"; "apt"; "pacman"].

(** Lines 533-535: every simulator in turn. *)
Fixpoint install_all (w : world) (h : host) (env : install_env) (options : list string)
  : M (flow unit) :=
  match options with
  | [] => ret (Continue tt)
  | mgr :: rest =>
      r <- self_install w h env mgr ;;
      match r with
      | Exited code => ret (Exited code)
      | Continue _ =>
          progress_bar "Installing simulator" mgr ;;;
          install_all w h env rest
      end
  end.

(** Lines 522-549: the prompt loop, one pending input at a time;
    [EvPrompt n] stands for the prompt with its upper bound [n]. *)
Fixpoint simulate_choice (w : world) (h : host) (env : install_env) (options : list string)
    (inputs : list user_input) : M (flow unit) :=
  write (EvPrompt (List.length options + 2)) ;;;
  match inputs with
  | [] => raise EOFError
  | KeyboardInterrupt :: _ =>
      pop_input ;;; write EvCanceled ;;; ret (Continue tt)
  | Line typed :: rest =>
      pop_input ;;;
      let choice := PyStr.strip typed in
      if isdigit choice then
        match int_of choice with
        | Raise e => raise e
        | Ok choice_int =>
            if (1 <=? choice_int) && (choice_int <=? List.length options) then
              match nth_error options (choice_int - 1) with
              | None => raise IndexError
              | Some mgr =>
                  r <- self_install w h env mgr ;;
                  match r with
                  | Exited code => ret (Exited code)
                  | Continue _ =>
                      progress_bar "Simulating" mgr ;;;
                      write (EvMessage ("Now you can use '" ++ mgr ++ "'!")) ;;;
                      ret (Continue tt)
                  end
              end
            else if choice_int =? List.length options + 1 then
              r <- install_all w h env options ;;
              match r with
              | Exited code => ret (Exited code)
              | Continue _ =>
                  write (EvMessage "All simulators installed!") ;;; ret (Continue tt)
              end
            else if choice_int =? List.length options + 2 then ret (Continue tt)
            else simulate_choice w h env options rest
        end
      else
        write (EvMessage "Please enter a valid number!") ;;;
        simulate_choice w h env options rest
  end.

Definition simulate_package_manager (w : world) (h : host) (env : install_env)
  : M (flow unit) :=
  let options := simulation_options h in
  write (EvMessage "=== Package Manager Simulation ===") ;;;
  write (EvMessage ("Detected OS: " ++ detected_os_text h)) ;;;
  write (EvMessage "Which package manager would you like to simulate?") ;;;
  write_all (map (fun e => EvOption (fst e) (snd e)) (enumerate_from 1 options)) ;;;
  write (EvOption (List.length options + 1) "Install all simulators") ;;;
  write (EvExitOption (List.length options + 2)) ;;;
  fun st => simulate_choice w h env options (stdin st) st.

(** A computation that launches only processes that satisfy [P]. *)
Definition only_launches {A : Type} (P : list string -> Prop) (m : M A) : Prop :=
  forall st, exists new, launched (snd (m st)) = launched st ++ new /\ Forall P new.

(** The processes that install a simulator on host [h]: one of the four
    simulated names, but not the native backend of [h]. *)
Definition simulator_step (h : host) (env : install_env) (c : list string) : Prop :=
  exists name,
    In name ["dnf"; "zypper"; "apt"; "pacman"] /\
    (forall distro, detect_os (os_release h) <> Some (distro, name)) /\
    install_step env name c.

(** ** Removing installed managers (lines 658-725) *)

(** What reading a file as text does: it gives the text, raises an
    [OSError] (which the loop passes over), or raises the
    [UnicodeDecodeError] of a file that is not text, a [ValueError]. *)
Inductive read_outcome : Type :=
  | Content (text : string)
  | ReadDenied
  | Undecodable.

(** An entry of /usr/local/bin: its name, whether it is a regular file
    that may be executed, and what reading it gives. *)
Record dir_entry : Type := mkEntry {
  entry_name : string;
  executable_file : bool;
  read_text : read_outcome
}.

(** What [os.remove] does: it removes, raises [PermissionError], or
    raises another [OSError]. *)
Inductive remove_outcome : Type := Removed | RemoveDenied | RemoveFailed.

(** The file system as [removal_menu] sees it; [listdir] is [None] when
    the directory cannot be listed. *)
Record files : Type := mkFiles {
  listdir : option (list dir_entry);
  os_remove : string -> remove_outcome
}.

Definition signature : string := "# EVOPKG_SIGNATURE_EVOPM".

(** Lines 665-673: the names that are offered for removal. *)
Fixpoint installed_managers (entries : list dir_entry) : result (list string) :=
  match entries with
  | [] => Ok []
  | e :: rest =>
      if executable_file e then
        match read_text e with
        | Content text =>
            match installed_managers rest with
            | Ok l =>
                Ok (if PyStr.contains signature text
                       && negb (entry_name e =? "evopkg")%string
                    then entry_name e :: l else l)
            | Raise x => Raise x
            end
        | ReadDenied => installed_managers rest
        | Undecodable => Raise ValueError
        end
      else installed_managers rest
  end.

(** [os.path.join(bin_dir, mgr)] for a name of the listing. *)
Definition bin_path (mgr : string) : string := ("/usr/local/bin/" ++ mgr)%string.

(** Lines 694-700 and 705-711. *)
Definition remove_manager (w : world) (fs : files) (mgr : string) : M unit :=
  let target_path := bin_path mgr in
  progress_bar "Removing" mgr ;;;
  match os_remove fs target_path with
  | Removed => ret tt
  | RemoveDenied => _ <- run_command w ["sudo"; "rm"; target_path] ;; ret tt
  | RemoveFailed => raise OSError
  end.

Fixpoint remove_managers (w : world) (fs : files) (mgrs : list string) : M unit :=
  match mgrs with
  | [] => ret tt
  | mgr :: rest => remove_manager w fs mgr ;;; remove_managers w fs rest
  end.

(** Lines 687-725: the prompt loop, one pending input at a time. *)
Fixpoint removal_choice (w : world) (fs : files) (installed : list string)
    (inputs : list user_input) : M unit :=
  write (EvPrompt (List.length installed + 2)) ;;;
  match inputs with
  | [] => raise EOFError
  | KeyboardInterrupt :: _ => pop_input ;;; write EvCanceled
  | Line typed :: rest =>
      pop_input ;;;
      let choice := PyStr.strip typed in
      if isdigit choice then
        match int_of choice with
        | Raise e => raise e
        | Ok choice_int =>
            if (1 <=? choice_int) && (choice_int <=? List.length installed) then
              match nth_error installed (choice_int - 1) with
              | None => raise IndexError
              | Some mgr =>
                  remove_manager w fs mgr ;;;
                  write (EvMessage ("Removed " ++ mgr))
              end
            else if choice_int =? List.length installed + 1 then
              remove_managers w fs installed ;;;
              write (EvMessage
                "All Evopkg-installed managers removed (excluding evopkg itself)")
            else if choice_int =? List.length installed + 2 then
              progress_bar "Exiting removal menu" "" ;;;
              write (EvMessage "Exiting removal menu")
            else removal_choice w fs installed rest
        end
      else
        write (EvMessage "Please enter a valid number!") ;;;
        removal_choice w fs installed rest
  end.

Definition removal_menu (w : world) (fs : files) : M unit :=
  match listdir fs with
  | None => raise OSError
  | Some entries =>
      match installed_managers entries with
      | Raise e => raise e
      | Ok [] =>
          write (EvMessage
            "No Evopkg-installed package managers found (excluding evopkg itself)!")
      | Ok installed =>
          write (EvMessage "=== Remove Installed Package Managers ===") ;;;
          write_all (map (fun e => EvOption (fst e) (snd e)) (enumerate_from 1 installed)) ;;;
          write (EvOption (List.length installed + 1) "Remove all") ;;;
          write (EvExitOption (List.length installed + 2)) ;;;
          fun st => removal_choice w fs installed (stdin st) st
      end
  end.

(** An entry that may be removed: an executable file other than evopkg
    whose text holds the signature. *)
Definition removable (entries : list dir_entry) (mgr : string) : Prop :=
  mgr <> "evopkg" /\
  exists e text,
    In e entries /\ entry_name e = mgr /\ executable_file e = true /\
    read_text e = Content text /\ PyStr.contains signature text = true.

(** A computation that writes only events that satisfy [Pe] and launches
    only processes that satisfy [Pc]. *)
Definition confined {A : Type} (Pe : event -> Prop) (Pc : list string -> Prop) (m : M A)
  : Prop :=
  forall st, exists evs new,
    printed (snd (m st)) = printed st ++ evs /\
    launched (snd (m st)) = launched st ++ new /\
    Forall Pe evs /\ Forall Pc new.

(** The removal of [mgr] is announced only when [mgr] may be removed. *)
Definition removal_event (entries : list dir_entry) (e : event) : Prop :=
  forall mgr, e = EvProgress "Removing" mgr -> removable entries mgr.

(** The only process: [sudo rm] of an entry that may be removed. *)
Definition removal_step (entries : list dir_entry) (c : list string) : Prop :=
  exists mgr, removable entries mgr /\ c = ["sudo"; "rm"; bin_path mgr].

(** A directory with evopkg itself, a simulator, a foreign script and a
    program that is not text. *)
Definition sample_bin : list dir_entry :=
  [ mkEntry "evopkg" true (Content "#!/usr/bin/env python3 # EVOPKG_SIGNATURE_EVOPM");
    mkEntry "apt" true (Content "signature = # EVOPKG_SIGNATURE_EVOPM");
    mkEntry "backup.sh" true (Content "#!/bin/sh");
    mkEntry "README" false (Content "# EVOPKG_SIGNATURE_EVOPM") ].

Definition sample_files : files := mkFiles (Some sample_bin) (fun _ => RemoveDenied).

(** * Properties *)

(** ** Text *)

Section TextFacts.
Local Open Scope string_scope.

Lemma length_append (s t : string) :
  String.length (s ++ t) = String.length s + String.length t.
Proof. induction s as [|c s IH]; simpl; [reflexivity | now rewrite IH]. Qed.

Lemma append_assoc (s t u : string) : (s ++ t) ++ u = s ++ (t ++ u).
Proof. induction s as [|c s IH]; simpl; [reflexivity | now rewrite IH]. Qed.

Lemma append_empty_r (s : string) : s ++ "" = s.
Proof. induction s as [|c s IH]; simpl; [reflexivity | now rewrite IH]. Qed.

Lemma snoc_append (acc : string) (c : ascii) (t : string) :
  PyStr.snoc acc c ++ t = acc ++ String c t.
Proof. unfold PyStr.snoc. now rewrite append_assoc. Qed.

Lemma lower_append (s t : string) :
  PyStr.lower (s ++ t) = PyStr.lower s ++ PyStr.lower t.
Proof. induction s as [|c s IH]; simpl; [reflexivity | now rewrite IH]. Qed.

Lemma length_take (n : nat) (s : string) :
  String.length (PyStr.take n s) = Nat.min n (String.length s).
Proof.
  revert s; induction n as [|n IH]; intros [|c s]; simpl; try reflexivity.
  now rewrite IH.
Qed.

Lemma prefix_append (n post : string) : prefix n (n ++ post) = true.
Proof.
  induction n as [|c n IH]; simpl.
  - now destruct post.
  - destruct (ascii_dec c c) as [_|ne]; [exact IH | now elim ne].
Qed.

Lemma prefix_split (n h : string) :
  prefix n h = true -> exists post, h = n ++ post.
Proof.
  revert h; induction n as [|c n IH]; intros h Hp.
  - now exists h.
  - destruct h as [|d h]; simpl in Hp; [discriminate|].
    destruct (ascii_dec c d) as [->|]; [|discriminate].
    destruct (IH _ Hp) as [post ->]. now exists post.
Qed.

Lemma contains_empty (n : string) : PyStr.contains n "" = prefix n "".
Proof. simpl. apply orb_false_r. Qed.

Lemma contains_cons (n : string) (d : ascii) (h : string) :
  PyStr.contains n (String d h) = prefix n (String d h) || PyStr.contains n h.
Proof. reflexivity. Qed.

(** [needle in hay] holds exactly when [hay] is some text, then
    [needle], then some text. *)
Lemma contains_split (n h : string) :
  PyStr.contains n h = true <-> exists pre post, h = pre ++ n ++ post.
Proof.
  split.
  - induction h as [|d h IH]; intros Hc.
    + rewrite contains_empty in Hc.
      destruct (prefix_split _ _ Hc) as [post E]. now exists "", post.
    + rewrite contains_cons in Hc. apply orb_true_iff in Hc as [Hp|Hc].
      * destruct (prefix_split _ _ Hp) as [post E]. now exists "", post.
      * destruct (IH Hc) as (pre & post & ->). now exists (String d pre), post.
  - intros (pre & post & ->).
    induction pre as [|d pre IH].
    + simpl append. destruct (n ++ post) as [|d h] eqn:E.
      * rewrite contains_empty, <- E. apply prefix_append.
      * rewrite contains_cons, <- E, prefix_append. reflexivity.
    + simpl append. rewrite contains_cons, IH. apply orb_true_r.
Qed.

Lemma contains_inside (n pre mid post : string) :
  PyStr.contains n mid = true -> PyStr.contains n (pre ++ mid ++ post) = true.
Proof.
  intros H. apply contains_split in H as (a & b & ->).
  apply contains_split. exists (pre ++ a), (b ++ post).
  now rewrite !append_assoc.
Qed.

(** Every line that [splitlines] yields is a piece of the text. *)
Lemma splitlines_from_piece (n : nat) :
  forall s acc line,
    String.length s <= n ->
    In line (PyStr.splitlines_from acc s) ->
    exists pre post, acc ++ s = pre ++ line ++ post.
Proof.
  induction n as [|n IH]; intros s acc line Hlen Hin.
  - destruct s; [|simpl in Hlen; lia].
    simpl in Hin. destruct acc; [contradiction|].
    destruct Hin as [<-|[]]. exists "", "". now rewrite !append_empty_r.
  - destruct s as [|c t].
    + simpl in Hin. destruct acc; [contradiction|].
      destruct Hin as [<-|[]]. exists "", "". now rewrite !append_empty_r.
    + simpl in Hin, Hlen.
      destruct (PyStr.is_linebreak c).
      * destruct Hin as [<-|Hin]; [now exists "", (String c t)|].
        assert (Hrest : In line (PyStr.splitlines_from "" t) ->
                        exists pre post, acc ++ String c t = pre ++ line ++ post).
        { intros Ht. destruct (IH t "" line ltac:(lia) Ht) as (pre & post & E).
          simpl in E. exists (acc ++ String c pre), post.
          rewrite E, append_assoc. reflexivity. }
        destruct t as [|d t']; [now apply Hrest|].
        destruct (PyStr.is_cr c && PyStr.is_lf d); [|now apply Hrest].
        simpl in Hlen.
        destruct (IH t' "" line ltac:(lia) Hin) as (pre & post & E).
        simpl in E. exists (acc ++ String c (String d pre)), post.
        rewrite E, append_assoc. reflexivity.
      * destruct (IH t (PyStr.snoc acc c) line ltac:(lia) Hin) as (pre & post & E).
        rewrite snoc_append in E. now exists pre, post.
Qed.

Lemma splitlines_piece (s line : string) :
  In line (PyStr.splitlines s) -> exists pre post, s = pre ++ line ++ post.
Proof.
  intros H. exact (splitlines_from_piece (String.length s) s "" line (le_n _) H).
Qed.
End TextFacts.

(** ** The existence prober *)

(** The flatpak line loop returns only from a line that contains the
    case-folded name. *)
Lemma flatpak_scan_line (package : string) (lines : list string) (r : result probe_value) :
  flatpak_scan package lines = Some r ->
  exists line, In line lines /\
               PyStr.contains (PyStr.lower package) (PyStr.lower line) = true.
Proof.
  induction lines as [|line rest IH]; simpl; [discriminate|].
  destruct (PyStr.contains (PyStr.lower package) (PyStr.lower line)) eqn:E.
  - intros _. exists line. auto.
  - intros H. destruct (IH H) as (l & Hl & Hc). exists l. auto.
Qed.

(** Under the guard of line 314 the loop of lines 315-318 never returns:
    a line that holds the name makes the whole output hold it. *)
Lemma flatpak_scan_dead (package stdout : string) :
  PyStr.contains (PyStr.lower package) (PyStr.lower stdout) = false ->
  flatpak_scan package (PyStr.splitlines stdout) = None.
Proof.
  intros Hout. destruct (flatpak_scan _ _) as [r|] eqn:E; [|reflexivity].
  destruct (flatpak_scan_line _ _ _ E) as (line & Hin & Hc).
  destruct (splitlines_piece _ _ Hin) as (pre & post & ->).
  rewrite !lower_append, contains_inside in Hout by exact Hc. discriminate.
Qed.

(** On a completed child process every backend gets the same answer. *)
Lemma package_exists_on_completed (package pkg_manager : string) (rc : Z) (out : string) :
  package_exists_on package pkg_manager (Completed rc out) =
  Ok (PBool (PyStr.contains (PyStr.lower package) (PyStr.lower out) && (rc =? 0)%Z)).
Proof.
  unfold package_exists_on.
  destruct (pkg_manager =? "flatpak")%string; [|reflexivity].
  destruct (PyStr.contains _ _) eqn:E; simpl; [reflexivity|].
  now rewrite flatpak_scan_dead.
Qed.

Lemma package_exists_on_bool (package pkg_manager : string) (o : run_outcome) (v : probe_value) :
  package_exists_on package pkg_manager o = Ok v -> exists b, v = PBool b.
Proof.
  destruct o; [rewrite package_exists_on_completed| | |]; simpl; intros H;
    inversion H; eauto.
Qed.

(** C2 (code defect).  On the scenario's input, flatpak answering the line
    "org.mozilla.firefox  Firefox  Web Browser" for the name "firefox", the
    prober returns [True] (Found) and not the identifier of the line; and
    for no name, no backend and no outcome of the child process does it
    return a string: the loop that extracts the first token of a matching
    line runs only when the whole output lacks the name, and then no line
    can hold it. *)
Theorem flatpak_found_as_unreachable :
  package_exists_on "firefox" "flatpak" (Completed 0 firefox_search_output)
    = Ok (PBool true) /\
  forall package pkg_manager o canonical,
    package_exists_on package pkg_manager o <> Ok (PStr canonical).
Proof.
  split; [reflexivity|].
  intros package pkg_manager o canonical H.
  destruct (package_exists_on_bool _ _ _ _ H) as [b Hb]. discriminate.
Qed.

Lemma package_exists_miss (w : world) (package pkg_manager : string) (st : state) :
  cache_find (package, pkg_manager) (cache st) = None ->
  package_exists w package pkg_manager st =
  let cmd := search_command package pkg_manager in
  match package_exists_on package pkg_manager (w (List.length (launched st)) cmd) with
  | Ok v => (Ok v, mkState (firstn maxsize (((package, pkg_manager), v) :: cache st))
                           (launched st ++ [cmd]) (printed st) (stdin st))
  | Raise e => (Raise e, mkState (cache st) (launched st ++ [cmd]) (printed st) (stdin st))
  end.
Proof.
  intros Hmiss. unfold package_exists, package_exists_body, launch.
  rewrite Hmiss. simpl. now destruct (package_exists_on _ _ _).
Qed.

Lemma package_exists_hit (w : world) (package pkg_manager : string) (st : state) (v : probe_value) :
  cache_find (package, pkg_manager) (cache st) = Some v ->
  package_exists w package pkg_manager st =
  (Ok v, set_cache (((package, pkg_manager), v)
                      :: cache_remove (package, pkg_manager) (cache st)) st).
Proof. intros Hhit. unfold package_exists. now rewrite Hhit. Qed.

(** C6.  A probe that is not answered from the cache reports Found
    ([True]) exactly when its child process completes with exit status 0
    and the case-folded name occurs in the case-folded output; with exit
    status 0 and the name absent it reports NotFound ([False]), for flatpak
    as for every other backend. *)
Theorem probe_found_iff (w : world) (package pkg_manager : string) (st : state) :
  cache_find (package, pkg_manager) (cache st) = None ->
  let o := w (List.length (launched st)) (search_command package pkg_manager) in
  (fst (package_exists w package pkg_manager st) = Ok (PBool true) <->
   exists out, o = Completed 0 out /\
               PyStr.contains (PyStr.lower package) (PyStr.lower out) = true) /\
  (forall out, o = Completed 0 out ->
               PyStr.contains (PyStr.lower package) (PyStr.lower out) = false ->
               fst (package_exists w package pkg_manager st) = Ok (PBool false)).
Proof.
  intros Hmiss o. rewrite (package_exists_miss _ _ _ _ Hmiss). cbv zeta. fold o.
  split.
  - destruct o as [rc out| | |] eqn:Eo.
    + rewrite package_exists_on_completed. simpl. split.
      * intros H. injection H as Hb. apply andb_true_iff in Hb as [Hc Hrc].
        apply Z.eqb_eq in Hrc. subst rc. now exists out.
      * intros (out' & E & Hc). inversion E; subst. now rewrite Hc.
    + simpl. split; [discriminate | intros (out' & E & _); discriminate].
    + simpl. split; [discriminate | intros (out' & E & _); discriminate].
    + simpl. split; [discriminate | intros (out' & E & _); discriminate].
  - intros out -> Hc. rewrite package_exists_on_completed, Hc. reflexivity.
Qed.

Lemma probe_found_iff_witness :
  let o := git_world 0 (search_command "git" "apt") in
  (fst (package_exists git_world "git" "apt" (initial_state [])) = Ok (PBool true) <->
   exists out, o = Completed 0 out /\
               PyStr.contains (PyStr.lower "git") (PyStr.lower out) = true) /\
  (forall out, o = Completed 0 out ->
               PyStr.contains (PyStr.lower "git") (PyStr.lower out) = false ->
               fst (package_exists git_world "git" "apt" (initial_state [])) = Ok (PBool false)).
Proof.
  apply (probe_found_iff git_world "git" "apt" (initial_state [])).
  reflexivity.
Defined.

(** ** Cell truncation *)

(** C10.  Truncation to the default width is total; its result has at most
    22 characters; it is the text itself exactly when the text has at most
    22 characters, and otherwise the first 19 characters followed by three
    dots; truncating twice is truncating once. *)
Theorem truncate_text_bounded_idempotent (s : string) :
  String.length (truncate_text_default s) <= 22 /\
  (truncate_text_default s = s <-> String.length s <= 22) /\
  (String.length s <= 22 \/
   truncate_text_default s = (PyStr.take 19 s ++ "...")%string) /\
  truncate_text_default (truncate_text_default s) = truncate_text_default s.
Proof.
  unfold truncate_text_default, truncate_text.
  destruct (String.length s <=? 22) eqn:E.
  - rewrite E. apply Nat.leb_le in E. repeat split; auto.
  - apply Nat.leb_gt in E.
    assert (L : String.length (PyStr.take 19 s ++ "...")%string = 22).
    { rewrite length_append, length_take. change (String.length "...") with 3. lia. }
    rewrite L. change (22 <=? 22) with true. cbv iota.
    split; [lia|]. split; [|split; [now right | reflexivity]].
    split; intros H; [apply (f_equal String.length) in H; rewrite L in H|]; lia.
Qed.

(** ** The probe cache *)

Lemma key_eqb_eq (a b : cache_key) : key_eqb a b = true <-> a = b.
Proof.
  destruct a as [a1 a2], b as [b1 b2]. unfold key_eqb. simpl.
  rewrite andb_true_iff, !String.eqb_eq. split.
  - now intros [-> ->].
  - intros H. now inversion H.
Qed.

Lemma key_eqb_refl (a : cache_key) : key_eqb a a = true.
Proof. now apply key_eqb_eq. Qed.

Lemma key_eqb_neq (a b : cache_key) : key_eqb a b = false <-> a <> b.
Proof.
  rewrite <- key_eqb_eq. destruct (key_eqb a b); split; congruence.
Qed.

Lemma key_dec (a b : cache_key) : {a = b} + {a <> b}.
Proof.
  destruct (key_eqb a b) eqn:E; [left; now apply key_eqb_eq | right; now apply key_eqb_neq].
Defined.

Lemma cache_find_none (k : cache_key) (c : list (cache_key * probe_value)) :
  cache_find k c = None -> ~ In k (map fst c).
Proof.
  induction c as [|[k' v] c IH]; simpl; [tauto|].
  destruct (key_eqb k' k) eqn:E; [discriminate|].
  apply key_eqb_neq in E. intros H [H1|H1]; [congruence | now apply IH].
Qed.

Lemma cache_find_skip (k : cache_key) (v : probe_value)
    (pre suf : list (cache_key * probe_value)) :
  ~ In k (map fst pre) -> cache_find k (pre ++ (k, v) :: suf) = Some v.
Proof.
  induction pre as [|[k' v'] pre IH]; simpl; intros H.
  - now rewrite key_eqb_refl.
  - destruct (key_eqb k' k) eqn:E.
    + apply key_eqb_eq in E. tauto.
    + apply IH. tauto.
Qed.

Lemma cache_remove_keys (k : cache_key) (c : list (cache_key * probe_value)) :
  forall k', In k' (map fst (cache_remove k c)) -> In k' (map fst c) /\ k' <> k.
Proof.
  intros k' H. apply in_map_iff in H as ([k0 v0] & <- & Hin).
  apply filter_In in Hin as [Hin Hne]. simpl in *.
  apply negb_true_iff, key_eqb_neq in Hne. split; [|exact Hne].
  apply in_map_iff. now exists (k0, v0).
Qed.

Lemma cache_remove_nodup (k : cache_key) (c : list (cache_key * probe_value)) :
  NoDup (map fst c) -> NoDup (map fst (cache_remove k c)).
Proof.
  induction c as [|[k' v] c IH]; simpl; intros H; [constructor|].
  inversion H as [|? ? Hnin Hnd]; subst.
  destruct (negb (key_eqb k' k)); simpl; [|now apply IH].
  constructor; [|now apply IH].
  intros Hin. apply cache_remove_keys in Hin. tauto.
Qed.

Lemma keeps_find (k : cache_key) (v : probe_value) others c :
  keeps k v others c -> cache_find k c = Some v.
Proof.
  intros (pre & suf & -> & _ & Hpre). apply cache_find_skip.
  intros H. now destruct (Hpre _ H).
Qed.

Lemma keeps_front (k : cache_key) (v : probe_value) others c :
  keeps k v others ((k, v) :: c).
Proof. exists [], c. repeat split; try constructor; simpl in *; tauto. Qed.

Lemma keeps_short (k : cache_key) others (pre : list (cache_key * probe_value)) :
  NoDup (map fst pre) ->
  (forall k', In k' (map fst pre) -> k' <> k /\ In k' others) ->
  List.length pre <= List.length (nodup key_dec others).
Proof.
  intros Hnd Hpre. rewrite <- (length_map fst pre).
  apply NoDup_incl_length; [exact Hnd|].
  intros k' H. apply nodup_In. now apply Hpre.
Qed.

(** One more probe, of [k] itself or of a key of [others], leaves the
    entry of [k] in the cache when [others] has fewer distinct keys than
    the cache has places. *)
Lemma keeps_step (w : world) (k : cache_key) (v : probe_value) others (st : state)
    (k' : cache_key) :
  List.length (nodup key_dec others) < maxsize ->
  k' = k \/ In k' others ->
  keeps k v others (cache st) ->
  keeps k v others (cache (snd (package_exists w (fst k') (snd k') st))).
Proof.
  intros Hsize Hk' Hkeep. destruct k' as [p m]. simpl fst; simpl snd.
  destruct (cache_find (p, m) (cache st)) as [v'|] eqn:Hfind.
  - rewrite (package_exists_hit _ _ _ _ _ Hfind). simpl.
    destruct (key_dec (p, m) k) as [Ek|Hne].
    + subst k. rewrite (keeps_find _ _ _ _ Hkeep) in Hfind. injection Hfind as <-.
      apply keeps_front.
    + destruct Hkeep as (pre & suf & E & Hnd & Hpre).
      exists (((p, m), v') :: cache_remove (p, m) pre), (cache_remove (p, m) suf).
      split; [|split].
      * rewrite E. unfold cache_remove. rewrite filter_app. simpl.
        destruct (key_eqb k (p, m)) eqn:Ek; [apply key_eqb_eq in Ek; congruence|].
        reflexivity.
      * simpl. constructor; [|now apply cache_remove_nodup].
        intros Hin. apply cache_remove_keys in Hin. tauto.
      * simpl. intros k0 [<-|Hin].
        -- split; [exact Hne|]. destruct Hk' as [?|?]; [congruence|assumption].
        -- apply cache_remove_keys in Hin as [Hin _]. now apply Hpre.
  - rewrite (package_exists_miss _ _ _ _ Hfind). cbv zeta.
    destruct (package_exists_on _ _ _) as [v'|e]; cbn [snd cache]; [|exact Hkeep].
    assert (Hne : (p, m) <> k).
    { intros Ek. subst k. rewrite (keeps_find _ _ _ _ Hkeep) in Hfind. discriminate. }
    destruct Hkeep as (pre & suf & E & Hnd & Hpre).
    assert (Hnd' : NoDup (map fst (((p, m), v') :: pre))).
    { simpl. constructor; [|exact Hnd]. intros Hin.
      apply (cache_find_none _ _ Hfind). rewrite E, map_app. apply in_or_app. now left. }
    assert (Hpre' : forall k0, In k0 (map fst (((p, m), v') :: pre)) ->
                               k0 <> k /\ In k0 others).
    { simpl. intros k0 [<-|Hin]; [|now apply Hpre].
      split; [exact Hne|]. destruct Hk' as [?|?]; [congruence|assumption]. }
    pose proof (keeps_short _ _ _ Hnd' Hpre') as Hlen.
    exists (((p, m), v') :: pre).
    exists (firstn (maxsize - S (List.length (((p, m), v') :: pre))) suf).
    split; [|split; assumption].
    rewrite E. change (((p, m), v') :: pre ++ (k, v) :: suf)
      with ((((p, m), v') :: pre) ++ (k, v) :: suf).
    unfold cache_key in *.
    rewrite firstn_app, firstn_all2 by lia.
    f_equal.
    replace (maxsize - List.length (((p, m), v') :: pre))
      with (S (maxsize - S (List.length (((p, m), v') :: pre)))) by lia.
    reflexivity.
Qed.

Lemma keeps_sequence (w : world) (k : cache_key) (v : probe_value) others
    (keys : list cache_key) :
  List.length (nodup key_dec others) < maxsize ->
  (forall k', In k' keys -> k' = k \/ In k' others) ->
  forall st, keeps k v others (cache st) ->
             keeps k v others (cache (probe_sequence w keys st)).
Proof.
  intros Hsize. induction keys as [|[p m] keys IH]; simpl; intros Hkeys st Hkeep.
  - exact Hkeep.
  - apply IH; [intros; apply Hkeys; now right|].
    apply (keeps_step w k v others st (p, m)); auto.
Qed.

Lemma other_keys_cover (k : cache_key) (keys : list cache_key) :
  forall k', In k' keys -> k' = k \/ In k' (other_keys k keys).
Proof.
  intros k' H. destruct (key_dec k' k) as [->|Hne]; [now left|right].
  apply filter_In. split; [exact H|]. now apply negb_true_iff, key_eqb_neq.
Qed.

(** After a probe that returns, its key is first in the cache. *)
Lemma package_exists_front (w : world) (package pkg_manager : string)
    (st st1 : state) (v : probe_value) :
  package_exists w package pkg_manager st = (Ok v, st1) ->
  exists rest, cache st1 = ((package, pkg_manager), v) :: rest.
Proof.
  unfold package_exists.
  destruct (cache_find _ _) as [v'|].
  - intros H. injection H as <- <-. simpl. eauto.
  - destruct (package_exists_body _ _ _ _) as [[v'|e] st'] eqn:Eb; [|discriminate].
    intros H. injection H as <- <-. simpl. eauto.
Qed.

(** C1 (counterexample).  The search for "git" with apt times out.  The
    probe returns [False], the value it returns for a package that is not
    in the catalogue, and stores it: the next probe of the same pair
    returns [False] again without launching the search that would now
    succeed. *)
Lemma probe_timeout_cached_as_not_found :
  let r1 := package_exists flaky_world "git" "apt" (initial_state []) in
  let r2 := package_exists flaky_world "git" "apt" (snd r1) in
  flaky_world 0 ["apt"; "search"; "git"] = TimedOut /\
  fst r1 = Ok (PBool false) /\
  fst r1 = package_exists_on "git" "apt" (Completed 0 EmptyString) /\
  cache_find ("git", "apt") (cache (snd r1)) = Some (PBool false) /\
  package_exists_on "git" "apt" (flaky_world 1 ["apt"; "search"; "git"]) = Ok (PBool true) /\
  fst r2 = Ok (PBool false) /\
  launched (snd r2) = [["apt"; "search"; "git"]].
Proof. vm_compute. repeat split. Qed.

(** C1 (as amended).  When the child process of a probe that is not
    answered from the cache times out or raises another
    [subprocess.SubprocessError], the probe returns [False], the value of
    NotFound, and memoizes it like any other result: the next probe of the
    same pair returns [False] from the cache without launching a process,
    whatever the host would answer. *)
Theorem probe_failure_memoized_as_not_found (w : world)
    (package pkg_manager : string) (st : state) :
  cache_find (package, pkg_manager) (cache st) = None ->
  w (List.length (launched st)) (search_command package pkg_manager) = TimedOut \/
  w (List.length (launched st)) (search_command package pkg_manager) = SubprocessFailed ->
  exists st1,
    package_exists w package pkg_manager st = (Ok (PBool false), st1) /\
    cache_find (package, pkg_manager) (cache st1) = Some (PBool false) /\
    forall w', exists st2,
      package_exists w' package pkg_manager st1 = (Ok (PBool false), st2) /\
      launched st2 = launched st1.
Proof.
  intros Hmiss Ho. rewrite (package_exists_miss _ _ _ _ Hmiss). cbv zeta.
  assert (E : package_exists_on package pkg_manager
                (w (List.length (launched st)) (search_command package pkg_manager))
              = Ok (PBool false)) by (destruct Ho as [-> | ->]; reflexivity).
  rewrite E. eexists. split; [reflexivity|].
  assert (F : cache_find (package, pkg_manager)
                (firstn maxsize (((package, pkg_manager), PBool false) :: cache st))
              = Some (PBool false)).
  { change maxsize with (S 127). simpl. now rewrite key_eqb_refl. }
  split; [exact F|]. intros w'.
  eexists. split; [apply package_exists_hit; exact F | reflexivity].
Qed.

Lemma probe_failure_memoized_as_not_found_witness :
  cache_find ("git", "apt") (cache (initial_state [])) = None /\
  (flaky_world 0 (search_command "git" "apt") = TimedOut \/
   flaky_world 0 (search_command "git" "apt") = SubprocessFailed) /\
  exists st1,
    package_exists flaky_world "git" "apt" (initial_state []) = (Ok (PBool false), st1) /\
    cache_find ("git", "apt") (cache st1) = Some (PBool false) /\
    forall w', exists st2,
      package_exists w' "git" "apt" st1 = (Ok (PBool false), st2) /\
      launched st2 = launched st1.
Proof.
  split; [reflexivity|]. split; [left; reflexivity|].
  apply (probe_failure_memoized_as_not_found flaky_world "git" "apt" (initial_state [])).
  - reflexivity.
  - left; reflexivity.
Defined.

(** A spawn failure escapes the probe and stores nothing. *)
Lemma probe_spawn_failure_not_memoized (w : world)
    (package pkg_manager : string) (st : state) :
  cache_find (package, pkg_manager) (cache st) = None ->
  w (List.length (launched st)) (search_command package pkg_manager) = SpawnFailed ->
  exists st1,
    package_exists w package pkg_manager st = (Raise OSError, st1) /\
    cache st1 = cache st.
Proof.
  intros Hmiss Ho. rewrite (package_exists_miss _ _ _ _ Hmiss). cbv zeta.
  rewrite Ho. simpl. eexists. split; reflexivity.
Qed.

(** C7 (counterexample).  One resolution request for "k", then 128 other
    names, then "k" again, with apt as the only backend, probes the pair
    ("k", apt) twice and launches its search twice: the 128 pairs probed in
    between fill the cache and push the first entry out. *)
Lemma probe_evicted_after_128_pairs :
  let request := ("k" :: many_names) ++ ["k"] in
  let run := select_repository empty_world request ["apt"] false (initial_state []) in
  fst run = Ok (None, []) /\
  count_occ string_dec request "k" = 2 /\
  count_launches ["apt"; "search"; "k"] (snd run) = 2 /\
  List.length (launched (snd run)) = 130.
Proof. vm_compute. repeat split. Qed.

(** C7 (as amended).  After a probe of a pair has returned, the pair is
    answered from the cache, with the same value and without a process, at
    every later point of the run up to which fewer than 128 distinct other
    pairs have been probed; the first probe itself launches one process
    when the pair is not cached and none when it is.  A memoized [False]
    that came from a timeout is answered from the cache like any other.
    Entries leave the cache by the 128-entry bound only, never by age. *)
Theorem probe_twice_launches_once (w : world) (package pkg_manager : string)
    (keys : list cache_key) (st st1 : state) (v : probe_value) :
  List.length (nodup key_dec (other_keys (package, pkg_manager) keys)) < maxsize ->
  package_exists w package pkg_manager st = (Ok v, st1) ->
  launched st1 =
    match cache_find (package, pkg_manager) (cache st) with
    | Some _ => launched st
    | None => launched st ++ [search_command package pkg_manager]
    end /\
  forall before after, keys = before ++ after ->
    exists st3,
      package_exists w package pkg_manager (probe_sequence w before st1) = (Ok v, st3) /\
      launched st3 = launched (probe_sequence w before st1).
Proof.
  intros Hsize Hfirst. split.
  - destruct (cache_find _ _) as [v'|] eqn:Hfind.
    + rewrite (package_exists_hit _ _ _ _ _ Hfind) in Hfirst. now injection Hfirst as _ <-.
    + rewrite (package_exists_miss _ _ _ _ Hfind) in Hfirst. cbv zeta in Hfirst.
      destruct (package_exists_on _ _ _); [|discriminate].
      now injection Hfirst as _ <-.
  - intros before after ->.
    destruct (package_exists_front _ _ _ _ _ _ Hfirst) as [rest Hrest].
    assert (Hkeep : keeps (package, pkg_manager) v
                      (other_keys (package, pkg_manager) (before ++ after))
                      (cache (probe_sequence w before st1))).
    { apply keeps_sequence; [exact Hsize| |rewrite Hrest; apply keeps_front].
      intros k' Hin. apply other_keys_cover, in_or_app. now left. }
    apply keeps_find in Hkeep.
    eexists. split; [apply package_exists_hit; exact Hkeep | reflexivity].
Qed.

Lemma probe_twice_launches_once_witness :
  let keys := [("vim", "apt"); ("git", "apt"); ("vim", "snap")] in
  let st := initial_state [] in
  let st1 := snd (package_exists git_world "git" "apt" st) in
  List.length (nodup key_dec (other_keys ("git", "apt") keys)) < maxsize /\
  package_exists git_world "git" "apt" st = (Ok (PBool true), st1) /\
  launched st1 =
    match cache_find ("git", "apt") (cache st) with
    | Some _ => launched st
    | None => launched st ++ [search_command "git" "apt"]
    end /\
  forall before after, keys = before ++ after ->
    exists st3,
      package_exists git_world "git" "apt" (probe_sequence git_world before st1)
        = (Ok (PBool true), st3) /\
      launched st3 = launched (probe_sequence git_world before st1).
Proof.
  intros keys st st1.
  assert (H1 : List.length (nodup key_dec (other_keys ("git", "apt") keys)) < maxsize)
    by (vm_compute; lia).
  assert (H2 : package_exists git_world "git" "apt" st = (Ok (PBool true), st1))
    by reflexivity.
  split; [exact H1|]. split; [exact H2|].
  exact (probe_twice_launches_once git_world "git" "apt" keys st st1 (PBool true) H1 H2).
Defined.

(** ** The command dispatcher *)

(** C3 (code defect).  Installing with apt: the flag "-S" stands for the
    verb "install", which the policy table lists for apt, yet the vector
    that is built and launched is [apt install git] without [sudo].  The
    table is consulted with the flag, and only the row of pacman is written
    with flags: over the eight backends and the five flags, [sudo] is
    prepended exactly for pacman, while the table marks the verb behind the
    flag for apt, dnf and zypper as well (all five), and for snap and
    flatpak install and remove. *)
Theorem apt_install_runs_without_sudo :
  literal_verb "-S" "apt" = Some "install" /\
  marked_privileged "-S" "apt" = true /\
  requires_sudo "-S" "apt" = false /\
  build_command "-S" "apt" ["git"] = Ok ["apt"; "install"; "git"] /\
  (forall w st, launched (snd (dispatch w "-S" "apt" ["git"] st))
                = launched st ++ [["apt"; "install"; "git"]]) /\
  forallb (fun b => forallb (fun v => Bool.eqb (requires_sudo v b) (b =? "pacman")%string)
                            elevated_verbs) backends = true /\
  forallb (fun b => forallb (fun v => marked_privileged v b) elevated_verbs)
          ["pacman"; "apt"; "dnf"; "zypper"] = true /\
  forallb (fun b => forallb (fun v => marked_privileged v b) ["-S"; "-R"])
          ["snap"; "flatpak"] = true.
Proof.
  repeat split; try reflexivity.
  intros w st. unfold dispatch, run_command, launch. simpl.
  now destruct (w _ _).
Qed.

(** ** Dictionaries *)

Section DictFacts.
Context {V : Type}.

Lemma get_set_same (d : Dict.t V) (k : string) (v : V) :
  Dict.get (Dict.set d k v) k = Some v.
Proof.
  induction d as [|[k' v'] d IH]; simpl.
  - now rewrite String.eqb_refl.
  - destruct (k' =? k)%string eqn:E; simpl; rewrite E; [reflexivity | exact IH].
Qed.

Lemma get_set_other (d : Dict.t V) (k k' : string) (v : V) :
  k <> k' -> Dict.get (Dict.set d k v) k' = Dict.get d k'.
Proof.
  intros Hne. induction d as [|[k0 v0] d IH]; simpl.
  - apply String.eqb_neq in Hne. now rewrite Hne.
  - destruct (k0 =? k)%string eqn:E; simpl.
    + apply String.eqb_eq in E. subst k0.
      apply String.eqb_neq in Hne. now rewrite Hne.
    + now rewrite IH.
Qed.

Lemma mem_set (d : Dict.t V) (k k' : string) (v : V) :
  Dict.mem (Dict.set d k v) k' = (k =? k')%string || Dict.mem d k'.
Proof.
  unfold Dict.mem. destruct (k =? k')%string eqn:E.
  - apply String.eqb_eq in E. subst k'. now rewrite get_set_same.
  - apply String.eqb_neq in E. now rewrite get_set_other.
Qed.

(** Storing under a key keeps the keys in place and puts a new key last. *)
Lemma keys_set (d : Dict.t V) (k : string) (v : V) :
  Dict.keys (Dict.set d k v) =
  if Dict.mem d k then Dict.keys d else Dict.keys d ++ [k].
Proof.
  unfold Dict.keys, Dict.mem. induction d as [|[k0 v0] d IH]; simpl; [reflexivity|].
  destruct (k0 =? k)%string eqn:E; simpl; [reflexivity|].
  rewrite IH. now destruct (Dict.get d k).
Qed.

Lemma mem_keys (d : Dict.t V) (k : string) :
  Dict.mem d k = true <-> In k (Dict.keys d).
Proof.
  unfold Dict.keys, Dict.mem. induction d as [|[k0 v0] d IH]; simpl.
  - split; [discriminate | tauto].
  - destruct (k0 =? k)%string eqn:E.
    + apply String.eqb_eq in E. split; auto.
    + apply String.eqb_neq in E. rewrite IH. split; [auto | intros [?|?]; [congruence|auto]].
Qed.
End DictFacts.

(** ** The repository resolver *)

Lemma check_packages_trace prober install_mode manager packages :
  forall acc st acc' st',
    check_packages prober install_mode manager packages acc st = (Ok acc', st') ->
    exists l,
      probes_of_manager prober manager packages st = (l, st') /\
      acc' = record_all install_mode l acc /\
      map fst l = map (fun package => (manager, package)) packages.
Proof.
  induction packages as [|package rest IH]; simpl; intros acc st acc' st' H.
  - injection H as <- <-. now exists [].
  - unfold bind in H. destruct (prober package manager st) as [[r|e] st1]; [|discriminate].
    destruct (IH _ _ _ _ H) as (l & Hl & Hacc & Hkeys).
    exists ((manager, package, r) :: l). rewrite Hl.
    split; [reflexivity|]. split; [exact Hacc|].
    simpl. now rewrite Hkeys.
Qed.

Lemma record_all_app install_mode l1 l2 acc :
  record_all install_mode (l1 ++ l2) acc =
  record_all install_mode l2 (record_all install_mode l1 acc).
Proof. unfold record_all. apply fold_left_app. Qed.

(** The scan is the fold of [record_result] over the probes it makes, and
    it probes every pair, backend by backend. *)
Lemma check_repositories_trace prober install_mode repo_order packages :
  forall acc st acc' st',
    check_repositories prober install_mode repo_order packages acc st = (Ok acc', st') ->
    acc' = record_all install_mode (probes_of_scan prober repo_order packages st) acc /\
    map fst (probes_of_scan prober repo_order packages st) = scan_pairs repo_order packages.
Proof.
  induction repo_order as [|manager rest IH]; simpl; intros acc st acc' st' H.
  - injection H as <- <-. now split.
  - unfold bind in H at 1. simpl in H. unfold bind in H at 1.
    destruct (check_packages _ _ _ _ _ _) as [[acc1|e] st1] eqn:E1; [|discriminate].
    destruct (check_packages_trace _ _ _ _ _ _ _ _ E1) as (l & Hl & Hacc & Hkeys).
    rewrite Hl. destruct (IH _ _ _ _ H) as [Hacc' Hkeys'].
    unfold probe_record in *.
    rewrite record_all_app, map_app, Hkeys, Hkeys', <- Hacc. now split.
Qed.

Lemma record_result_valid install_mode m p r acc m' :
  Dict.mem (valid_options (record_result install_mode m p r acc)) m' =
  Dict.mem (valid_options acc) m' || ((m =? m')%string && is_found r).
Proof.
  unfold record_result. destruct r as [[|]|s]; simpl.
  - rewrite mem_set. rewrite andb_true_r. apply orb_comm.
  - now rewrite andb_false_r, orb_false_r.
  - rewrite andb_false_r, orb_false_r.
    now destruct ((m =? "flatpak")%string && negb (s =? p)%string).
Qed.

Lemma record_all_valid install_mode trace :
  forall acc m,
    Dict.mem (valid_options (record_all install_mode trace acc)) m =
    Dict.mem (valid_options acc) m || found_by m trace.
Proof.
  induction trace as [|[[m0 p0] r0] trace IH]; intros acc m; simpl.
  - now rewrite orb_false_r.
  - unfold record_all in *. simpl. rewrite IH, record_result_valid.
    unfold record_manager, record_value. simpl. now rewrite orb_assoc.
Qed.

Lemma record_result_mismatches install_mode m p r acc :
  flatpak_mismatches (record_result install_mode m p r acc) =
  match r with
  | PStr s => if is_mismatch (m, p, r) then Dict.set (flatpak_mismatches acc) p s
              else flatpak_mismatches acc
  | PBool _ => flatpak_mismatches acc
  end.
Proof.
  unfold record_result, is_mismatch, record_value, record_manager, record_package.
  destruct r as [[|]|s]; simpl; try reflexivity.
  now destruct ((m =? "flatpak")%string && negb (s =? p)%string).
Qed.

(** Every entry of the mismatch map comes from a mismatch of the trace. *)
Lemma record_all_mismatch_get install_mode trace :
  forall acc p s,
    Dict.get (flatpak_mismatches (record_all install_mode trace acc)) p = Some s ->
    Dict.get (flatpak_mismatches acc) p = Some s \/
    In ("flatpak", p, PStr s) trace /\ s <> p.
Proof.
  induction trace as [|[[m0 p0] r0] trace IH]; intros acc p s H; simpl in *.
  - now left.
  - destruct (IH _ _ _ H) as [H1|[H1 H2]]; [|right; auto].
    rewrite record_result_mismatches in H1.
    unfold record_manager, record_package in H1. simpl fst in H1; simpl snd in H1.
    destruct r0 as [b|s0]; [now left|].
    destruct (is_mismatch _) eqn:Em; [|now left].
    destruct (String.eqb_spec p0 p) as [->|Hne].
    + rewrite get_set_same in H1. injection H1 as ->.
      unfold is_mismatch, record_value, record_manager, record_package in Em. simpl in Em.
      apply andb_true_iff in Em as [Em1 Em2].
      apply String.eqb_eq in Em1. apply negb_true_iff, String.eqb_neq in Em2.
      subst m0. right. auto.
    + rewrite get_set_other in H1 by exact Hne. now left.
Qed.

Lemma package_exists_quiet (w : world) : quiet (package_exists w).
Proof.
  intros package manager st. unfold package_exists, package_exists_body, launch.
  destruct (cache_find _ _); [reflexivity|].
  simpl. now destruct (package_exists_on _ _ _).
Qed.

Lemma check_packages_printed prober install_mode manager packages :
  quiet prober ->
  forall acc st,
    printed (snd (check_packages prober install_mode manager packages acc st)) = printed st.
Proof.
  intros Hq. induction packages as [|package rest IH]; intros acc st; simpl; [reflexivity|].
  unfold bind. specialize (Hq package manager st).
  destruct (prober package manager st) as [[r|e] st1]; simpl in *.
  - now rewrite IH.
  - exact Hq.
Qed.

Lemma check_repositories_printed prober install_mode repo_order packages :
  quiet prober ->
  forall acc st acc' st',
    check_repositories prober install_mode repo_order packages acc st = (Ok acc', st') ->
    printed st' = printed st ++ scan_events repo_order.
Proof.
  intros Hq. induction repo_order as [|manager rest IH]; simpl; intros acc st acc' st' H.
  - injection H as _ <-. now rewrite app_nil_r.
  - unfold bind in H at 1. simpl in H. unfold bind in H at 1.
    pose proof (check_packages_printed prober install_mode manager packages Hq acc
                  (mkState (cache st) (launched st)
                           (printed st ++ [EvProgress "Checking repository" manager])
                           (stdin st))) as Hp.
    destruct (check_packages _ _ _ _ _ _) as [[acc1|e] st1]; [|discriminate].
    simpl in Hp. rewrite (IH _ _ _ _ H), Hp, <- app_assoc. reflexivity.
Qed.

Lemma write_all_run (l : list event) :
  forall st, write_all l st
             = (Ok tt, mkState (cache st) (launched st) (printed st ++ l) (stdin st)).
Proof.
  induction l as [|e l IH]; intros st; simpl.
  - rewrite app_nil_r. now destruct st.
  - unfold bind, write. rewrite IH. simpl. now rewrite <- app_assoc.
Qed.

Lemma announce_mismatches_run install_mode acc st :
  announce_mismatches install_mode acc st
  = (Ok tt, mkState (cache st) (launched st)
                    (printed st ++ mismatch_events install_mode acc) (stdin st)).
Proof.
  unfold announce_mismatches, mismatch_events.
  destruct (flatpak_mismatches acc) as [|e m]; destruct install_mode;
    unfold ret; rewrite ?app_nil_r; try (now destruct st).
  unfold bind, write. rewrite write_all_run. simpl. now rewrite <- app_assoc.
Qed.

(** The prompt loop writes prompt events only, and a backend it returns
    is one of the options, with the names the mode asks for. *)
Lemma choose_run options packages available install_mode inputs :
  forall st,
    exists evs,
      printed (snd (choose options packages available install_mode inputs st))
        = printed st ++ evs /\
      Forall (fun e => prompt_event e = true) evs /\
      forall m l,
        fst (choose options packages available install_mode inputs st) = Ok (Some m, l) ->
        In m options /\ l = if install_mode then available else packages.
Proof.
  induction inputs as [|i rest IH]; intros st.
  - exists [EvPrompt (List.length options + 1)]. simpl.
    split; [reflexivity|]. split; [repeat constructor | discriminate].
  - destruct i as [typed|].
    + cbn -[Nat.leb Nat.eqb isdigit int_of PyStr.strip nth_error Nat.add Nat.sub].
      destruct (isdigit (PyStr.strip typed)).
      * destruct (int_of (PyStr.strip typed)) as [n|e].
        -- destruct ((1 <=? n) && (n <=? List.length options)).
           ++ destruct (nth_error options (n - 1)) as [sel|] eqn:En.
              ** exists [EvPrompt (List.length options + 1); EvProgress "Selecting" sel].
                 simpl. rewrite <- ?app_assoc.
                 split; [reflexivity|]. split; [repeat constructor|].
                 intros m l H. injection H as <- <-.
                 split; [eapply nth_error_In; eauto | reflexivity].
              ** exists [EvPrompt (List.length options + 1)]. simpl.
                 split; [reflexivity|]. split; [repeat constructor | discriminate].
           ++ destruct (n =? List.length options + 1).
              ** exists [EvPrompt (List.length options + 1)]. simpl.
                 split; [reflexivity|]. split; [repeat constructor | discriminate].
              ** match goal with |- context [choose _ _ _ _ rest ?s] =>
                   destruct (IH s) as (evs & Hp & Hf & Hr) end.
                 exists (EvPrompt (List.length options + 1) :: evs).
                 split; [rewrite Hp; simpl; now rewrite <- ?app_assoc|].
                 split; [constructor; auto | exact Hr].
        -- exists [EvPrompt (List.length options + 1)]. simpl.
           split; [reflexivity|]. split; [repeat constructor | discriminate].
      * unfold bind, write. cbn [cache launched printed stdin].
        match goal with |- context [choose _ _ _ _ rest ?s] =>
          destruct (IH s) as (evs & Hp & Hf & Hr) end.
        exists (EvPrompt (List.length options + 1) :: EvInvalidInput :: evs).
        split; [rewrite Hp; simpl; now rewrite <- ?app_assoc|].
        split; [repeat constructor; auto | exact Hr].
    + exists [EvPrompt (List.length options + 1); EvCanceled]. simpl.
      rewrite <- ?app_assoc.
      split; [reflexivity|]. split; [repeat constructor | discriminate].
Qed.

(** What a resolution request writes and returns, once its scan is done. *)
Lemma select_repository_with_run prober packages managers install_mode st acc st1 :
  quiet prober ->
  check_repositories prober install_mode managers packages empty_scan st = (Ok acc, st1) ->
  let run := select_repository_with prober packages managers install_mode st in
  exists evs,
    printed (snd run) =
      printed st ++ scan_events managers ++ mismatch_events install_mode acc
        ++ match valid_options acc with
           | [] => [EvNoRepositories packages]
           | _ => menu_events packages (options_of managers acc) ++ evs
           end /\
    Forall (fun e => prompt_event e = true) evs /\
    forall m l, fst run = Ok (Some m, l) ->
                In m (options_of managers acc) /\
                l = if install_mode then available_packages acc else packages.
Proof.
  intros Hq Hscan run. subst run. unfold select_repository_with, bind.
  rewrite Hscan, announce_mismatches_run.
  rewrite (check_repositories_printed _ _ _ _ Hq _ _ _ _ Hscan).
  destruct (valid_options acc) as [|o os] eqn:Ev.
  - exists []. unfold write, ret. simpl. rewrite <- !app_assoc.
    split; [reflexivity|]. split; [apply Forall_nil | discriminate].
  - unfold write. rewrite write_all_run. cbn [cache launched printed stdin].
    match goal with |- context [choose ?o ?p ?a ?i ?inp ?s] =>
      destruct (choose_run o p a i inp s) as (evs & Hp & Hf & Hr) end.
    exists evs. split; [|split; [exact Hf | exact Hr]].
    rewrite Hp. cbn [printed]. unfold menu_events.
    rewrite <- !app_assoc. cbn [app]. rewrite <- ?app_assoc. reflexivity.
Qed.

Lemma cache_find_in (k : cache_key) (c : list (cache_key * probe_value)) (v : probe_value) :
  cache_find k c = Some v -> exists k', In (k', v) c.
Proof.
  induction c as [|[k' v'] c IH]; simpl; [discriminate|].
  destruct (key_eqb k' k).
  - intros H. injection H as ->. exists k'. now left.
  - intros H. destruct (IH H) as [k0 Hin]. exists k0. now right.
Qed.

Lemma package_exists_bool (w : world) (package pkg_manager : string) (st : state) :
  bool_cache (cache st) ->
  bool_cache (cache (snd (package_exists w package pkg_manager st))) /\
  forall v, fst (package_exists w package pkg_manager st) = Ok v -> exists b, v = PBool b.
Proof.
  intros Hc. destruct (cache_find (package, pkg_manager) (cache st)) as [v|] eqn:Hfind.
  - rewrite (package_exists_hit _ _ _ _ _ Hfind). simpl.
    destruct (cache_find_in _ _ _ Hfind) as [k' Hin].
    assert (Hv : exists b, v = PBool b).
    { unfold bool_cache in Hc. rewrite Forall_forall in Hc. exact (Hc _ Hin). }
    split.
    + constructor; [exact Hv|]. unfold cache_remove.
      apply Forall_forall. intros e He. apply filter_In in He as [He _].
      unfold bool_cache in Hc. rewrite Forall_forall in Hc. now apply Hc.
    + intros v0 H. now injection H as <-.
  - rewrite (package_exists_miss _ _ _ _ Hfind). cbv zeta.
    destruct (package_exists_on _ _ _) as [v|e] eqn:Eon; cbn [fst snd cache].
    + destruct (package_exists_on_bool _ _ _ _ Eon) as [b ->]. split.
      * assert (Hall : bool_cache (((package, pkg_manager), PBool b) :: cache st))
          by (constructor; [now exists b | exact Hc]).
        unfold bool_cache in *.
        rewrite <- (firstn_skipn maxsize) in Hall. now apply Forall_app in Hall.
      * intros v0 H. injection H as <-. now exists b.
    + split; [exact Hc | discriminate].
Qed.

Lemma probes_of_manager_bool (w : world) (manager : string) (packages : list string) :
  forall st,
    bool_cache (cache st) ->
    bool_cache (cache (snd (probes_of_manager (package_exists w) manager packages st))) /\
    Forall (fun t => exists b, record_value t = PBool b)
           (fst (probes_of_manager (package_exists w) manager packages st)).
Proof.
  induction packages as [|package rest IH]; intros st Hc; simpl.
  - split; [exact Hc | constructor].
  - destruct (package_exists_bool w package manager st Hc) as [Hc' Hv].
    destruct (package_exists w package manager st) as [[r|e] st1]; simpl in *.
    + destruct (IH st1 Hc') as [Hc'' Hall].
      destruct (probes_of_manager _ _ _ st1) as [l st2]. simpl in *.
      split; [exact Hc''|]. constructor; [|exact Hall]. now apply Hv.
    + split; [exact Hc' | constructor].
Qed.

Lemma probes_of_scan_bool (w : world) (repo_order packages : list string) :
  forall st,
    bool_cache (cache st) ->
    Forall (fun t => exists b, record_value t = PBool b)
           (probes_of_scan (package_exists w) repo_order packages st).
Proof.
  induction repo_order as [|manager rest IH]; intros st Hc; simpl; [constructor|].
  match goal with |- context [probes_of_manager _ _ _ ?s] =>
    destruct (probes_of_manager_bool w manager packages s Hc) as [Hc' Hall];
    destruct (probes_of_manager (package_exists w) manager packages s) as [l st1]
  end.
  simpl in *. apply Forall_app. split; [exact Hall | now apply IH].
Qed.

Lemma found_by_covers (m : string) (trace : list probe_record) :
  Forall (fun t => exists b, record_value t = PBool b) trace ->
  found_by m trace = covers m trace.
Proof.
  induction 1 as [|t trace [b Hb] _ IH]; simpl; [reflexivity|].
  rewrite IH, Hb. now destruct b.
Qed.


(** C9.  In a resolution request, started with a cache that holds what the
    prober computes, in which some backend covers some requested name: the
    numbered options that are written, and among which the backend that is
    returned is chosen, are the backends in detection order restricted to
    those whose coverage set is not empty. *)
Theorem resolver_options_in_detection_order (w : world)
    (packages managers : list string) (install_mode : bool) (st st1 : state) (acc : scan) :
  bool_cache (cache st) ->
  check_repositories (package_exists w) install_mode managers packages empty_scan st
    = (Ok acc, st1) ->
  let trace := probes_of_scan (package_exists w) managers packages st in
  let options := filter (fun m => covers m trace) managers in
  let run := select_repository w packages managers install_mode st in
  options <> [] ->
  (exists evs,
     printed (snd run) =
       printed st ++ scan_events managers ++ menu_events packages options ++ evs /\
     Forall (fun e => prompt_event e = true) evs) /\
  forall m l, fst run = Ok (Some m, l) -> In m options.
Proof.
  intros Hc Hscan trace options run Hne.
  destruct (check_repositories_trace _ _ _ _ _ _ _ _ Hscan) as [Hacc _].
  fold trace in Hacc.
  pose proof (probes_of_scan_bool w managers packages st Hc) as Hbool. fold trace in Hbool.
  assert (Hopt : options_of managers acc = options).
  { unfold options_of, options. apply filter_ext. intros m.
    rewrite Hacc, record_all_valid, <- found_by_covers by exact Hbool. reflexivity. }
  assert (Hmis : flatpak_mismatches acc = []).
  { destruct (flatpak_mismatches acc) as [|[p s] rest] eqn:E; [reflexivity|].
    assert (Hget : Dict.get (flatpak_mismatches acc) p = Some s)
      by (rewrite E; simpl; now rewrite String.eqb_refl).
    rewrite Hacc in Hget.
    destruct (record_all_mismatch_get _ _ _ _ _ Hget) as [H|[H _]]; [discriminate H|].
    rewrite Forall_forall in Hbool. destruct (Hbool _ H) as [b Hb]. discriminate Hb. }
  assert (Hval : valid_options acc <> []).
  { destruct options as [|m ms] eqn:Eo; [congruence|].
    assert (Hin : In m (options_of managers acc)) by (rewrite Hopt; now left).
    unfold options_of in Hin. apply filter_In in Hin as [_ Hmem].
    intros Hnil. rewrite Hnil in Hmem. discriminate Hmem. }
  destruct (select_repository_with_run _ _ _ _ _ _ _ (package_exists_quiet w) Hscan)
    as (evs & Hp & Hf & Hr).
  fold (select_repository w packages managers install_mode st) in Hp, Hr. fold run in Hp, Hr.
  rewrite Hopt in Hp, Hr. split.
  - exists evs. split; [|exact Hf]. rewrite Hp.
    unfold mismatch_events. rewrite Hmis.
    destruct (valid_options acc); [congruence|]. now destruct install_mode.
  - intros m l H. now apply Hr in H.
Qed.

Lemma resolver_options_in_detection_order_witness :
  let w := two_backend_world in
  let st := initial_state [Line "2"] in
  let scan := check_repositories (package_exists w) false ["snap"; "apt"] ["curl"; "git"]
                empty_scan st in
  let trace := probes_of_scan (package_exists w) ["snap"; "apt"] ["curl"; "git"] st in
  let options := filter (fun m => covers m trace) ["snap"; "apt"] in
  let run := select_repository w ["curl"; "git"] ["snap"; "apt"] false st in
  bool_cache (cache st) /\
  scan = (Ok (mkScan [("snap", true); ("apt", true)] [] []), snd scan) /\
  options = ["snap"; "apt"] /\
  fst run = Ok (Some "apt", ["curl"; "git"]) /\
  In "apt" options.
Proof.
  intros w st scan trace options run.
  assert (Hc : bool_cache (cache st)) by constructor.
  assert (Hs : scan = (Ok (mkScan [("snap", true); ("apt", true)] [] []), snd scan))
    by reflexivity.
  assert (Hr : fst run = Ok (Some "apt", ["curl"; "git"])) by reflexivity.
  assert (Ho : options = ["snap"; "apt"]) by reflexivity.
  split; [exact Hc|]. split; [exact Hs|]. split; [exact Ho|]. split; [exact Hr|].
  assert (Hne : options <> []) by (rewrite Ho; discriminate).
  exact (proj2 (resolver_options_in_detection_order w ["curl"; "git"] ["snap"; "apt"] false
                  st (snd scan) _ Hc Hs Hne) "apt" ["curl"; "git"] Hr).
Defined.

(** ** The comparison engine *)

Lemma mem_string_in (x : string) (l : list string) : mem_string x l = true <-> In x l.
Proof.
  unfold mem_string. rewrite existsb_exists. split.
  - intros (y & Hin & E). apply String.eqb_eq in E. now subst.
  - intros H. exists x. split; [exact H | apply String.eqb_refl].
Qed.

Lemma mem_keys_string {V : Type} (d : Dict.t V) (k : string) :
  Dict.mem d k = mem_string k (Dict.keys d).
Proof.
  destruct (Dict.mem d k) eqn:E; symmetry.
  - apply mem_string_in, mem_keys, E.
  - destruct (mem_string k (Dict.keys d)) eqn:F; [|reflexivity].
    apply mem_string_in, mem_keys in F. congruence.
Qed.

Lemma keys_set_add {V : Type} (d : Dict.t V) (k : string) (v : V) :
  Dict.keys (Dict.set d k v) = add_key (Dict.keys d) k.
Proof. unfold add_key. now rewrite keys_set, mem_keys_string. Qed.

Lemma add_keys_in (ms : list string) :
  forall ks x, In x (add_keys ks ms) <-> In x ks \/ In x ms.
Proof.
  induction ms as [|m ms IH]; intros ks x; simpl; [tauto|].
  unfold add_keys in *. simpl. rewrite IH. unfold add_key.
  destruct (mem_string m ks) eqn:E.
  - apply mem_string_in in E. split; [tauto|]. intros [H|[H|H]]; subst; auto.
  - rewrite in_app_iff. simpl. tauto.
Qed.

Lemma add_keys_nodup (ms : list string) :
  forall ks, NoDup ks -> NoDup (add_keys ks ms).
Proof.
  induction ms as [|m ms IH]; intros ks H; simpl; [exact H|].
  apply IH. unfold add_key. destruct (mem_string m ks) eqn:E; [exact H|].
  apply NoDup_app; [exact H | repeat constructor; simpl; tauto |].
  intros x Hx [<-|[]]. apply mem_string_in in Hx. congruence.
Qed.

Lemma add_keys_absorb (ms : list string) :
  forall ks, (forall x, In x ms -> In x ks) -> add_keys ks ms = ks.
Proof.
  induction ms as [|m ms IH]; intros ks H; simpl; [reflexivity|].
  unfold add_key. rewrite (proj2 (mem_string_in m ks)) by (apply H; now left).
  apply IH. intros x Hx. apply H. now right.
Qed.

Lemma add_keys_fresh (ms : list string) :
  forall ks, NoDup ms -> (forall x, In x ms -> ~ In x ks) -> add_keys ks ms = ks ++ ms.
Proof.
  induction ms as [|m ms IH]; intros ks Hnd H; simpl; [now rewrite app_nil_r|].
  inversion Hnd as [|? ? Hnin Hnd']; subst.
  unfold add_key. destruct (mem_string m ks) eqn:E.
  - apply mem_string_in in E. exfalso. apply (H m); [now left | exact E].
  - rewrite IH; [now rewrite <- app_assoc | exact Hnd' |].
    intros x Hx Hin. apply in_app_iff in Hin as [Hin|[<-|[]]]; [|contradiction].
    apply (H x); [now right | exact Hin].
Qed.

Lemma add_keys_app (a b ks : list string) :
  add_keys ks (a ++ b) = add_keys (add_keys ks a) b.
Proof. apply fold_left_app. Qed.

(** A task that ends without an exception has stored one cell. *)
Lemma fetch_stores (w : world) (cd cd' : comparison_data) (manager package : string)
    (st st' : state) :
  fetch_package_info w cd manager package st = (Ok cd', st') ->
  exists table record,
    Dict.get cd package = Some table /\
    cd' = Dict.set cd package (Dict.set table manager record).
Proof.
  assert (Hstore : forall r s, lift (store cd package manager r) s = (Ok cd', st') ->
                               exists table record,
                                 Dict.get cd package = Some table /\
                                 cd' = Dict.set cd package (Dict.set table manager record)).
  { intros r s. unfold store, lift. destruct (Dict.get cd package) as [table|]; [|discriminate].
    intros H. injection H as <- _. eauto. }
  unfold fetch_package_info, bind.
  destruct (package_exists w package manager st) as [[v|e] st1]; [|discriminate].
  destruct (negb (truthy v)); [apply Hstore|].
  destruct (Dict.get dep_commands manager) as [argv|]; [|discriminate].
  destruct (launch w _ st1) as [o st2]. unfold store_details.
  destruct o as [rc out| | |]; try discriminate; [|apply Hstore].
  destruct (parse_lines _ _ _) as [parsed|e]; [apply Hstore | discriminate].
Qed.

Lemma table_of_set (cd : comparison_data) (package p : string) (t : Dict.t info) :
  table_of (Dict.set cd package t) p =
  if (package =? p)%string then t else table_of cd p.
Proof.
  unfold table_of, Dict.get_default. destruct (String.eqb_spec package p) as [->|Hne].
  - now rewrite get_set_same.
  - now rewrite get_set_other.
Qed.

(** The rows of a table are in the order in which the tasks of its
    package stored their cells. *)
Lemma run_tasks_keys (w : world) (p : string) (schedule : list (string * string)) :
  forall cd st,
    Dict.keys (table_of (fst (run_tasks w schedule cd st)) p) =
    add_keys (Dict.keys (table_of cd p)) (managers_for p (stored_tasks w schedule cd st)).
Proof.
  induction schedule as [|[manager package] rest IH]; intros cd st; simpl; [reflexivity|].
  destruct (fetch_package_info w cd manager package st) as [[cd'|e] st'] eqn:Ef.
  - rewrite IH. destruct (fetch_stores _ _ _ _ _ _ _ Ef) as (table & record & Hg & ->).
    unfold managers_for. simpl. rewrite table_of_set.
    destruct (String.eqb_spec package p) as [->|Hne]; simpl.
    + rewrite keys_set_add. unfold table_of, Dict.get_default. now rewrite Hg.
    + reflexivity.
  - apply IH.
Qed.

Lemma stored_tasks_in (w : world) (schedule : list (string * string)) :
  forall cd st t, In t (stored_tasks w schedule cd st) -> In t schedule.
Proof.
  induction schedule as [|[manager package] rest IH]; intros cd st t; simpl; [tauto|].
  destruct (fetch_package_info w cd manager package st) as [[cd'|e] st'].
  - intros [<-|H]; [now left | right; eauto].
  - intros H. right. eauto.
Qed.

Lemma empty_data_tables (packages : list string) (p : string) :
  table_of (empty_data packages) p = [].
Proof.
  unfold empty_data.
  assert (H : forall cd : comparison_data,
             (forall q, table_of cd q = []) ->
             forall q, table_of (fold_left (fun cd pkg => Dict.set cd pkg []) packages cd) q = []).
  { induction packages as [|a l IH]; intros cd Hcd q; simpl; [apply Hcd|].
    apply IH. intros q'. rewrite table_of_set. destruct (a =? q')%string; [reflexivity|apply Hcd]. }
  apply H. reflexivity.
Qed.

Lemma in_tasks (packages managers : list string) (m p : string) :
  In (m, p) (tasks packages managers) <-> In m managers /\ In p packages.
Proof.
  unfold tasks. rewrite in_flat_map. split.
  - intros (q & Hq & Hin). apply in_map_iff in Hin as (m' & E & Hm).
    injection E as -> ->. auto.
  - intros [Hm Hp]. exists p. split; [exact Hp|]. apply in_map_iff. now exists m.
Qed.

Lemma in_managers_for (p m : string) (l : list (string * string)) :
  In m (managers_for p l) <-> In (m, p) l.
Proof.
  unfold managers_for. rewrite in_map_iff. split.
  - intros ([m' q] & E & Hin). apply filter_In in Hin as [Hin Hq]. simpl in *.
    apply String.eqb_eq in Hq. now subst.
  - intros H. exists (m, p). split; [reflexivity|].
    apply filter_In. split; [exact H | apply String.eqb_refl].
Qed.

(** Submitted in order, the tasks of a requested package name the
    backends in detection order, once for each time the package is named. *)
Lemma managers_for_tasks (p : string) (packages managers : list string) :
  In p packages -> NoDup managers ->
  first_occurrences (managers_for p (tasks packages managers)) = managers.
Proof.
  intros Hin Hnd. unfold first_occurrences.
  assert (Hblock : forall q, managers_for p (map (fun manager => (manager, q)) managers)
                             = if (q =? p)%string then managers else []).
  { intros q. unfold managers_for. clear Hnd. induction managers as [|m ms IH]; simpl.
    - now destruct (q =? p)%string.
    - destruct (q =? p)%string; simpl; now rewrite IH. }
  assert (Hsub : forall l x, In x (managers_for p (tasks l managers)) -> In x managers).
  { intros l x Hx. apply in_managers_for, in_tasks in Hx. tauto. }
  induction packages as [|q ps IH]; [contradiction|].
  change (tasks (q :: ps) managers)
    with (map (fun manager => (manager, q)) managers ++ tasks ps managers).
  unfold managers_for in *. rewrite filter_app, map_app, add_keys_app.
  rewrite Hblock. destruct (String.eqb_spec q p) as [->|Hne].
  - rewrite (add_keys_fresh managers []) by (auto; intros x _ []).
    simpl. apply add_keys_absorb. intros x Hx. exact (Hsub ps x Hx).
  - simpl. apply IH. destruct Hin as [E|H]; [congruence|exact H].
Qed.

(** C4 (counterexample).  Comparing "big-pkg" across dnf and apt, in that
    detection order, when the query of apt completes first: the table lists
    apt before dnf.  And comparing "p" across flatpak and apt when flatpak
    cannot be started: the task of flatpak dies with its exception and the
    table has the row of apt only. *)
Lemma rows_in_completion_order :
  let schedule := [("apt", "big-pkg"); ("dnf", "big-pkg")] in
  let cd := fst (run_tasks big_pkg_world schedule (empty_data ["big-pkg"]) (initial_state [])) in
  let cd' := fst (run_tasks no_flatpak_world (tasks ["p"] ["flatpak"; "apt"])
                    (empty_data ["p"]) (initial_state [])) in
  Permutation schedule (tasks ["big-pkg"] ["dnf"; "apt"]) /\
  Dict.keys (table_of cd "big-pkg") = ["apt"; "dnf"] /\
  map row_manager (map render_row (table_of cd "big-pkg")) = ["apt"; "dnf"] /\
  table_of cd' "p" = [("apt", [("Error", "Not found")])].
Proof.
  split; [apply perm_swap|]. vm_compute. repeat split.
Qed.

(** A backend that lacks the package stores the "Not found" record. *)
Lemma fetch_not_found (w : world) (cd : comparison_data) (manager package : string)
    (st st1 : state) (v : probe_value) (table : Dict.t info) :
  package_exists w package manager st = (Ok v, st1) ->
  truthy v = false ->
  Dict.get cd package = Some table ->
  fetch_package_info w cd manager package st =
  (Ok (Dict.set cd package (Dict.set table manager [("Error", "Not found")])), st1).
Proof.
  intros Hp Hv Hg. unfold fetch_package_info, bind, store, lift.
  now rewrite Hp, Hv, Hg.
Qed.

(** C4 (as amended).  In each package's comparison table the rows are the
    backends whose query task ended without an exception, each once, in the
    order in which these tasks stored their results (a task of a backend
    that lacks the package stores the "Not found" record).  When every task
    stores its result there is exactly one row per backend passed to
    compare, and when moreover the tasks complete in the order they were
    submitted the rows are in detection order. *)
Theorem comparison_rows_follow_completion (w : world) (packages managers : list string)
    (schedule : list (string * string)) (st : state) (p : string) :
  Permutation schedule (tasks packages managers) ->
  In p packages ->
  NoDup managers ->
  let cd := fst (run_tasks w schedule (empty_data packages) st) in
  let done := stored_tasks w schedule (empty_data packages) st in
  let rows := Dict.keys (table_of cd p) in
  rows = first_occurrences (managers_for p done) /\
  NoDup rows /\
  incl rows managers /\
  (forall m, In m rows <-> In (m, p) done) /\
  (done = schedule ->
   Permutation rows managers /\ List.length rows = List.length managers) /\
  (done = schedule -> schedule = tasks packages managers -> rows = managers) /\
  (forall cd0 st0 st1 m v table,
     package_exists w p m st0 = (Ok v, st1) -> truthy v = false ->
     Dict.get cd0 p = Some table ->
     fetch_package_info w cd0 m p st0 =
     (Ok (Dict.set cd0 p (Dict.set table m [("Error", "Not found")])), st1)).
Proof.
  intros Hperm Hp Hnd cd done rows.
  assert (Hrows : rows = first_occurrences (managers_for p done)).
  { unfold rows, cd, done, first_occurrences.
    now rewrite run_tasks_keys, empty_data_tables. }
  assert (Hin : forall m, In m rows <-> In (m, p) done).
  { intros m. rewrite Hrows. unfold first_occurrences.
    rewrite add_keys_in, in_managers_for. simpl. tauto. }
  assert (Hnodup : NoDup rows).
  { rewrite Hrows. apply add_keys_nodup. constructor. }
  assert (Hsched : forall m, In (m, p) schedule <-> In m managers).
  { intros m. split.
    - intros H. apply (Permutation_in _ Hperm), in_tasks in H. tauto.
    - intros H. apply (Permutation_in _ (Permutation_sym Hperm)), in_tasks. auto. }
  split; [exact Hrows|]. split; [exact Hnodup|]. split; [|split; [exact Hin|]].
  - intros m Hm. apply Hin in Hm. apply stored_tasks_in in Hm. now apply Hsched.
  - split; [|split].
    + intros Hall.
      assert (Hp' : Permutation rows managers).
      { apply NoDup_Permutation; [exact Hnodup | exact Hnd|].
        intros m. rewrite Hin, Hall. apply Hsched. }
      split; [exact Hp' | now apply Permutation_length].
    + intros Hall Hseq. rewrite Hrows, Hall, Hseq. now apply managers_for_tasks.
    + intros cd0 st0 st1 m v table. apply fetch_not_found.
Qed.

Lemma comparison_rows_follow_completion_witness :
  let schedule := [("apt", "big-pkg"); ("dnf", "big-pkg")] in
  let cd := fst (run_tasks big_pkg_world schedule (empty_data ["big-pkg"]) (initial_state [])) in
  let done := stored_tasks big_pkg_world schedule (empty_data ["big-pkg"]) (initial_state []) in
  Permutation schedule (tasks ["big-pkg"] ["dnf"; "apt"]) /\
  In "big-pkg" ["big-pkg"] /\
  NoDup ["dnf"; "apt"] /\
  done = schedule /\
  Dict.keys (table_of cd "big-pkg") = first_occurrences (managers_for "big-pkg" done) /\
  Permutation (Dict.keys (table_of cd "big-pkg")) ["dnf"; "apt"].
Proof.
  intros schedule cd done.
  assert (H1 : Permutation schedule (tasks ["big-pkg"] ["dnf"; "apt"])) by apply perm_swap.
  assert (H2 : In "big-pkg" ["big-pkg"]) by (left; reflexivity).
  assert (H3 : NoDup ["dnf"; "apt"]).
  { constructor; [simpl; intros [H|[]]; discriminate H|].
    constructor; [simpl; tauto | constructor]. }
  assert (H4 : done = schedule) by reflexivity.
  destruct (comparison_rows_follow_completion big_pkg_world ["big-pkg"] ["dnf"; "apt"]
              schedule (initial_state []) "big-pkg" H1 H2 H3)
    as (Hrows & _ & _ & _ & Hall & _).
  split; [exact H1|]. split; [exact H2|]. split; [exact H3|]. split; [exact H4|].
  split; [exact Hrows | exact (proj1 (Hall H4))].
Defined.

(** *** Isolation of a timed-out cell *)

(** The argument vector of a detail query starts with the backend's name. *)
Lemma dep_commands_head (m : string) (argv : list string) :
  Dict.get dep_commands m = Some argv -> exists verb, argv = [m; verb].
Proof.
  unfold dep_commands. cbn [Dict.get].
  repeat match goal with
         | |- context [(?k =? m)%string] =>
             destruct (String.eqb_spec k m) as [<-|_];
             [intros H; injection H as <-; eauto|]
         end.
  discriminate.
Qed.

(** A search is never a detail query. *)
Lemma search_not_detail (m package pkg_manager : string) :
  ~ detail_of m (search_command package pkg_manager).
Proof.
  intros (argv & x & Hg & E).
  assert (Hverb : exists a b, argv = [a; b] /\
                              (b = "-Si" \/ b = "show" \/ b = "info")%string).
  { revert Hg. unfold dep_commands. cbn [Dict.get].
    repeat match goal with
           | |- context [(?k =? m)%string] =>
               destruct (k =? m)%string; [intros H; injection H as <-; eauto 8|]
           end.
    discriminate. }
  destruct Hverb as (a & b & -> & Hb). revert E.
  unfold search_command, Dict.get_default, search_commands. cbn [Dict.get].
  repeat match goal with
         | |- context [(?k =? pkg_manager)%string] =>
             destruct (k =? pkg_manager)%string;
             [cbn [app]; intros E; injection E as _ E _; subst b;
              destruct Hb as [Hb|[Hb|Hb]]; discriminate Hb|]
         end.
  discriminate.
Qed.

Lemma without_row_set_same (m : string) (t : Dict.t info) (r : info) :
  without_row m (Dict.set t m r) = without_row m t.
Proof.
  unfold without_row. induction t as [|[k v] t IH]; simpl.
  - now rewrite String.eqb_refl.
  - destruct (k =? m)%string eqn:E; simpl; rewrite E; simpl; [reflexivity | now rewrite IH].
Qed.

Lemma without_row_set_other (m m' : string) (t : Dict.t info) (r : info) :
  m' <> m -> without_row m (Dict.set t m' r) = Dict.set (without_row m t) m' r.
Proof.
  intros Hne. unfold without_row. induction t as [|[k v] t IH]; simpl.
  - apply String.eqb_neq in Hne. now rewrite Hne.
  - destruct (String.eqb_spec k m') as [->|Hk]; simpl.
    + apply String.eqb_neq in Hne. rewrite Hne. simpl. now rewrite String.eqb_refl.
    + destruct (k =? m)%string eqn:E; simpl; [exact IH|].
      apply String.eqb_neq in Hk. now rewrite Hk, IH.
Qed.

Lemma get_without_row (m m' : string) (t : Dict.t info) :
  m' <> m -> Dict.get (without_row m t) m' = Dict.get t m'.
Proof.
  intros Hne. unfold without_row. induction t as [|[k v] t IH]; simpl; [reflexivity|].
  destruct (String.eqb_spec k m) as [->|Hk]; simpl.
  - apply not_eq_sym, String.eqb_neq in Hne. now rewrite Hne.
  - now rewrite IH.
Qed.

Lemma set_present {V : Type} (d : Dict.t V) (k : string) (v : V) :
  Dict.get d k = Some v -> Dict.set d k v = d.
Proof.
  induction d as [|[k' v'] d IH]; simpl; [discriminate|].
  destruct (k' =? k)%string.
  - intros H. now injection H as ->.
  - intros H. now rewrite IH.
Qed.

(** The detail query of a pair is a detail query of its backend. *)
Lemma detail_query_of (m p : string) (c : list string) :
  detail_query m p c -> detail_of m c.
Proof. intros (argv & Hg & E). now exists argv, p. Qed.

(** The detail queries of two pairs are the same only for the same pair. *)
Lemma detail_query_pair (m p manager package : string) (argv : list string) :
  Dict.get dep_commands manager = Some argv ->
  detail_query m p (argv ++ [package]) -> manager = m /\ package = p.
Proof.
  intros Hg (argv' & Hg' & E).
  destruct (dep_commands_head _ _ Hg) as [verb ->].
  destruct (dep_commands_head _ _ Hg') as [verb' ->].
  simpl in E. injection E as E1 _ E3. auto.
Qed.

Lemma package_exists_agree_cell (w1 w2 : world) (m p package pkg_manager : string)
    (st : state) :
  (forall n c, ~ detail_query m p c -> w1 n c = w2 n c) ->
  package_exists w1 package pkg_manager st = package_exists w2 package pkg_manager st.
Proof.
  intros Hw. unfold package_exists, package_exists_body, launch.
  rewrite (Hw _ (search_command package pkg_manager)); [reflexivity|].
  intros H. exact (search_not_detail m package pkg_manager (detail_query_of _ _ _ H)).
Qed.

Lemma similar_cell_refl (p m : string) (cd : comparison_data) : similar_cell p m cd cd.
Proof.
  induction cd as [|e cd IH]; constructor; [|exact IH].
  split; [reflexivity|]. now destruct (fst e =? p)%string.
Qed.

Lemma similar_cell_get (p m : string) (cd1 cd2 : comparison_data) (k : string) :
  similar_cell p m cd1 cd2 ->
  match Dict.get cd1 k, Dict.get cd2 k with
  | Some t1, Some t2 =>
      if (k =? p)%string then without_row m t1 = without_row m t2 else t1 = t2
  | None, None => True
  | _, _ => False
  end.
Proof.
  induction 1 as [|[k1 t1] [k2 t2] l1 l2 [Hk Ht] _ IH]; simpl in *; [exact I|].
  subst k2. destruct (String.eqb_spec k1 k) as [->|_]; [exact Ht | exact IH].
Qed.

Lemma similar_cell_set (p m : string) (cd1 cd2 : comparison_data) (k : string)
    (t1 t2 : Dict.t info) :
  similar_cell p m cd1 cd2 ->
  (if (k =? p)%string then without_row m t1 = without_row m t2 else t1 = t2) ->
  similar_cell p m (Dict.set cd1 k t1) (Dict.set cd2 k t2).
Proof.
  intros H Ht. induction H as [|[k1 u1] [k2 u2] l1 l2 [Hk Hu] Hl IH]; simpl in *.
  - constructor; [auto | constructor].
  - subst k2. destruct (String.eqb_spec k1 k) as [->|_]; constructor; auto.
Qed.

(** Storing the same record in the same cell of both. *)
Lemma store_similar_cell (p m : string) (cd1 cd2 : comparison_data)
    (package manager : string) (r : info) :
  similar_cell p m cd1 cd2 ->
  similar_cell p m (after (store cd1 package manager r) cd1)
                   (after (store cd2 package manager r) cd2).
Proof.
  intros H. unfold store. pose proof (similar_cell_get p m cd1 cd2 package H) as Hg.
  destruct (Dict.get cd1 package) as [t1|], (Dict.get cd2 package) as [t2|];
    try contradiction; simpl; [|exact H].
  apply similar_cell_set; [exact H|].
  destruct (package =? p)%string; [|now rewrite Hg].
  destruct (String.eqb_spec manager m) as [->|Hne].
  - now rewrite !without_row_set_same.
  - rewrite !without_row_set_other by exact Hne. now rewrite Hg.
Qed.

(** Storing records in the cell of [p] and [m], in both or in one only. *)
Lemma store_similar_cell_own (p m : string) (cd1 cd2 : comparison_data) (r1 r2 : info) :
  similar_cell p m cd1 cd2 ->
  similar_cell p m (after (store cd1 p m r1) cd1) (after (store cd2 p m r2) cd2) /\
  similar_cell p m (after (store cd1 p m r1) cd1) cd2 /\
  similar_cell p m cd1 (after (store cd2 p m r2) cd2).
Proof.
  intros H. unfold store. pose proof (similar_cell_get p m cd1 cd2 p H) as Hg.
  rewrite String.eqb_refl in Hg.
  destruct (Dict.get cd1 p) as [t1|] eqn:E1, (Dict.get cd2 p) as [t2|] eqn:E2;
    try contradiction; simpl; [|auto].
  assert (Hset : forall u1 u2, without_row m u1 = without_row m u2 ->
                               similar_cell p m (Dict.set cd1 p u1) (Dict.set cd2 p u2)).
  { intros u1 u2 Hu. apply similar_cell_set; [exact H|]. now rewrite String.eqb_refl. }
  split; [|split].
  - apply Hset. now rewrite !without_row_set_same.
  - rewrite <- (set_present cd2 p t2 E2) at 1. apply Hset. now rewrite without_row_set_same.
  - rewrite <- (set_present cd1 p t1 E1) at 1. apply Hset. now rewrite without_row_set_same.
Qed.

(** A task changes the cache only by its probe. *)
Lemma fetch_cache (w : world) (cd : comparison_data) (manager package : string) (st : state) :
  cache (snd (fetch_package_info w cd manager package st))
  = cache (snd (package_exists w package manager st)).
Proof.
  unfold fetch_package_info, bind.
  destruct (package_exists w package manager st) as [[v|e] st1]; [|reflexivity].
  assert (Hlift : forall r s, snd (lift (store cd package manager r) s) = s).
  { intros r s. now destruct (store cd package manager r). }
  cbn [snd]. destruct (negb (truthy v)); [now rewrite Hlift|].
  destruct (Dict.get dep_commands manager) as [argv|]; [|reflexivity].
  unfold launch, store_details, raise.
  destruct (w _ _) as [rc out| | |]; try reflexivity.
  - destruct (parse_lines _ _ _); [now rewrite Hlift | reflexivity].
  - now rewrite Hlift.
Qed.

(** One task on two hosts that differ in the detail query of the pair
    ([p], [m]) only: the same processes are launched, and the data stay
    the same but for the cell of that pair. *)
Lemma fetch_similar_cell (w1 w2 : world) (m p : string) (cd1 cd2 : comparison_data)
    (manager package : string) (st : state) :
  (forall n c, ~ detail_query m p c -> w1 n c = w2 n c) ->
  bool_cache (cache st) ->
  similar_cell p m cd1 cd2 ->
  snd (fetch_package_info w1 cd1 manager package st)
    = snd (fetch_package_info w2 cd2 manager package st) /\
  similar_cell p m (after (fst (fetch_package_info w1 cd1 manager package st)) cd1)
                   (after (fst (fetch_package_info w2 cd2 manager package st)) cd2).
Proof.
  intros Hw Hc Hsim. unfold fetch_package_info, bind.
  rewrite (package_exists_agree_cell w1 w2 m p package manager st Hw).
  destruct (package_exists_bool w2 package manager st Hc) as [_ Hv].
  destruct (package_exists w2 package manager st) as [[v|e] st1]; [|now split].
  destruct (Hv v eq_refl) as [b ->]. clear Hv.
  assert (Hlift : forall r s,
             snd (lift (store cd1 package manager r) s)
               = snd (lift (store cd2 package manager r) s) /\
             similar_cell p m (after (fst (lift (store cd1 package manager r) s)) cd1)
                              (after (fst (lift (store cd2 package manager r) s)) cd2)).
  { intros r s. pose proof (store_similar_cell p m cd1 cd2 package manager r Hsim) as H.
    destruct (store cd1 package manager r), (store cd2 package manager r); now split. }
  destruct (negb (truthy (PBool b))); [apply Hlift|].
  destruct (Dict.get dep_commands manager) as [argv|] eqn:Hg; [|now split].
  unfold launch. cbn [detail_name].
  set (st2 := mkState (cache st1) (launched st1 ++ [argv ++ [package]]) (printed st1)
                      (stdin st1)).
  set (n := List.length (launched st1)).
  assert (Hcell : (manager = m /\ package = p) \/ ~ detail_query m p (argv ++ [package])).
  { destruct (String.eqb_spec manager m) as [->|Hne];
      [destruct (String.eqb_spec package p) as [->|Hne]|]; auto;
      right; intros H; destruct (detail_query_pair _ _ _ _ _ Hg H); congruence. }
  destruct Hcell as [[-> ->]|Hother].
  - (* the task of the pair: each host stores some record in the cell or raises *)
    assert (Hside : forall (cd : comparison_data) (o : run_outcome),
               (exists r, store_details cd m p o st2 = lift (store cd p m r) st2) \/
               (exists e, store_details cd m p o st2 = (Raise e, st2))).
    { intros cd o. unfold store_details, raise. destruct o as [rc out| | |]; eauto.
      destruct (parse_lines _ _ _); eauto. }
    assert (Hstate : forall cd r, snd (lift (store cd p m r) st2) = st2).
    { intros cd r. now destruct (store cd p m r). }
    destruct (Hside cd1 (w1 n (argv ++ [p]))) as [[r1 E1]|[e1 E1]],
             (Hside cd2 (w2 n (argv ++ [p]))) as [[r2 E2]|[e2 E2]];
      rewrite E1, E2; clear E1 E2; rewrite ?Hstate; (split; [reflexivity|]);
      try (destruct (store_similar_cell_own p m cd1 cd2 r1 r2 Hsim) as (H1 & H2 & H3));
      try (destruct (store_similar_cell_own p m cd1 cd2 r1 r1 Hsim) as (H1 & H2 & H3));
      try (destruct (store_similar_cell_own p m cd1 cd2 r2 r2 Hsim) as (H1 & H2 & H3)).
    + now destruct (store cd1 p m r1), (store cd2 p m r2).
    + now destruct (store cd1 p m r1).
    + now destruct (store cd2 p m r2).
    + exact Hsim.
  - (* another pair: both hosts answer the same *)
    rewrite (Hw n _ Hother).
    unfold store_details, raise.
    destruct (w2 n (argv ++ [package])) as [rc out| | |]; try now split.
    + destruct (parse_lines _ _ _); [|now split]. apply Hlift.
    + apply Hlift.
Qed.

Lemma run_tasks_similar_cell (w1 w2 : world) (m p : string)
    (schedule : list (string * string)) :
  (forall n c, ~ detail_query m p c -> w1 n c = w2 n c) ->
  forall cd1 cd2 st,
    bool_cache (cache st) ->
    similar_cell p m cd1 cd2 ->
    snd (run_tasks w1 schedule cd1 st) = snd (run_tasks w2 schedule cd2 st) /\
    similar_cell p m (fst (run_tasks w1 schedule cd1 st)) (fst (run_tasks w2 schedule cd2 st)).
Proof.
  intros Hw. induction schedule as [|[manager package] rest IH]; intros cd1 cd2 st Hc Hsim.
  - now split.
  - simpl.
    destruct (fetch_similar_cell w1 w2 m p cd1 cd2 manager package st Hw Hc Hsim)
      as [Hst Hcd].
    assert (Hc' : bool_cache (cache (snd (fetch_package_info w1 cd1 manager package st)))).
    { rewrite fetch_cache. now apply package_exists_bool. }
    destruct (fetch_package_info w1 cd1 manager package st) as [r1 s1].
    destruct (fetch_package_info w2 cd2 manager package st) as [r2 s2].
    simpl in Hst, Hcd, Hc'. subst s2.
    destruct r1 as [c1|e1], r2 as [c2|e2]; simpl in Hcd; now apply IH.
Qed.

Lemma similar_cell_tables (p m : string) (cd1 cd2 : comparison_data) :
  similar_cell p m cd1 cd2 ->
  without_row m (table_of cd1 p) = without_row m (table_of cd2 p) /\
  forall p', p' <> p -> table_of cd1 p' = table_of cd2 p'.
Proof.
  intros H. split.
  - pose proof (similar_cell_get p m cd1 cd2 p H) as Hg. rewrite String.eqb_refl in Hg.
    unfold table_of, Dict.get_default.
    destruct (Dict.get cd1 p), (Dict.get cd2 p); try contradiction; auto.
  - intros p' Hne. pose proof (similar_cell_get p m cd1 cd2 p' H) as Hg.
    apply String.eqb_neq in Hne. rewrite Hne in Hg.
    unfold table_of, Dict.get_default.
    destruct (Dict.get cd1 p'), (Dict.get cd2 p'); try contradiction; auto.
Qed.

(** A detail query that times out stores the "Timeout" record. *)
Lemma fetch_timeout (w : world) (cd : comparison_data) (manager package : string)
    (st st1 : state) (v : probe_value) (argv : list string) (table : Dict.t info) :
  package_exists w package manager st = (Ok v, st1) ->
  truthy v = true ->
  Dict.get dep_commands manager = Some argv ->
  w (List.length (launched st1)) (argv ++ [detail_name v manager package]) = TimedOut ->
  Dict.get cd package = Some table ->
  fst (fetch_package_info w cd manager package st) =
  Ok (Dict.set cd package (Dict.set table manager [("Error", "Timeout")])).
Proof.
  intros Hp Hv Hg Ho Hc. unfold fetch_package_info, bind, launch.
  rewrite Hp, Hv, Hg. cbn [negb]. rewrite Ho.
  unfold store_details, store, lift. now rewrite Hc.
Qed.

(** C8.  A detail query that runs out of its time budget stores the record
    {Error: "Timeout"} in its own cell.  Whether the detail query of one
    (name, backend) pair times out or answers changes nothing but that
    cell, from a state in which the cache holds what the prober computes:
    the same processes are launched; the table of every other package is
    the same, the cells of the same backend included, and is rendered the
    same; and the table of the package itself keeps, the row of that
    backend apart, the same rows with the same cells in the same order,
    rendered the same. *)
Theorem timeout_cell_is_isolated (w1 w2 : world) (m p : string)
    (schedule : list (string * string)) (cd : comparison_data) (st : state) :
  (forall n c, ~ detail_query m p c -> w1 n c = w2 n c) ->
  bool_cache (cache st) ->
  let run1 := run_tasks w1 schedule cd st in
  let run2 := run_tasks w2 schedule cd st in
  (forall cd0 st0 st1 package v argv table,
     package_exists w1 package m st0 = (Ok v, st1) ->
     truthy v = true ->
     Dict.get dep_commands m = Some argv ->
     w1 (List.length (launched st1)) (argv ++ [detail_name v m package]) = TimedOut ->
     Dict.get cd0 package = Some table ->
     fst (fetch_package_info w1 cd0 m package st0) =
     Ok (Dict.set cd0 package (Dict.set table m [("Error", "Timeout")]))) /\
  snd run1 = snd run2 /\
  (forall p', p' <> p -> table_of (fst run1) p' = table_of (fst run2) p') /\
  without_row m (table_of (fst run1) p) = without_row m (table_of (fst run2) p) /\
  (forall p' m', p' <> p \/ m' <> m ->
     Dict.get (table_of (fst run1) p') m' = Dict.get (table_of (fst run2) p') m') /\
  (forall p', p' <> p ->
     render_table p' (table_of (fst run1) p') = render_table p' (table_of (fst run2) p')) /\
  map render_row (without_row m (table_of (fst run1) p))
  = map render_row (without_row m (table_of (fst run2) p)).
Proof.
  intros Hw Hc run1 run2.
  destruct (run_tasks_similar_cell w1 w2 m p schedule Hw cd cd st Hc (similar_cell_refl p m cd))
    as [Hst Hsim].
  fold run1 run2 in Hst, Hsim.
  destruct (similar_cell_tables p m _ _ Hsim) as [Hrow Htab].
  split; [|split; [exact Hst | split; [exact Htab | split; [exact Hrow | split; [|split]]]]].
  - intros cd0 st0 st1 package v argv table. apply fetch_timeout.
  - intros p' m' Hne. destruct (String.eqb_spec p' p) as [->|Hp]; [|now rewrite Htab].
    destruct Hne as [Hne|Hne]; [congruence|].
    rewrite <- (get_without_row m m' _ Hne), Hrow. now apply get_without_row.
  - intros p' Hne. now rewrite Htab.
  - now rewrite Hrow.
Qed.

Lemma timeout_cell_is_isolated_witness :
  let schedule := tasks ["big-pkg"; "small-pkg"] ["dnf"; "apt"] in
  let cd := empty_data ["big-pkg"; "small-pkg"] in
  let run1 := run_tasks two_pkg_world schedule cd (initial_state []) in
  let run2 := run_tasks two_pkg_world_in_time schedule cd (initial_state []) in
  (forall n c, ~ detail_query "dnf" "big-pkg" c ->
               two_pkg_world n c = two_pkg_world_in_time n c) /\
  bool_cache (cache (initial_state [])) /\
  table_of (fst run1) "big-pkg" =
    [ ("dnf", [("Error", "Timeout")]); ("apt", [("Version", "1.2-3")]) ] /\
  Dict.get (table_of (fst run2) "big-pkg") "dnf" = Some [("Version", "1.2")] /\
  Dict.get (table_of (fst run1) "small-pkg") "dnf" = Some [("Version", "2.0")] /\
  Dict.get (table_of (fst run1) "small-pkg") "dnf"
    = Dict.get (table_of (fst run2) "small-pkg") "dnf" /\
  Dict.get (table_of (fst run1) "big-pkg") "apt"
    = Dict.get (table_of (fst run2) "big-pkg") "apt".
Proof.
  intros schedule cd run1 run2.
  assert (Hw : forall n c, ~ detail_query "dnf" "big-pkg" c ->
                           two_pkg_world n c = two_pkg_world_in_time n c).
  { intros n c H. unfold two_pkg_world_in_time.
    destruct c as [|a [|b [|x [|y l]]]]; try reflexivity.
    destruct ((a =? "dnf")%string && (b =? "info")%string && (x =? "big-pkg")%string) eqn:E;
      [|reflexivity].
    exfalso. apply H. apply andb_true_iff in E as [E Ex]. apply andb_true_iff in E as [Ea Eb].
    apply String.eqb_eq in Ea, Eb, Ex. subst a b x.
    exists ["dnf"; "info"]. split; reflexivity. }
  assert (Hc : bool_cache (cache (initial_state []))).
  { constructor. }
  split; [exact Hw|]. split; [exact Hc|].
  split; [vm_compute; reflexivity|]. split; [vm_compute; reflexivity|].
  split; [vm_compute; reflexivity|].
  destruct (timeout_cell_is_isolated two_pkg_world two_pkg_world_in_time "dnf" "big-pkg"
              schedule cd (initial_state []) Hw Hc) as (_ & _ & _ & _ & Hcell & _).
  split.
  - apply (Hcell "small-pkg" "dnf"). left. discriminate.
  - apply (Hcell "big-pkg" "apt"). right. discriminate.
Defined.

(** * Further properties of the program *)

(** ** The probe cache keeps its bound *)

Lemma cache_remove_shorter (k : cache_key) (c : list (cache_key * probe_value))
    (v : probe_value) :
  cache_find k c = Some v -> List.length (cache_remove k c) < List.length c.
Proof.
  induction c as [|[k' v'] c IH]; simpl; [discriminate|].
  destruct (key_eqb k' k); simpl.
  - intros _. unfold cache_remove. pose proof (filter_length_le
      (fun e : cache_key * probe_value => negb (key_eqb (fst e) k)) c). lia.
  - intros H. specialize (IH H). lia.
Qed.

Lemma nodup_firstn {A : Type} (n : nat) (l : list A) : NoDup l -> NoDup (firstn n l).
Proof.
  intros H. rewrite <- (firstn_skipn n l) in H. now apply NoDup_app_remove_r in H.
Qed.

Lemma package_exists_cache_ok (w : world) (package pkg_manager : string) (st : state) :
  cache_ok (cache st) ->
  cache_ok (cache (snd (package_exists w package pkg_manager st))).
Proof.
  intros [Hnd Hlen].
  destruct (cache_find (package, pkg_manager) (cache st)) as [v|] eqn:Hfind.
  - rewrite (package_exists_hit _ _ _ _ _ Hfind). cbn [snd cache set_cache]. split.
    + simpl. constructor; [|now apply cache_remove_nodup].
      intros Hin. apply cache_remove_keys in Hin. tauto.
    + simpl. pose proof (cache_remove_shorter _ _ _ Hfind). lia.
  - rewrite (package_exists_miss _ _ _ _ Hfind). cbv zeta.
    destruct (package_exists_on _ _ _) as [v|e]; cbn [snd cache]; [|now split].
    split.
    + rewrite <- firstn_map. apply nodup_firstn. simpl.
      constructor; [now apply cache_find_none | exact Hnd].
    + apply firstn_le_length.
Qed.

(** X1.  From the start of a run and through any sequence of probes, the
    cache never holds two entries for one (name, backend) pair and never
    more than 128 entries. *)
Theorem cache_stays_bounded (w : world) (keys : list cache_key) (inputs : list user_input) :
  let c := cache (probe_sequence w keys (initial_state inputs)) in
  NoDup (map fst c) /\ List.length c <= 128.
Proof.
  assert (H : forall st, cache_ok (cache st) -> cache_ok (cache (probe_sequence w keys st))).
  { induction keys as [|[p m] keys IH]; intros st Hok; simpl; [exact Hok|].
    apply IH. now apply package_exists_cache_ok. }
  apply (H (initial_state inputs)). split; [constructor | simpl; unfold maxsize; lia].
Qed.

(** ** Parsing the detail output *)

Lemma split_from_acc (acc s : string) :
  acc <> EmptyString -> PyStr.split_from acc s <> [].
Proof.
  revert acc. induction s as [|c t IH]; intros acc Hacc; simpl.
  - destruct acc; [congruence | discriminate].
  - destruct (PyStr.is_space c).
    + destruct acc; [congruence | discriminate].
    + apply IH. unfold PyStr.snoc. destruct acc; discriminate.
Qed.

Lemma lstrip_head (s : string) :
  PyStr.lstrip s = EmptyString \/
  exists c t, PyStr.lstrip s = String c t /\ PyStr.is_space c = false.
Proof.
  induction s as [|c t IH]; simpl; [now left|].
  destruct (PyStr.is_space c) eqn:E; [exact IH | right; eauto].
Qed.

Lemma rstrip_head (c : ascii) (t : string) :
  PyStr.is_space c = false -> exists t', PyStr.rstrip (String c t) = String c t'.
Proof.
  intros E. simpl. rewrite E. destruct (PyStr.rstrip t); eauto.
Qed.

(** A stripped line is empty or starts with a character that is no space. *)
Lemma strip_head (s : string) :
  PyStr.strip s = EmptyString \/
  exists c t, PyStr.strip s = String c t /\ PyStr.is_space c = false.
Proof.
  unfold PyStr.strip. destruct (lstrip_head s) as [->|(c & t & -> & E)]; [now left|].
  right. destruct (rstrip_head c t E) as [t' ->]. eauto.
Qed.

Lemma split_stripped (s : string) :
  PyStr.strip s <> EmptyString -> PyStr.split (PyStr.strip s) <> [].
Proof.
  intros Hne. destruct (strip_head s) as [H|(c & t & -> & E)]; [congruence|].
  unfold PyStr.split. simpl. rewrite E. apply split_from_acc. discriminate.
Qed.

Lemma parse_other_line_ok (raw : string) (i : info) :
  PyStr.strip raw <> EmptyString ->
  exists i', parse_other_line (PyStr.strip raw) i = Ok i'.
Proof.
  intros Hne. unfold parse_other_line, value_or_last.
  pose proof (split_stripped raw Hne) as Hs.
  assert (Hrev : rev (PyStr.split (PyStr.strip raw)) <> []).
  { intros H. apply Hs. apply (f_equal (@rev string)) in H. now rewrite rev_involutive in H. }
  destruct (rev (PyStr.split (PyStr.strip raw))) as [|last l]; [congruence|].
  destruct (PyStr.contains "Version" _ || PyStr.contains "version" _).
  - destruct (PyStr.contains ":" _); eauto.
  - destruct (PyStr.contains "Size" _ || PyStr.contains "Installed-Size" _).
    + destruct (PyStr.contains ":" _); eauto.
    + destruct (PyStr.contains "Description" _); [eauto|].
      destruct (PyStr.contains "Depends" _); eauto.
Qed.

Lemma parse_snap_line_raise (line : string) (i : info) (e : exn) :
  parse_snap_line line i = Raise e -> e = IndexError.
Proof.
  unfold parse_snap_line.
  repeat match goal with
         | |- context [if ?b then _ else _] => destruct b; try discriminate
         | |- context [match PyStr.split ?x with _ => _ end] =>
             destruct (PyStr.split x); try discriminate
         end.
  now intros H; injection H as <-.
Qed.

(** X2.  Parsing the detail output raises only for snap, and then an
    [IndexError] (from a size line without a value): the output of every
    other backend is parsed to a record whatever it contains. *)
Theorem parse_raises_for_snap_only (manager : string) (lines : list string)
    (i : info) (e : exn) :
  parse_lines manager lines i = Raise e ->
  manager = "snap" /\ e = IndexError.
Proof.
  revert i. induction lines as [|raw rest IH]; intros i; simpl; [discriminate|].
  destruct (String.eqb_spec (PyStr.strip raw) "") as [_|Hne]; [apply IH|].
  destruct (String.eqb_spec manager "snap") as [->|Hm].
  - destruct (parse_snap_line (PyStr.strip raw) i) as [i'|e'] eqn:E; [apply IH|].
    intros H. injection H as <-. split; [reflexivity|].
    exact (parse_snap_line_raise _ _ _ E).
  - destruct (parse_other_line_ok raw i Hne) as [i' ->]. apply IH.
Qed.

Lemma parse_raises_for_snap_only_witness :
  parse_lines "snap" ["name: hello"; "size:"] [] = Raise IndexError /\
  "snap" = "snap" /\ IndexError = IndexError.
Proof.
  assert (H : parse_lines "snap" ["name: hello"; "size:"] [] = Raise IndexError)
    by reflexivity.
  split; [exact H|].
  exact (parse_raises_for_snap_only "snap" ["name: hello"; "size:"] [] IndexError H).
Defined.

Lemma keys_set_in {V : Type} (d : Dict.t V) (k k' : string) (v : V) :
  In k (Dict.keys (Dict.set d k' v)) -> k = k' \/ In k (Dict.keys d).
Proof.
  rewrite keys_set. destruct (Dict.mem d k'); [now right|].
  rewrite in_app_iff. simpl. intros [H|[H|[]]]; auto.
Qed.

Lemma fields_only_set (i : info) (k v : string) :
  In k field_names -> fields_only i -> fields_only (Dict.set i k v).
Proof.
  intros Hk Hi k0 H. apply keys_set_in in H as [->|H]; auto.
Qed.

Lemma parse_lines_fields (manager : string) (lines : list string) :
  forall i i', fields_only i -> parse_lines manager lines i = Ok i' -> fields_only i'.
Proof.
  induction lines as [|raw rest IH]; intros i i' Hi; simpl.
  - intros H. now injection H as <-.
  - destruct (PyStr.strip raw =? "")%string; [now apply IH|].
    destruct (manager =? "snap")%string.
    + destruct (parse_snap_line (PyStr.strip raw) i) as [i1|e] eqn:E; [|discriminate].
      apply IH. revert E. unfold parse_snap_line.
      repeat match goal with
             | |- context [if ?b then _ else _] => destruct b
             | |- context [match PyStr.split ?x with _ => _ end] => destruct (PyStr.split x)
             end;
        intros E; try discriminate; injection E as <-;
        try exact Hi; apply fields_only_set; try exact Hi; simpl; tauto.
    + destruct (parse_other_line (PyStr.strip raw) i) as [i1|e] eqn:E; [|discriminate].
      apply IH. revert E. unfold parse_other_line.
      repeat match goal with
             | |- context [if ?b then _ else _] => destruct b
             | |- context [match value_or_last ?x with _ => _ end] =>
                 destruct (value_or_last x)
             end;
        intros E; try discriminate; injection E as <-;
        try exact Hi; apply fields_only_set; try exact Hi; simpl; tauto.
Qed.

(** X3.  A task that ends without an exception has stored, in the cell of
    its package and backend, one of the three error records or a record
    made of some of the five fields; the "Error" key never stands beside
    parsed fields. *)
Theorem stored_record_is_well_formed (w : world) (cd cd' : comparison_data)
    (manager package : string) (st st' : state) :
  fetch_package_info w cd manager package st = (Ok cd', st') ->
  exists table record,
    Dict.get cd package = Some table /\
    cd' = Dict.set cd package (Dict.set table manager record) /\
    well_formed_record record.
Proof.
  assert (Hstore : forall r s, well_formed_record r ->
                               lift (store cd package manager r) s = (Ok cd', st') ->
                               exists table record,
                                 Dict.get cd package = Some table /\
                                 cd' = Dict.set cd package (Dict.set table manager record) /\
                                 well_formed_record record).
  { intros r s Hr. unfold store, lift. destruct (Dict.get cd package) as [table|]; [|discriminate].
    intros H. injection H as <- _. eauto. }
  unfold fetch_package_info, bind.
  destruct (package_exists w package manager st) as [[v|e] st1]; [|discriminate].
  destruct (negb (truthy v)); [apply Hstore; now left|].
  destruct (Dict.get dep_commands manager) as [argv|]; [|discriminate].
  destruct (launch w _ st1) as [o st2]. unfold store_details.
  destruct o as [rc out| | |]; try discriminate.
  - destruct (parse_lines _ _ _) as [parsed|e] eqn:E; [|discriminate].
    apply Hstore. destruct parsed as [|x parsed'].
    + right; right; left. reflexivity.
    + right; right; right. split; [discriminate|].
      apply (parse_lines_fields _ _ [] _ (fun k H => match H with end) E).
  - apply Hstore. right; left. reflexivity.
Qed.

Lemma stored_record_is_well_formed_witness :
  let run := fetch_package_info big_pkg_world (empty_data ["big-pkg"]) "apt" "big-pkg"
               (initial_state []) in
  exists cd', run = (Ok cd', snd run) /\
  exists table record,
    Dict.get (empty_data ["big-pkg"]) "big-pkg" = Some table /\
    cd' = Dict.set (empty_data ["big-pkg"]) "big-pkg" (Dict.set table "apt" record) /\
    well_formed_record record.
Proof.
  intros run.
  exists [("big-pkg", [("apt", [("Version", "1.2-3"); ("Size", "4,096 kB")])])].
  assert (H : run = (Ok [("big-pkg", [("apt", [("Version", "1.2-3"); ("Size", "4,096 kB")])])],
                     snd run)) by reflexivity.
  split; [exact H|].
  exact (stored_record_is_well_formed big_pkg_world _ _ "apt" "big-pkg" _ _ H).
Defined.

(** ** The comparison table *)

Lemma max_list_upper (l : list nat) (x : nat) : In x l -> x <= max_list l.
Proof.
  induction l as [|y l IH]; simpl; [tauto|].
  intros [->|H]; [lia | specialize (IH H); lia].
Qed.

Lemma max_list_bound (l : list nat) (b : nat) :
  (forall x, In x l -> x <= b) -> max_list l <= b.
Proof.
  induction l as [|y l IH]; simpl; intros H; [lia|].
  assert (y <= b) by (apply H; now left).
  assert (max_list l <= b) by (apply IH; intros; apply H; now right). lia.
Qed.

Lemma column_bounds (f : string * info -> string) (table : Dict.t info) (h : nat) :
  h <= 22 ->
  let width := max_list (map (fun e => Nat.min (String.length (f e)) 22) table ++ [h]) in
  h <= width /\ width <= 22 /\
  forall e, In e table -> Nat.min (String.length (f e)) 22 <= width.
Proof.
  intros Hh width. split; [|split].
  - apply max_list_upper, in_or_app. right. now left.
  - apply max_list_bound. intros x Hx. apply in_app_iff in Hx as [Hx|[<-|[]]]; [|exact Hh].
    apply in_map_iff in Hx as (e & <- & _). lia.
  - intros e He. apply max_list_upper, in_or_app. left.
    apply in_map_iff. now exists e.
Qed.

Lemma length_truncate_text_default (s : string) :
  String.length (truncate_text_default s) = Nat.min (String.length s) 22.
Proof.
  unfold truncate_text_default, truncate_text.
  destruct (String.length s <=? 22) eqn:E.
  - apply Nat.leb_le in E. lia.
  - apply Nat.leb_gt in E. rewrite length_append, length_take.
    change (String.length "...") with 3. lia.
Qed.

(** X4.  In every comparison table each column is at least as wide as its
    header and at most 22 wide, and every printed cell of the version,
    size, description and dependencies columns fits its column; the
    backend name, which is printed without truncation, fits when it has at
    most 22 characters. *)
Theorem cells_fit_their_columns (table : Dict.t info) :
  exists w_repo w_version w_size w_desc w_deps,
    column_widths table = [w_repo; w_version; w_size; w_desc; w_deps] /\
    (10 <= w_repo <= 22 /\ 7 <= w_version <= 22 /\ 4 <= w_size <= 22 /\
     11 <= w_desc <= 22 /\ 12 <= w_deps <= 22) /\
    forall e, In e table ->
      Nat.min (String.length (row_manager (render_row e))) 22 <= w_repo /\
      String.length (row_version (render_row e)) <= w_version /\
      String.length (row_size (render_row e)) <= w_size /\
      String.length (row_desc (render_row e)) <= w_desc /\
      String.length (row_deps (render_row e)) <= w_deps.
Proof.
  unfold column_widths. do 5 eexists. split; [reflexivity|].
  pose proof (column_bounds fst table 10 ltac:(lia)) as (A1 & A2 & A3).
  pose proof (column_bounds (fun e => field (snd e) "Version" "N/A") table 7 ltac:(lia))
    as (B1 & B2 & B3).
  pose proof (column_bounds (fun e => field (snd e) "Size" "N/A") table 4 ltac:(lia))
    as (C1 & C2 & C3).
  pose proof (column_bounds (fun e => field (snd e) "Description" "No description") table 11
                ltac:(lia)) as (D1 & D2 & D3).
  pose proof (column_bounds (fun e => field (snd e) "Dependencies" "None") table 12
                ltac:(lia)) as (E1 & E2 & E3).
  split; [repeat split; assumption|].
  intros e He. unfold render_row. cbn [row_manager row_version row_size row_desc row_deps].
  rewrite !length_truncate_text_default.
  repeat split; [apply A3 | apply B3 | apply C3 | apply D3 | apply E3]; exact He.
Qed.

(** X5.  Truncation with a width other than the default: the result has
    at most max(width, 22) characters; a text longer than the width always
    becomes its first 19 characters (fewer when it is shorter) and three
    dots, so a width below 22 is exceeded by texts of more than that width,
    while a width of 22 or more is kept. *)
Theorem truncate_text_width (text : string) (max_length : nat) :
  String.length (truncate_text text max_length) <= Nat.max max_length 22 /\
  (String.length text <= max_length \/
   String.length (truncate_text text max_length)
     = Nat.min 19 (String.length text) + 3) /\
  (max_length < 22 \/ String.length (truncate_text text max_length) <= max_length).
Proof.
  unfold truncate_text. destruct (String.length text <=? max_length) eqn:E.
  - apply Nat.leb_le in E. repeat split; [lia | now left | right; exact E].
  - apply Nat.leb_gt in E. rewrite length_append, length_take.
    change (String.length "...") with 3.
    repeat split; [lia | now right | lia].
Qed.

(** ** The resolver at its edges *)

Lemma package_exists_stdin (w : world) (package manager : string) (st : state) :
  stdin (snd (package_exists w package manager st)) = stdin st.
Proof.
  unfold package_exists, package_exists_body, launch.
  destruct (cache_find _ _); [reflexivity|].
  simpl. now destruct (package_exists_on _ _ _).
Qed.

Lemma check_packages_stdin (w : world) install_mode manager packages :
  forall acc st,
    stdin (snd (check_packages (package_exists w) install_mode manager packages acc st))
    = stdin st.
Proof.
  induction packages as [|package rest IH]; intros acc st; simpl; [reflexivity|].
  unfold bind. pose proof (package_exists_stdin w package manager st) as H.
  destruct (package_exists w package manager st) as [[r|e] st1]; simpl in *.
  - now rewrite IH.
  - exact H.
Qed.

Lemma check_repositories_stdin (w : world) install_mode repo_order packages :
  forall acc st,
    stdin (snd (check_repositories (package_exists w) install_mode repo_order packages acc st))
    = stdin st.
Proof.
  induction repo_order as [|manager rest IH]; intros acc st; simpl; [reflexivity|].
  unfold bind at 1. simpl. unfold bind at 1.
  pose proof (check_packages_stdin w install_mode manager packages acc
                (mkState (cache st) (launched st)
                         (printed st ++ [EvProgress "Checking repository" manager])
                         (stdin st))) as H.
  destruct (check_packages _ _ _ _ _ _) as [[acc1|e] st1]; simpl in *.
  - now rewrite IH.
  - exact H.
Qed.

Lemma no_found_no_options install_mode (trace : list probe_record) :
  Forall (fun t => is_found (record_value t) = false) trace ->
  valid_options (record_all install_mode trace empty_scan) = [].
Proof.
  intros Hall.
  destruct (valid_options (record_all install_mode trace empty_scan)) as [|[k v] l] eqn:E;
    [reflexivity|].
  assert (Hmem : Dict.mem (valid_options (record_all install_mode trace empty_scan)) k = true)
    by (rewrite E; unfold Dict.mem; simpl; now rewrite String.eqb_refl).
  rewrite record_all_valid in Hmem. simpl in Hmem.
  unfold found_by in Hmem. apply existsb_exists in Hmem as (t & Hin & Ht).
  rewrite Forall_forall in Hall. rewrite (Hall t Hin), andb_false_r in Ht. discriminate.
Qed.

(** X6.  A resolution request in which no probe returns Found (also one
    with no name or no backend at all) ends with "no repositories found"
    and the result (None, []): no menu is written, no prompt is made and
    no input is read. *)
Theorem resolution_without_coverage (w : world) (packages managers : list string)
    (install_mode : bool) (st st1 : state) (acc : scan) :
  check_repositories (package_exists w) install_mode managers packages empty_scan st
    = (Ok acc, st1) ->
  Forall (fun t => is_found (record_value t) = false)
         (probes_of_scan (package_exists w) managers packages st) ->
  let run := select_repository w packages managers install_mode st in
  fst run = Ok (None, []) /\
  stdin (snd run) = stdin st /\
  printed (snd run) =
    printed st ++ scan_events managers ++ mismatch_events install_mode acc
      ++ [EvNoRepositories packages].
Proof.
  intros Hscan Hnone run.
  destruct (check_repositories_trace _ _ _ _ _ _ _ _ Hscan) as [Hacc _].
  assert (Hval : valid_options acc = []) by (rewrite Hacc; now apply no_found_no_options).
  pose proof (check_repositories_stdin w install_mode managers packages empty_scan st) as Hin.
  rewrite Hscan in Hin. simpl in Hin.
  pose proof (check_repositories_printed _ _ _ _ (package_exists_quiet w) _ _ _ _ Hscan) as Hpr.
  subst run. unfold select_repository, select_repository_with, bind.
  rewrite Hscan, announce_mismatches_run, Hval. unfold write, ret. simpl.
  rewrite Hpr, <- !app_assoc. repeat split; [exact Hin].
Qed.

Lemma resolution_without_coverage_witness :
  let st := initial_state [Line "1"] in
  let scan := check_repositories (package_exists empty_world) true ["snap"; "apt"] ["git"]
                empty_scan st in
  let run := select_repository empty_world ["git"] ["snap"; "apt"] true st in
  scan = (Ok empty_scan, snd scan) /\
  fst run = Ok (None, []) /\
  stdin (snd run) = [Line "1"] /\
  printed (snd run) =
    [ EvProgress "Checking repository" "snap"; EvProgress "Checking repository" "apt";
      EvNoRepositories ["git"] ].
Proof.
  intros st scan run.
  assert (Hs : scan = (Ok empty_scan, snd scan)) by reflexivity.
  assert (Hn : Forall (fun t => is_found (record_value t) = false)
                      (probes_of_scan (package_exists empty_world) ["snap"; "apt"] ["git"] st))
    by (repeat constructor).
  split; [exact Hs|].
  exact (resolution_without_coverage empty_world ["git"] ["snap"; "apt"] true st _ _ Hs Hn).
Defined.

Lemma record_all_available install_mode (trace : list probe_record) :
  forall acc,
    available_packages (record_all install_mode trace acc) =
    if install_mode then
      add_keys (available_packages acc)
               (map record_package (filter (fun t => is_found (record_value t)) trace))
    else available_packages acc.
Proof.
  induction trace as [|[[m p] r] trace IH]; intros acc.
  - simpl. now destruct install_mode.
  - change (record_all install_mode (((m, p), r) :: trace) acc)
      with (record_all install_mode trace (record_result install_mode m p r acc)).
    rewrite IH. unfold record_result, record_value. cbn [snd filter is_found].
    destruct r as [[|]|s]; cbn [is_found available_packages].
    + destruct install_mode; cbn [andb map record_package fst snd]; [|reflexivity].
      unfold add_keys at 2. cbn [fold_left]. unfold add_key at 2.
      now destruct (mem_string p (available_packages acc)).
    + reflexivity.
    + now destruct ((m =? "flatpak")%string && negb (s =? p)%string).
Qed.

(** X7.  What a resolution request in install mode hands back with the
    chosen backend: the requested names for which some backend, not
    necessarily the chosen one, returned Found, each once, in the order of
    their first Found in the backend-by-backend scan (not in the order of
    the request); in query mode the requested names as they were given. *)
Theorem install_mode_returns_names_found_anywhere (w : world)
    (packages managers : list string) (install_mode : bool) (st st1 : state) (acc : scan) :
  check_repositories (package_exists w) install_mode managers packages empty_scan st
    = (Ok acc, st1) ->
  let trace := probes_of_scan (package_exists w) managers packages st in
  let found := map record_package (filter (fun t => is_found (record_value t)) trace) in
  let run := select_repository w packages managers install_mode st in
  available_packages acc = (if install_mode then first_occurrences found else []) /\
  NoDup (available_packages acc) /\
  forall m l, fst run = Ok (Some m, l) ->
              l = if install_mode then first_occurrences found else packages.
Proof.
  intros Hscan trace found run.
  destruct (check_repositories_trace _ _ _ _ _ _ _ _ Hscan) as [Hacc _].
  assert (Hav : available_packages acc = if install_mode then first_occurrences found else []).
  { rewrite Hacc, record_all_available. reflexivity. }
  split; [exact Hav|]. split.
  - rewrite Hav. destruct install_mode; [|constructor].
    apply add_keys_nodup. constructor.
  - intros m l H.
    destruct (select_repository_with_run _ _ _ _ _ _ _ (package_exists_quiet w) Hscan)
      as (evs & _ & _ & Hr).
    destruct (Hr m l H) as [_ ->]. rewrite Hav. now destruct install_mode.
Qed.

Lemma install_mode_returns_names_found_anywhere_witness :
  let w := two_backend_world in
  let st := initial_state [Line "1"] in
  let scan := check_repositories (package_exists w) true ["snap"; "apt"] ["git"; "curl"]
                empty_scan st in
  let run := select_repository w ["git"; "curl"] ["snap"; "apt"] true st in
  scan = (Ok (mkScan [("snap", true); ("apt", true)] [] ["curl"; "git"]), snd scan) /\
  fst run = Ok (Some "snap", ["curl"; "git"]) /\
  NoDup ["curl"; "git"].
Proof.
  intros w st scan run.
  assert (Hs : scan = (Ok (mkScan [("snap", true); ("apt", true)] [] ["curl"; "git"]),
                       snd scan)) by reflexivity.
  split; [exact Hs|]. split; [reflexivity|].
  exact (proj1 (proj2 (install_mode_returns_names_found_anywhere w ["git"; "curl"]
                         ["snap"; "apt"] true st _ _ Hs))).
Defined.

(** ** The prompt loop *)

Lemma choose_result_any_state options packages available install_mode inputs :
  forall st st',
    fst (choose options packages available install_mode inputs st)
    = fst (choose options packages available install_mode inputs st').
Proof.
  induction inputs as [|i rest IH]; intros st st'; [reflexivity|].
  destruct i as [typed|]; [|reflexivity].
  cbn -[Nat.leb Nat.eqb isdigit int_of PyStr.strip nth_error Nat.add Nat.sub].
  destruct (isdigit (PyStr.strip typed)).
  - destruct (int_of (PyStr.strip typed)) as [n|e]; [|reflexivity].
    destruct ((1 <=? n) && (n <=? List.length options)).
    + now destruct (nth_error options (n - 1)).
    + destruct (n =? List.length options + 1); [reflexivity | apply IH].
  - unfold bind, write. cbn [cache launched printed stdin]. apply IH.
Qed.

Lemma choose_ignored options packages available install_mode i rest st :
  ignored_input options i = true ->
  fst (choose options packages available install_mode (i :: rest) st)
  = fst (choose options packages available install_mode rest st).
Proof.
  intros Hi. destruct i as [typed|]; [|discriminate].
  unfold ignored_input in Hi.
  cbn -[Nat.leb Nat.eqb isdigit int_of PyStr.strip nth_error Nat.add Nat.sub].
  destruct (isdigit (PyStr.strip typed)).
  - destruct (int_of (PyStr.strip typed)) as [n|e]; [|discriminate].
    apply andb_true_iff in Hi as [H1 H2].
    apply negb_true_iff in H1, H2. rewrite H1, H2. apply choose_result_any_state.
  - unfold bind, write. cbn [cache launched printed stdin]. apply choose_result_any_state.
Qed.

(** X8.  The prompt loop is decided by the first input it does not pass
    over, whatever follows: an interrupt or the exit number gives
    (None, []); the number of an option gives that option, with the names
    found in install mode and the requested names otherwise; a line that
    [str.isdigit] accepts and [int] refuses (digits that are no decimal
    digits, such as a superscript two, or more than 4300 decimal digits)
    ends the request with an uncaught [ValueError]; and when the input
    ends after lines that are passed over, with an [EOFError]. *)
Theorem prompt_decided_by_first_valid_input options packages available install_mode
    (noise : list user_input) (i : user_input) (rest : list user_input) (st : state) :
  Forall (fun x => ignored_input options x = true) noise ->
  ignored_input options i = false ->
  let result := fst (choose options packages available install_mode (noise ++ i :: rest) st) in
  fst (choose options packages available install_mode noise st) = Raise EOFError /\
  match i with
  | KeyboardInterrupt => result = Ok (None, [])
  | Line typed =>
      match int_of (PyStr.strip typed) with
      | Raise _ => result = Raise ValueError
      | Ok n =>
          if n =? List.length options + 1 then result = Ok (None, [])
          else exists selected,
                 nth_error options (n - 1) = Some selected /\
                 result = Ok (Some selected, if install_mode then available else packages)
      end
  end.
Proof.
  intros Hnoise Hi result. subst result. split.
  - clear Hi. induction Hnoise as [|x noise Hx _ IH]; [reflexivity|].
    now rewrite choose_ignored.
  - induction Hnoise as [|x noise Hx _ IH]; [|simpl app; now rewrite choose_ignored].
    simpl app. destruct i as [typed|]; [|reflexivity].
    unfold ignored_input in Hi.
    cbn -[Nat.leb Nat.eqb isdigit int_of PyStr.strip nth_error Nat.add Nat.sub].
    destruct (isdigit (PyStr.strip typed)); [|discriminate].
    unfold int_of in *.
    destruct (all_chars is_ascii_digit (PyStr.strip typed)
              && (String.length (PyStr.strip typed) <=? max_str_digits)); [|reflexivity].
    set (n := int_digits 0 (PyStr.strip typed)) in *.
    destruct ((1 <=? n) && (n <=? List.length options)) eqn:Hrange.
    + apply andb_true_iff in Hrange as [H1 H2].
      apply Nat.leb_le in H1, H2.
      destruct (n =? List.length options + 1) eqn:Hexit;
        [apply Nat.eqb_eq in Hexit; lia|].
      destruct (nth_error options (n - 1)) as [sel|] eqn:En.
      * exists sel. split; reflexivity.
      * apply nth_error_None in En. lia.
    + simpl in Hi. destruct (n =? List.length options + 1); [reflexivity | discriminate].
Qed.

Lemma prompt_decided_by_first_valid_input_witness :
  let options := ["snap"; "apt"] in
  let noise := [Line "x"; Line "7"; Line ""] in
  Forall (fun x => ignored_input options x = true) noise /\
  ignored_input options (Line " 2 ") = false /\
  ignored_input options (Line superscript_two) = false /\
  fst (choose options ["git"] ["git"] false (noise ++ Line " 2 " :: [Line "1"])
         (initial_state [])) = Ok (Some "apt", ["git"]) /\
  fst (choose options ["git"] ["git"] false (noise ++ Line superscript_two :: [])
         (initial_state [])) = Raise ValueError.
Proof.
  intros options noise.
  assert (Hn : Forall (fun x => ignored_input options x = true) noise)
    by (repeat constructor).
  assert (H2 : ignored_input options (Line " 2 ") = false) by reflexivity.
  assert (H3 : ignored_input options (Line superscript_two) = false) by reflexivity.
  split; [exact Hn|]. split; [exact H2|]. split; [exact H3|]. split; [reflexivity|].
  exact (proj2 (prompt_decided_by_first_valid_input options ["git"] ["git"] false noise
                  (Line superscript_two) [] (initial_state []) Hn H3)).
Defined.

(** ** Names of custom commands *)

Lemma english_alnum_char (c : ascii) :
  is_alnum_char c && (PyStr.code c <? 128) = ascii_letter_or_digit c.
Proof.
  destruct c as [[] [] [] [] [] [] [] []]; vm_compute; reflexivity.
Qed.

Lemma english_alnum_chars (s : string) :
  is_english_alphanumeric s = all_chars ascii_letter_or_digit s.
Proof.
  unfold is_english_alphanumeric. induction s as [|c t IH]; simpl; [reflexivity|].
  now rewrite english_alnum_char, IH.
Qed.

Lemma lower_reserved : map PyStr.lower RESERVED_NAMES = RESERVED_NAMES.
Proof. reflexivity. Qed.

(** X9.  The name that the loop of [custom_install] hands on for
    installation is the stripped text of one of the lines typed, is not
    empty, consists of English letters and decimal digits only, and is, in
    whatever letter case, none of the eight reserved backend names. *)
Theorem custom_name_is_valid (inputs : list user_input) (evs : list event)
    (custom_name : string) :
  ask_custom_name inputs = (evs, NameChosen custom_name) ->
  (exists typed, In (Line typed) inputs /\ custom_name = PyStr.strip typed) /\
  custom_name <> EmptyString /\
  all_chars ascii_letter_or_digit custom_name = true /\
  ~ In (PyStr.lower custom_name) RESERVED_NAMES.
Proof.
  revert evs. induction inputs as [|i rest IH]; intros evs; [discriminate|].
  destruct i as [typed|]; [|discriminate].
  cbn [ask_custom_name].
  assert (Hrest : forall evs',
             ask_custom_name rest = (evs', NameChosen custom_name) ->
             (exists typed0, In (Line typed0) (Line typed :: rest) /\
                             custom_name = PyStr.strip typed0) /\
             custom_name <> EmptyString /\
             all_chars ascii_letter_or_digit custom_name = true /\
             ~ In (PyStr.lower custom_name) RESERVED_NAMES).
  { intros evs' H. destruct (IH _ H) as ((t & Ht & E) & H2). split; [|exact H2].
    exists t. split; [now right | exact E]. }
  destruct (mem_string _ _) eqn:Eres.
  - destruct (ask_custom_name rest) as [evs' r]. intros H. injection H as _ ->. eauto.
  - destruct (String.eqb_spec (PyStr.strip typed) "") as [_|Hne]; [discriminate|].
    destruct (is_english_alphanumeric (PyStr.strip typed)) eqn:Eal.
    + intros H. injection H as _ <-. split; [|split; [exact Hne|split]].
      * exists typed. split; [now left | reflexivity].
      * now rewrite <- english_alnum_chars.
      * rewrite lower_reserved in Eres. intros Hin.
        apply mem_string_in in Hin. congruence.
    + destruct (ask_custom_name rest) as [evs' r]. intros H. injection H as _ ->. eauto.
Qed.

Lemma custom_name_is_valid_witness :
  let inputs := [Line "APT"; Line "my pkg"; Line " mypkg2 "] in
  (exists evs, ask_custom_name inputs = (evs, NameChosen "mypkg2")) /\
  "mypkg2" <> EmptyString /\
  ~ In (PyStr.lower "mypkg2") RESERVED_NAMES.
Proof.
  intros inputs.
  assert (H : ask_custom_name inputs =
              (fst (ask_custom_name inputs), NameChosen "mypkg2")) by reflexivity.
  split; [eexists; exact H|].
  destruct (custom_name_is_valid inputs _ "mypkg2" H) as (_ & H1 & _ & H2).
  split; assumption.
Defined.

(** ** The host *)

Lemma classify_os_cases (os_id : string) (os_like : list string) :
  In (classify_os os_id os_like)
     [ None; Some ("Arch Linux", "pacman"); Some ("Debian", "apt");
       Some ("Fedora", "dnf"); Some ("openSUSE", "zypper") ].
Proof.
  unfold classify_os.
  repeat match goal with |- context [if ?b then _ else _] => destruct b end;
    simpl; tauto.
Qed.

Lemma native_flags_mapped :
  forallb (fun m => forallb (fun verb => match mapped_command verb m with
                                         | Ok (_ :: _) => true
                                         | _ => false
                                         end) all_flags) native_backends = true.
Proof. reflexivity. Qed.

Lemma split_once_contains (s key value : string) :
  split_once 61 s = Some (key, value) -> PyStr.contains "=" s = true.
Proof.
  revert key value. induction s as [|c t IH]; intros key value; simpl; [discriminate|].
  destruct (PyStr.code c =? 61) eqn:Ec.
  - intros _. apply Nat.eqb_eq in Ec.
    assert (Hc : c = "="%char).
    { rewrite <- (ascii_nat_embedding c). unfold PyStr.code in Ec. now rewrite Ec. }
    subst c. simpl. now destruct t.
  - destruct (split_once 61 t) as [[b r]|]; [|discriminate].
    intros _. rewrite (IH b r eq_refl). apply orb_true_r.
Qed.

Lemma lstrip_suffix (s : string) : exists a, s = (a ++ PyStr.lstrip s)%string.
Proof.
  induction s as [|c t [a Ha]]; [now exists EmptyString|]. simpl.
  destruct (PyStr.is_space c); [|now exists EmptyString].
  exists (String c a). simpl. now rewrite <- Ha.
Qed.

Lemma rstrip_prefix (s : string) : exists b, s = (PyStr.rstrip s ++ b)%string.
Proof.
  induction s as [|c t [b Hb]]; [now exists EmptyString|]. simpl.
  destruct (PyStr.rstrip t) as [|c0 t'] eqn:Et.
  - destruct (PyStr.is_space c); [now exists (String c t)|].
    exists t. reflexivity.
  - exists b. simpl. f_equal. exact Hb.
Qed.

(** What a stripped line contains, the line contains. *)
Lemma strip_contains (needle s : string) :
  PyStr.contains needle (PyStr.strip s) = true -> PyStr.contains needle s = true.
Proof.
  intros H. apply contains_split in H as (pre & post & Hs). unfold PyStr.strip in Hs.
  destruct (lstrip_suffix s) as [a Ha]. destruct (rstrip_prefix (PyStr.lstrip s)) as [b Hb].
  apply contains_split. exists (a ++ pre)%string, (post ++ b)%string.
  rewrite Ha at 1. rewrite Hb at 1. rewrite Hs. now rewrite !append_assoc.
Qed.

(** X10.  Whatever /etc/os-release holds, [detect_os] answers with nothing
    or with one of four families together with that family's native
    backend; it answers with nothing when the file is missing or has no
    line with an equals sign; and for the backend it answers with, every
    one of the ten flags has a non-empty argument vector in
    [command_mappings], so that looking up a flag for the native backend
    never fails. *)
Theorem detect_os_names_a_native_backend (os_release : option (list string)) :
  detect_os None = None /\
  (forall lines, Forall (fun line => PyStr.contains "=" line = false) lines ->
                 detect_os (Some lines) = None) /\
  (detect_os os_release = None \/
   exists distro pkg_manager,
     detect_os os_release = Some (distro, pkg_manager) /\
     In (distro, pkg_manager)
        [("Arch Linux", "pacman"); ("Debian", "apt"); ("Fedora", "dnf");
         ("openSUSE", "zypper")] /\
     forall verb, In verb all_flags ->
       exists word argv, mapped_command verb pkg_manager = Ok (word :: argv)).
Proof.
  split; [reflexivity|]. split.
  - intros lines Hall. unfold detect_os.
    assert (Hinfo : forall d, os_info_of lines d = d).
    { induction Hall as [|line rest Hline _ IH]; intros d; [reflexivity|].
      simpl. destruct (split_once 61 (PyStr.strip line)) as [[k v]|] eqn:E; [|apply IH].
      apply split_once_contains, strip_contains in E. congruence. }
    rewrite Hinfo. reflexivity.
  - destruct os_release as [lines|]; [|now left]. unfold detect_os.
    pose proof (classify_os_cases
                  (strip_quotes (Dict.get_default (os_info_of lines []) "ID" ""))
                  (PyStr.split (strip_quotes
                                  (Dict.get_default (os_info_of lines []) "ID_LIKE" "")))) as H.
    simpl in H.
    destruct H as [H|[H|[H|[H|[H|[]]]]]]; rewrite <- H; [now left | right ..];
      do 2 eexists; (split; [reflexivity|]); (split; [simpl; tauto|]);
      intros verb Hv; simpl in Hv;
      repeat (destruct Hv as [<-|Hv]; [do 2 eexists; reflexivity|]); contradiction.
Qed.

Lemma backends_are_mapped (m : string) :
  In m backends ->
  Dict.mem search_commands m = true /\ Dict.mem dep_commands m = true /\
  Dict.mem sudo_required_commands m = true /\
  forall verb, In verb ["-S"; "-R"; "-Ss"; "-Qi"] ->
    exists word argv, mapped_command verb m = Ok (word :: argv).
Proof.
  intros Hm. simpl in Hm.
  repeat (destruct Hm as [<-|Hm];
          [repeat split;
           intros verb Hv; simpl in Hv;
           repeat (destruct Hv as [<-|Hv]; [do 2 eexists; reflexivity|]); contradiction|]).
  contradiction.
Qed.

(** X11.  Whatever the host, the backends that [detect_package_managers]
    lists are distinct and stand in the fixed order pacman, paru, yay, apt,
    dnf, zypper, snap, flatpak; at most one of the native backends pacman,
    apt, dnf, zypper is among them, and paru or yay only beside pacman;
    and each of them has a search vector, a detail vector, a row in the
    privilege table and an argument vector for install, remove, search and
    info, so that probing, comparing and dispatching with a detected
    backend never fails on a missing table entry. *)
Theorem detected_backends_are_known (h : host) :
  let managers := Dict.keys (detect_package_managers h) in
  managers = filter (fun b => mem_string b managers) backends /\
  NoDup managers /\
  List.length (filter (fun m => mem_string m native_backends) managers) <= 1 /\
  (In "paru" managers \/ In "yay" managers -> In "pacman" managers) /\
  forall m, In m managers ->
    Dict.mem search_commands m = true /\ Dict.mem dep_commands m = true /\
    Dict.mem sudo_required_commands m = true /\
    forall verb, In verb ["-S"; "-R"; "-Ss"; "-Qi"] ->
      exists word argv, mapped_command verb m = Ok (word :: argv).
Proof.
  intros managers.
  assert (Hshape : managers = filter (fun b => mem_string b managers) backends /\
                   List.length (filter (fun m => mem_string m native_backends) managers) <= 1 /\
                   (In "paru" managers \/ In "yay" managers -> In "pacman" managers)).
  { subst managers. unfold detect_package_managers, distro_is.
    pose proof (classify_os_cases) as Hc.
    assert (Hd : In (detect_os (os_release h))
                    [ None; Some ("Arch Linux", "pacman"); Some ("Debian", "apt");
                      Some ("Fedora", "dnf"); Some ("openSUSE", "zypper") ]).
    { unfold detect_os. destruct (os_release h); [apply Hc | now left]. }
    clear Hc. simpl in Hd.
    destruct (which h "paru"), (which h "yay"), (which h "apt"), (which h "dnf"),
             (which h "zypper"), (which h "snap"),
             (which h "flatpak" || path_exists h "/var/lib/flatpak"
              || path_exists h (expanduser h "~/.local/share/flatpak"));
      destruct Hd as [Hd|[Hd|[Hd|[Hd|[Hd|[]]]]]]; rewrite <- Hd;
      (split; [reflexivity|]); (split; [vm_compute; lia|]);
      vm_compute; intuition discriminate. }
  destruct Hshape as (Hfilter & Hnative & Hparu).
  assert (Hback : NoDup backends).
  { unfold backends.
    repeat (constructor; [simpl; intuition discriminate|]). constructor. }
  split; [exact Hfilter|]. split; [rewrite Hfilter; now apply NoDup_filter|].
  split; [exact Hnative|]. split; [exact Hparu|].
  intros m Hm. apply backends_are_mapped.
  rewrite Hfilter in Hm. now apply filter_In in Hm.
Qed.

(** ** The installation loop *)

Lemma launches_for_refl (packages : list string) (st : state) :
  launches_for packages st st.
Proof. exists []. split; [now rewrite app_nil_r | constructor]. Qed.

Lemma launches_for_same (packages : list string) (st st' : state) :
  launched st' = launched st -> launches_for packages st st'.
Proof. intros H. exists []. split; [now rewrite app_nil_r | constructor]. Qed.

Lemma launches_for_trans (packages : list string) (st1 st2 st3 : state) :
  launches_for packages st1 st2 -> launches_for packages st2 st3 ->
  launches_for packages st1 st3.
Proof.
  intros (n1 & E1 & F1) (n2 & E2 & F2). exists (n1 ++ n2). split.
  - now rewrite E2, E1, app_assoc.
  - apply Forall_app. now split.
Qed.

Lemma keeps_to_ret {A : Type} packages (Q : A -> Prop) (a : A) :
  Q a -> keeps_to packages Q (ret a).
Proof.
  intros H st. split; [apply launches_for_refl|].
  intros a' E. now injection E as <-.
Qed.

Lemma keeps_to_raise {A : Type} packages (Q : A -> Prop) (e : exn) :
  keeps_to packages Q (raise e).
Proof. intros st. split; [apply launches_for_refl | discriminate]. Qed.

Lemma keeps_to_bind {A B : Type} packages (Q : A -> Prop) (R : B -> Prop)
    (m : M A) (f : A -> M B) :
  keeps_to packages Q m ->
  (forall a, Q a -> keeps_to packages R (f a)) ->
  keeps_to packages R (bind m f).
Proof.
  intros Hm Hf st. unfold bind. destruct (Hm st) as [Hl Hq].
  destruct (m st) as [[a|e] st1]; simpl in *.
  - destruct (Hf a (Hq a eq_refl) st1) as [Hl' Hr].
    split; [eapply launches_for_trans; eauto | exact Hr].
  - split; [exact Hl | discriminate].
Qed.

Lemma keeps_to_weaken {A : Type} packages (Q Q' : A -> Prop) (m : M A) :
  (forall a, Q a -> Q' a) -> keeps_to packages Q m -> keeps_to packages Q' m.
Proof.
  intros HQ Hm st. destruct (Hm st) as [Hl Hq]. split; [exact Hl | auto].
Qed.

Lemma keeps_to_write packages (e : event) :
  keeps_to packages (fun _ => True) (write e).
Proof. intros st. split; [now apply launches_for_same | auto]. Qed.

Lemma keeps_to_write_all packages (l : list event) :
  keeps_to packages (fun _ => True) (write_all l).
Proof.
  intros st. rewrite write_all_run. split; [now apply launches_for_same | auto].
Qed.

Lemma keeps_to_launch packages (w : world) (c : list string) (st : state) :
  launched_for packages c -> launches_for packages st (snd (launch w c st)).
Proof. intros H. exists [c]. split; [reflexivity | now constructor]. Qed.

Lemma keeps_to_package_exists packages (w : world) (p m : string) :
  In p packages -> keeps_to packages (fun _ => True) (package_exists w p m).
Proof.
  intros Hp st. split; [|auto].
  destruct (cache_find (p, m) (cache st)) as [v|] eqn:Hfind.
  - rewrite (package_exists_hit _ _ _ _ _ Hfind). now apply launches_for_same.
  - rewrite (package_exists_miss _ _ _ _ Hfind). cbv zeta.
    assert (H : launched_for packages (search_command p m)) by (left; exists p, m; auto).
    destruct (package_exists_on _ _ _); exists [search_command p m];
      (split; [reflexivity | now constructor]).
Qed.

Lemma keeps_to_run_command packages (w : world) (c : list string) :
  launched_for packages c -> keeps_to packages (fun _ => True) (run_command w c).
Proof.
  intros H st. split; [|auto]. unfold run_command.
  pose proof (keeps_to_launch packages w c st H) as Hl.
  destruct (launch w c st) as [o st1]. simpl in Hl. now destruct o.
Qed.

Lemma keeps_to_show_dependencies packages (w : world) (p m : string) :
  In p packages -> keeps_to packages (fun _ => True) (show_dependencies w p m).
Proof.
  intros Hp. unfold show_dependencies.
  eapply keeps_to_bind; [apply keeps_to_write|]. intros _ _.
  eapply keeps_to_bind; [apply keeps_to_run_command|].
  - left. exists p, m. auto.
  - intros _ _. now apply keeps_to_ret.
Qed.

Lemma keeps_to_show_all packages (w : world) (m : string) (pkgs : list string) :
  incl pkgs packages -> keeps_to packages (fun _ => True) (show_all w m pkgs).
Proof.
  induction pkgs as [|p rest IH]; intros Hincl; simpl; [now apply keeps_to_ret|].
  eapply keeps_to_bind; [apply keeps_to_show_dependencies; apply Hincl; now left|].
  intros _ _. apply IH. intros x Hx. apply Hincl. now right.
Qed.

Lemma keeps_to_probe_filter packages (w : world) (negate : bool) (m : string)
    (pkgs : list string) :
  incl pkgs packages ->
  keeps_to packages (fun l => incl l pkgs) (probe_filter w negate m pkgs).
Proof.
  induction pkgs as [|p rest IH]; intros Hincl; simpl.
  - apply keeps_to_ret. intros x [].
  - eapply keeps_to_bind; [apply keeps_to_package_exists; apply Hincl; now left|].
    intros v _. eapply keeps_to_bind.
    + apply IH. intros x Hx. apply Hincl. now right.
    + intros l Hl. apply keeps_to_ret.
      destruct (xorb (truthy v) negate); intros x Hx.
      * destruct Hx as [<-|Hx]; [now left | right; now apply Hl].
      * right. now apply Hl.
Qed.

(** One round launches searches, info commands and at most one install
    command, all for requested names, and leaves some of the names it was
    given. *)
Lemma keeps_to_install_round packages (w : world) (chosen : string)
    (available remaining : list string) :
  incl available packages -> incl remaining packages ->
  keeps_to packages (fun l => incl l remaining)
           (install_round w chosen available remaining).
Proof.
  intros Ha Hr. unfold install_round.
  eapply keeps_to_bind; [apply keeps_to_probe_filter; exact Ha|].
  intros existing He.
  assert (Hex : incl existing packages) by (intros x Hx; apply Ha, He, Hx).
  eapply keeps_to_bind with (Q := fun _ => True).
  - destruct existing as [|e0 es]; [now apply keeps_to_ret|].
    eapply keeps_to_bind; [apply keeps_to_show_all; exact Hex|]. intros _ _.
    destruct (build_command "-S" chosen (e0 :: es)) as [command|e] eqn:Eb;
      [|apply keeps_to_raise].
    eapply keeps_to_bind; [apply keeps_to_write|]. intros _ _.
    eapply keeps_to_bind; [apply keeps_to_run_command|intros _ _; now apply keeps_to_ret].
    right. exists chosen, (e0 :: es). split; [discriminate | split; assumption].
  - intros _ _. eapply keeps_to_bind; [apply keeps_to_probe_filter; exact Hr|].
    intros rem Hrem. eapply keeps_to_bind with (Q := fun _ => True).
    + destruct rem; [now apply keeps_to_ret|].
      eapply keeps_to_bind; [apply keeps_to_write|]. intros _ _. apply keeps_to_write.
    + intros _ _. now apply keeps_to_ret.
Qed.

Lemma choose_launched options packages available install_mode inputs :
  forall st,
    launched (snd (choose options packages available install_mode inputs st)) = launched st.
Proof.
  induction inputs as [|i rest IH]; intros st; [reflexivity|].
  destruct i as [typed|]; [|reflexivity].
  cbn -[Nat.leb Nat.eqb isdigit int_of PyStr.strip nth_error Nat.add Nat.sub].
  destruct (isdigit (PyStr.strip typed)).
  - destruct (int_of (PyStr.strip typed)) as [n|e]; [|reflexivity].
    destruct ((1 <=? n) && (n <=? List.length options)).
    + now destruct (nth_error options (n - 1)).
    + destruct (n =? List.length options + 1); [reflexivity | now rewrite IH].
  - unfold bind, write. cbn [cache launched printed stdin]. now rewrite IH.
Qed.

Lemma record_result_available install_mode m p r acc (pkgs : list string) :
  In p pkgs -> incl (available_packages acc) pkgs ->
  incl (available_packages (record_result install_mode m p r acc)) pkgs.
Proof.
  intros Hp Hacc. unfold record_result.
  destruct r as [[|]|s]; simpl; try exact Hacc.
  - destruct (install_mode && negb (mem_string p (available_packages acc))); [|exact Hacc].
    intros x Hx. apply in_app_iff in Hx as [Hx|[<-|[]]]; auto.
  - now destruct ((m =? "flatpak")%string && negb (s =? p)%string).
Qed.

Lemma keeps_to_check_packages packages (w : world) install_mode manager
    (pkgs some : list string) :
  incl pkgs packages -> incl some pkgs ->
  forall acc, incl (available_packages acc) pkgs ->
    keeps_to packages (fun acc' => incl (available_packages acc') pkgs)
             (check_packages (package_exists w) install_mode manager some acc).
Proof.
  intros Hpk. induction some as [|p rest IH]; intros Hsome acc Hacc; simpl.
  - now apply keeps_to_ret.
  - eapply keeps_to_bind;
      [apply keeps_to_package_exists; apply Hpk, Hsome; now left|].
    intros r _. apply IH.
    + intros x Hx. apply Hsome. now right.
    + apply record_result_available; [apply Hsome; now left | exact Hacc].
Qed.

Lemma keeps_to_check_repositories packages (w : world) install_mode
    (repo_order pkgs : list string) :
  incl pkgs packages ->
  forall acc, incl (available_packages acc) pkgs ->
    keeps_to packages (fun acc' => incl (available_packages acc') pkgs)
             (check_repositories (package_exists w) install_mode repo_order pkgs acc).
Proof.
  intros Hpk. induction repo_order as [|manager rest IH]; intros acc Hacc; simpl.
  - now apply keeps_to_ret.
  - eapply keeps_to_bind; [apply keeps_to_write|]. intros _ _.
    eapply keeps_to_bind.
    + apply keeps_to_check_packages; [exact Hpk | apply incl_refl | exact Hacc].
    + intros acc' Hacc'. now apply IH.
Qed.

(** A resolution request launches searches for requested names only, and
    the names it returns in install mode are requested names. *)
Lemma keeps_to_select_repository packages (w : world) (pkgs managers : list string) :
  incl pkgs packages ->
  keeps_to packages (fun r => forall m l, r = (Some m, l) -> incl l pkgs)
           (select_repository w pkgs managers true).
Proof.
  intros Hpk. unfold select_repository, select_repository_with.
  eapply keeps_to_bind.
  - apply keeps_to_check_repositories; [exact Hpk | intros x []].
  - intros acc Hacc. eapply keeps_to_bind with (Q := fun _ => True).
    + intros st. rewrite announce_mismatches_run.
      split; [now apply launches_for_same | auto].
    + intros _ _. destruct (valid_options acc) as [|o os].
      * eapply keeps_to_bind; [apply keeps_to_write|]. intros _ _.
        apply keeps_to_ret. discriminate.
      * eapply keeps_to_bind; [apply keeps_to_write|]. intros _ _.
        eapply keeps_to_bind; [apply keeps_to_write_all|]. intros _ _.
        eapply keeps_to_bind; [apply keeps_to_write|]. intros _ _.
        intros st. split.
        -- apply launches_for_same, choose_launched.
        -- intros [c l] E m l' Hr. injection Hr as -> ->.
           destruct (choose_run (options_of managers acc) pkgs (available_packages acc)
                       true (stdin st) st) as (_ & _ & _ & Hc).
           destruct (Hc m l' E) as [_ ->]. exact Hacc.
Qed.

(** X12.  Whatever the host answers and the user types, [handle_install]
    launches nothing but searches and info commands for names of the
    request and install commands whose packages are a non-empty selection
    of names of the request: it never installs a name that was not asked
    for, and never runs an install command without a package. *)
Theorem handle_install_keeps_to_request (fuel : nat) (w : world)
    (packages available_managers : list string) (st st' : state) (r : result unit) :
  handle_install fuel w packages available_managers st = Some (r, st') ->
  exists new,
    launched st' = launched st ++ new /\
    Forall (launched_for packages) new.
Proof.
  unfold handle_install.
  assert (H : forall remaining st0,
             incl remaining packages ->
             handle_install_loop fuel w available_managers remaining st0 = Some (r, st') ->
             launches_for packages st0 st').
  { induction fuel as [|fuel IH]; intros remaining st0 Hrem Hrun.
    - destruct remaining; [|discriminate]. injection Hrun as _ <-. apply launches_for_refl.
    - destruct remaining as [|p0 ps]; [injection Hrun as _ <-; apply launches_for_refl|].
      assert (Hcase : handle_install_loop (S fuel) w available_managers (p0 :: ps) st0 =
                match select_repository w (p0 :: ps) available_managers true st0 with
                | (Raise e, st1) => Some (Raise e, st1)
                | (Ok (Some chosen_manager, (_ :: _) as available_packages), st1) =>
                    if (chosen_manager =? "")%string then
                      Some (write (EvMessage "Installation aborted.") st1)
                    else
                      match install_round w chosen_manager available_packages (p0 :: ps) st1 with
                      | (Raise e, st2) => Some (Raise e, st2)
                      | (Ok remaining', st2) =>
                          handle_install_loop fuel w available_managers remaining' st2
                      end
                | (Ok _, st1) => Some (write (EvMessage "Installation aborted.") st1)
                end) by reflexivity.
      rewrite Hcase in Hrun. clear Hcase.
      remember (p0 :: ps) as remaining eqn:Er. clear Er.
      destruct (keeps_to_select_repository packages w remaining available_managers Hrem st0)
        as [Hsel Hpost].
      destruct (select_repository w remaining available_managers true st0)
        as [[[chosen available]|e] st1]; simpl in Hsel, Hpost.
      + assert (Habort : Some (write (EvMessage "Installation aborted.") st1) = Some (r, st') ->
                         launches_for packages st0 st').
        { intros E. injection E as _ <-. eapply launches_for_trans; [exact Hsel|].
          now apply launches_for_same. }
        destruct chosen as [chosen|]; [|now apply Habort].
        destruct available as [|a0 as0]; [now apply Habort|].
        destruct (chosen =? "")%string; [now apply Habort|].
        assert (Hav : incl (a0 :: as0) packages).
        { intros x Hx. apply Hrem. exact (Hpost _ eq_refl chosen (a0 :: as0) eq_refl x Hx). }
        destruct (keeps_to_install_round packages w chosen (a0 :: as0) remaining Hav Hrem st1)
          as [Hround Hleft].
        destruct (install_round w chosen (a0 :: as0) remaining st1) as [[remaining'|e] st2];
          simpl in Hround, Hleft.
        * eapply launches_for_trans; [exact Hsel|].
          eapply launches_for_trans; [exact Hround|].
          apply (IH remaining' st2); [|exact Hrun].
          intros x Hx. apply Hrem. exact (Hleft _ eq_refl x Hx).
        * injection Hrun as _ <-. eapply launches_for_trans; eauto.
      + injection Hrun as _ <-. exact Hsel. }
  intros Hrun. exact (H packages st (incl_refl _) Hrun).
Qed.

Lemma input_kept_ret {A : Type} (a : A) : input_kept (ret a).
Proof. intros st. reflexivity. Qed.

Lemma input_kept_raise {A : Type} (e : exn) : input_kept (@raise A e).
Proof. intros st. reflexivity. Qed.

Lemma input_kept_bind {A B : Type} (m : M A) (k : A -> M B) :
  input_kept m -> (forall a, input_kept (k a)) -> input_kept (bind m k).
Proof.
  intros Hm Hk st. unfold bind. specialize (Hm st).
  destruct (m st) as [[a|e] st1]; simpl in *; [|exact Hm].
  now rewrite Hk.
Qed.

Lemma input_kept_write (e : event) : input_kept (write e).
Proof. intros st. reflexivity. Qed.

Lemma input_kept_package_exists (w : world) (p m : string) :
  input_kept (package_exists w p m).
Proof. intros st. apply package_exists_stdin. Qed.

Lemma input_kept_run_command (w : world) (c : list string) : input_kept (run_command w c).
Proof.
  intros st. unfold run_command, launch. now destruct (w (List.length (launched st)) c).
Qed.

Lemma input_kept_show_all (w : world) (m : string) (pkgs : list string) :
  input_kept (show_all w m pkgs).
Proof.
  induction pkgs as [|p rest IH]; simpl; [apply input_kept_ret|].
  apply input_kept_bind; [|intros _; exact IH].
  unfold show_dependencies.
  apply input_kept_bind; [apply input_kept_write|]. intros _.
  apply input_kept_bind; [apply input_kept_run_command | intros _; apply input_kept_ret].
Qed.

Lemma input_kept_probe_filter (w : world) (negate : bool) (m : string) (pkgs : list string) :
  input_kept (probe_filter w negate m pkgs).
Proof.
  induction pkgs as [|p rest IH]; simpl; [apply input_kept_ret|].
  apply input_kept_bind; [apply input_kept_package_exists|]. intros v.
  apply input_kept_bind; [exact IH | intros l; apply input_kept_ret].
Qed.

(** A round of installation reads nothing from the user. *)
Lemma input_kept_install_round (w : world) (chosen : string)
    (available remaining : list string) :
  input_kept (install_round w chosen available remaining).
Proof.
  unfold install_round.
  apply input_kept_bind; [apply input_kept_probe_filter|]. intros existing.
  apply input_kept_bind.
  - destruct existing; [apply input_kept_ret|].
    apply input_kept_bind; [apply input_kept_show_all|]. intros _.
    destruct (build_command _ _ _); [|apply input_kept_raise].
    apply input_kept_bind; [apply input_kept_write|]. intros _.
    apply input_kept_bind; [apply input_kept_run_command | intros _; apply input_kept_ret].
  - intros _. apply input_kept_bind; [apply input_kept_probe_filter|]. intros rem.
    apply input_kept_bind; [|intros _; apply input_kept_ret].
    destruct rem; [apply input_kept_ret|].
    apply input_kept_bind; [apply input_kept_write | intros _; apply input_kept_write].
Qed.

(** The prompt returns a backend only after it has read a line. *)
Lemma choose_consumes options packages available install_mode inputs :
  forall st m l,
    stdin st = inputs ->
    fst (choose options packages available install_mode inputs st) = Ok (Some m, l) ->
    List.length (stdin (snd (choose options packages available install_mode inputs st)))
    < List.length inputs.
Proof.
  induction inputs as [|i rest IH]; intros st m l Hst; [discriminate|].
  destruct i as [typed|]; [|discriminate].
  cbn -[Nat.leb Nat.eqb isdigit int_of PyStr.strip nth_error Nat.add Nat.sub].
  rewrite Hst. cbn [tl List.length].
  destruct (isdigit (PyStr.strip typed)).
  - destruct (int_of (PyStr.strip typed)) as [n|e]; [|discriminate].
    destruct ((1 <=? n) && (n <=? List.length options)).
    + destruct (nth_error options (n - 1)); [|discriminate]. intros _. simpl. lia.
    + destruct (n =? List.length options + 1); [discriminate|].
      intros H. apply IH in H; [lia | reflexivity].
  - unfold bind, write. cbn [cache launched printed stdin].
    intros H. apply IH in H; [lia | reflexivity].
Qed.

Lemma select_repository_consumes (w : world) (pkgs managers : list string)
    (install_mode : bool) (st : state) (m : string) (l : list string) :
  fst (select_repository w pkgs managers install_mode st) = Ok (Some m, l) ->
  List.length (stdin (snd (select_repository w pkgs managers install_mode st)))
  < List.length (stdin st).
Proof.
  unfold select_repository, select_repository_with, bind.
  pose proof (check_repositories_stdin w install_mode managers pkgs empty_scan st) as Hscan.
  destruct (check_repositories _ _ _ _ _ st) as [[acc|e] st1]; [|discriminate].
  simpl in Hscan. rewrite announce_mismatches_run.
  destruct (valid_options acc) as [|o os]; [discriminate|].
  unfold write. rewrite write_all_run.
  cbn [cache launched printed stdin]. rewrite <- Hscan.
  intros H. eapply choose_consumes; [reflexivity | exact H].
Qed.

(** X13.  Every round of the installation loop reads at least one line of
    the user's input, so with [n] lines pending the loop is over after at
    most [n] rounds: a bound above [n] is never reached, whatever the host
    and the request. *)
Theorem handle_install_ends_within_input (fuel : nat) (w : world)
    (packages available_managers : list string) (st : state) :
  List.length (stdin st) < fuel ->
  exists r st', handle_install fuel w packages available_managers st = Some (r, st').
Proof.
  unfold handle_install. revert packages st.
  induction fuel as [|fuel IH]; intros remaining st Hlen; [lia|].
  destruct remaining as [|p0 ps]; [now exists (Ok tt), st|].
  cbn [handle_install_loop].
  pose proof (select_repository_consumes w (p0 :: ps) available_managers true st) as Hsel.
  destruct (select_repository w (p0 :: ps) available_managers true st)
    as [[[chosen available]|e] st1]; [|eauto].
  destruct chosen as [chosen|]; [|unfold write; eauto].
  destruct available as [|a0 as0]; [unfold write; eauto|].
  destruct (chosen =? "")%string; [unfold write; eauto|].
  specialize (Hsel chosen (a0 :: as0) eq_refl). simpl in Hsel.
  pose proof (input_kept_install_round w chosen (a0 :: as0) (p0 :: ps) st1) as Hround.
  destruct (install_round w chosen (a0 :: as0) (p0 :: ps) st1) as [[remaining'|e] st2];
    [|eauto].
  simpl in Hround. apply IH. rewrite Hround. lia.
Qed.

(** On a host where snap knows curl and apt knows curl and git, a request
    for git, curl and zzz with the user choosing twice the first option
    and then leaving. *)
Lemma handle_install_keeps_to_request_witness :
  exists r st',
    handle_install 5 two_backend_world ["git"; "curl"; "zzz"] ["snap"; "apt"]
      (initial_state [Line "1"; Line "1"; Line "3"]) = Some (r, st') /\
    exists new,
      launched st' = launched (initial_state [Line "1"; Line "1"; Line "3"]) ++ new /\
      Forall (launched_for ["git"; "curl"; "zzz"]) new.
Proof.
  eexists. eexists. split; [vm_compute; reflexivity|].
  eapply (handle_install_keeps_to_request 5 two_backend_world ["git"; "curl"; "zzz"]
            ["snap"; "apt"] (initial_state [Line "1"; Line "1"; Line "3"])).
  vm_compute. reflexivity.
Defined.

Lemma handle_install_ends_within_input_witness :
  List.length (stdin (initial_state [Line "1"; Line "1"; Line "3"])) < 5 /\
  exists r st',
    handle_install 5 two_backend_world ["git"; "curl"; "zzz"] ["snap"; "apt"]
      (initial_state [Line "1"; Line "1"; Line "3"]) = Some (r, st').
Proof.
  split; [simpl; lia|].
  apply (handle_install_ends_within_input 5 two_backend_world ["git"; "curl"; "zzz"]
           ["snap"; "apt"] (initial_state [Line "1"; Line "1"; Line "3"])).
  simpl. lia.
Defined.

(** ** The cache after a scan *)

Lemma cache_find_front (k : cache_key) (v : probe_value)
    (front back : list (cache_key * probe_value)) :
  NoDup (map fst front) -> In (k, v) front -> cache_find k (front ++ back) = Some v.
Proof.
  induction front as [|[k' v'] front IH]; simpl; intros Hnd Hin; [contradiction|].
  inversion Hnd as [|? ? Hnin Hnd']; subst.
  destruct Hin as [E|Hin].
  - injection E as -> ->. now rewrite key_eqb_refl.
  - destruct (key_eqb k' k) eqn:Ek; [|now apply IH].
    apply key_eqb_eq in Ek. subst k'. exfalso. apply Hnin.
    apply in_map_iff. now exists (k, v).
Qed.

Lemma holds_find (done c : list (cache_key * probe_value)) (k : cache_key) (v : probe_value) :
  holds done c -> In (k, v) done -> cache_find k c = Some v.
Proof.
  intros (front & back & -> & Hnd & _ & Hin) Hk. apply cache_find_front; auto.
Qed.

Lemma cache_remove_app (k : cache_key) (a b : list (cache_key * probe_value)) :
  cache_remove k (a ++ b) = cache_remove k a ++ cache_remove k b.
Proof. apply filter_app. Qed.

Lemma cache_remove_length (k : cache_key) (c : list (cache_key * probe_value)) :
  List.length (cache_remove k c) <= List.length c.
Proof. apply filter_length_le. Qed.

(** A probe that returns adds its entry to what the cache holds, as long
    as the probes made so far are fewer than the cache has places. *)
Lemma holds_step (w : world) (p m : string) (st st1 : state) (v : probe_value)
    (done : list (cache_key * probe_value)) :
  List.length done < maxsize ->
  holds done (cache st) ->
  package_exists w p m st = (Ok v, st1) ->
  holds (done ++ [((p, m), v)]) (cache st1).
Proof.
  intros Hsize Hholds Hrun.
  destruct (cache_find (p, m) (cache st)) as [v'|] eqn:Hfind.
  - rewrite (package_exists_hit _ _ _ _ _ Hfind) in Hrun. injection Hrun as <- <-.
    destruct Hholds as (front & back & E & Hnd & Hlen & Hin).
    exists (((p, m), v') :: cache_remove (p, m) front), (cache_remove (p, m) back).
    split; [|split; [|split]].
    + cbn [cache set_cache]. rewrite E, cache_remove_app. reflexivity.
    + simpl. constructor; [|now apply cache_remove_nodup].
      intros H. apply cache_remove_keys in H. tauto.
    + rewrite length_app. simpl. pose proof (cache_remove_length (p, m) front). lia.
    + intros [k0 v0] H0. apply in_app_iff in H0 as [H0|[H0|[]]].
      * destruct (key_dec k0 (p, m)) as [Ek|Hne].
        -- subst k0.
           pose proof (cache_find_front _ _ _ back Hnd (Hin _ H0)) as Hf.
           rewrite <- E, Hfind in Hf. injection Hf as ->. now left.
        -- right. apply filter_In. split; [now apply Hin|].
           simpl. now apply negb_true_iff, key_eqb_neq.
      * left. exact H0.
  - rewrite (package_exists_miss _ _ _ _ Hfind) in Hrun. cbv zeta in Hrun.
    destruct (package_exists_on _ _ _) as [v'|e]; [|discriminate].
    pose proof (f_equal fst Hrun) as Ev. cbn [fst] in Ev. injection Ev as ->.
    apply (f_equal snd) in Hrun. cbn [snd] in Hrun. subst st1. cbn [cache].
    destruct Hholds as (front & back & E & Hnd & Hlen & Hin).
    exists (((p, m), v) :: front), (firstn (maxsize - S (List.length front)) back).
    split; [|split; [|split]].
    + rewrite E. change (((p, m), v) :: front ++ back)
        with ((((p, m), v) :: front) ++ back).
      unfold cache_key in *.
      rewrite firstn_app, firstn_all2 by (simpl; lia). reflexivity.
    + simpl. constructor; [|exact Hnd].
      intros H. apply (cache_find_none _ _ Hfind). rewrite E, map_app.
      apply in_or_app. now left.
    + rewrite length_app. simpl. lia.
    + intros x Hx. apply in_app_iff in Hx as [Hx|[Hx|[]]].
      * right. now apply Hin.
      * left. exact Hx.
Qed.

Lemma holds_check_packages (w : world) install_mode (manager : string) (packages : list string) :
  forall acc st acc' st' done,
    check_packages (package_exists w) install_mode manager packages acc st = (Ok acc', st') ->
    List.length done + List.length packages <= maxsize ->
    holds done (cache st) ->
    exists l,
      probes_of_manager (package_exists w) manager packages st = (l, st') /\
      holds (done ++ map probed l) (cache st').
Proof.
  induction packages as [|package rest IH]; simpl; intros acc st acc' st' done Hrun Hsize Hholds.
  - injection Hrun as _ <-. exists []. simpl. now rewrite app_nil_r.
  - unfold bind in Hrun.
    destruct (package_exists w package manager st) as [[r|e] st1] eqn:Ep; [|discriminate].
    assert (Hstep : holds (done ++ [((package, manager), r)]) (cache st1)).
    { apply (holds_step w package manager st st1 r done); [lia | exact Hholds | exact Ep]. }
    destruct (IH _ _ _ _ (done ++ [((package, manager), r)]) Hrun) as (l & Hl & Hl');
      [rewrite length_app; simpl; lia | exact Hstep |].
    exists ((manager, package, r) :: l). rewrite Hl. split; [reflexivity|].
    simpl. now rewrite <- app_assoc in Hl'.
Qed.

Lemma holds_check_repositories (w : world) install_mode (repo_order packages : list string) :
  forall acc st acc' st' done,
    check_repositories (package_exists w) install_mode repo_order packages acc st
    = (Ok acc', st') ->
    List.length done + List.length repo_order * List.length packages <= maxsize ->
    holds done (cache st) ->
    holds (done ++ map probed (probes_of_scan (package_exists w) repo_order packages st))
          (cache st').
Proof.
  induction repo_order as [|manager rest IH]; simpl;
    intros acc st acc' st' done Hrun Hsize Hholds.
  - injection Hrun as _ <-. now rewrite app_nil_r.
  - unfold bind in Hrun at 1. simpl in Hrun. unfold bind in Hrun at 1.
    destruct (check_packages _ _ _ _ _ _) as [[acc1|e] st1] eqn:E1; [|discriminate].
    destruct (holds_check_packages w _ _ _ _ _ _ _ done E1) as (l & Hl & Hl');
      [lia | exact Hholds |].
    rewrite Hl.
    assert (Hlen : List.length l = List.length packages).
    { destruct (check_packages_trace _ _ _ _ _ _ _ _ E1) as (l0 & Hl0 & _ & Hkeys).
      assert (El : l0 = l) by congruence. subst l0.
      apply (f_equal (@List.length _)) in Hkeys. now rewrite !length_map in Hkeys. }
    specialize (IH _ _ _ _ (done ++ map probed l) Hrun).
    rewrite map_app, app_assoc. apply IH; [|exact Hl'].
    rewrite length_app, length_map. lia.
Qed.

(** X14.  After a scan of at most 128 (name, backend) pairs that returned,
    every pair of the scan is answered from the cache: probing it again
    launches no search and returns a value the scan got for that pair. *)
Theorem scanned_pairs_are_cached (w : world) install_mode (managers packages : list string)
    (st st1 : state) (acc : scan) (p m : string) :
  List.length managers * List.length packages <= 128 ->
  check_repositories (package_exists w) install_mode managers packages empty_scan st
  = (Ok acc, st1) ->
  In p packages -> In m managers ->
  exists v,
    In (m, p, v) (probes_of_scan (package_exists w) managers packages st) /\
    fst (package_exists w p m st1) = Ok v /\
    launched (snd (package_exists w p m st1)) = launched st1.
Proof.
  intros Hsize Hrun Hp Hm.
  assert (Hholds : holds (map probed (probes_of_scan (package_exists w) managers packages st))
                         (cache st1)).
  { apply (holds_check_repositories w install_mode managers packages empty_scan st acc st1 []
             Hrun); [simpl; unfold maxsize; lia|].
    exists [], (cache st). repeat split; [constructor | simpl; lia | intros x []]. }
  destruct (check_repositories_trace _ _ _ _ _ _ _ _ Hrun) as [_ Hkeys].
  assert (Hin : In (m, p) (map fst (probes_of_scan (package_exists w) managers packages st))).
  { rewrite Hkeys. unfold scan_pairs. apply in_flat_map. exists m. split; [exact Hm|].
    apply in_map_iff. now exists p. }
  apply in_map_iff in Hin as ([[m0 p0] v] & E & Hin). simpl in E. injection E as -> ->.
  exists v. split; [exact Hin|].
  assert (Hfind : cache_find (p, m) (cache st1) = Some v).
  { apply (holds_find _ _ _ _ Hholds). apply in_map_iff. now exists (m, p, v). }
  rewrite (package_exists_hit _ _ _ _ _ Hfind). now split.
Qed.

(** On the host where snap knows curl and apt knows curl and git: after
    the scan of git and curl over snap and apt, git with apt is answered
    from the cache. *)
Lemma scanned_pairs_are_cached_witness :
  let run := check_repositories (package_exists two_backend_world) true
               ["snap"; "apt"] ["git"; "curl"] empty_scan (initial_state []) in
  exists v,
    In ("apt", "git", v)
       (probes_of_scan (package_exists two_backend_world) ["snap"; "apt"] ["git"; "curl"]
          (initial_state [])) /\
    fst (package_exists two_backend_world "git" "apt" (snd run)) = Ok v /\
    launched (snd (package_exists two_backend_world "git" "apt" (snd run)))
    = launched (snd run).
Proof.
  intros run.
  apply (scanned_pairs_are_cached two_backend_world true ["snap"; "apt"] ["git"; "curl"]
           (initial_state []) (snd run)
           (match fst run with Ok acc => acc | Raise _ => empty_scan end) "git" "apt").
  - simpl. lia.
  - vm_compute. reflexivity.
  - simpl. tauto.
  - simpl. tauto.
Defined.

(** ** A round of installation after its scan *)

Lemma cache_find_In (k : cache_key) (c : list (cache_key * probe_value)) (v : probe_value) :
  cache_find k c = Some v -> In (k, v) c.
Proof.
  induction c as [|[k' v'] c IH]; simpl; [discriminate|].
  destruct (key_eqb k' k) eqn:E.
  - apply key_eqb_eq in E. subst k'. intros H. injection H as ->. now left.
  - intros H. right. now apply IH.
Qed.

Lemma cache_find_some (k : cache_key) (v : probe_value) (c : list (cache_key * probe_value)) :
  In (k, v) c -> exists v', cache_find k c = Some v'.
Proof.
  induction c as [|[k' v'] c IH]; simpl; [contradiction|].
  intros [E|Hin].
  - injection E as -> ->. rewrite key_eqb_refl. eauto.
  - destruct (key_eqb k' k); eauto.
Qed.

Lemma cache_find_remove_other (k k' : cache_key) (c : list (cache_key * probe_value)) :
  k' <> k -> cache_find k' (cache_remove k c) = cache_find k' c.
Proof.
  intros Hne. induction c as [|[k0 v0] c IH]; simpl; [reflexivity|].
  destruct (key_eqb k0 k) eqn:E; simpl.
  - apply key_eqb_eq in E. subst k0.
    destruct (key_eqb k k') eqn:E'; [apply key_eqb_eq in E'; congruence | exact IH].
  - now rewrite IH.
Qed.

Lemma holds_answers (done c : list (cache_key * probe_value)) : holds done c -> answers done c.
Proof. intros H k v Hin. exact (holds_find _ _ _ _ H Hin). Qed.

(** A probe of a pair the cache answers is a hit, and the cache goes on
    answering. *)
Lemma answers_hit (w : world) (p m : string) (st : state) (v : probe_value)
    (done : list (cache_key * probe_value)) :
  answers done (cache st) -> In ((p, m), v) done ->
  package_exists w p m st
  = (Ok v, set_cache (((p, m), v) :: cache_remove (p, m) (cache st)) st) /\
  answers done (((p, m), v) :: cache_remove (p, m) (cache st)).
Proof.
  intros Hans Hin. pose proof (Hans _ _ Hin) as Hfind.
  split; [now apply package_exists_hit|].
  intros k' v' Hin'. simpl.
  destruct (key_eqb (p, m) k') eqn:E.
  - apply key_eqb_eq in E. subst k'. rewrite (Hans _ _ Hin') in Hfind. now symmetry.
  - apply key_eqb_neq in E. rewrite cache_find_remove_other by congruence.
    now apply Hans.
Qed.

Lemma answered_value (done c : list (cache_key * probe_value)) (m p : string)
    (v : probe_value) :
  answers done c -> In ((p, m), v) done -> answered done m p = truthy v.
Proof.
  intros Hans Hin. unfold answered.
  destruct (cache_find_some _ _ _ Hin) as [v' Hv']. rewrite Hv'.
  pose proof (Hans _ _ (cache_find_In _ _ _ Hv')) as H.
  rewrite (Hans _ _ Hin) in H. now injection H as ->.
Qed.

Lemma set_cache_twice (c c' : list (cache_key * probe_value)) (st : state) :
  set_cache c' (set_cache c st) = set_cache c' st.
Proof. reflexivity. Qed.

Lemma set_cache_same (st : state) : set_cache (cache st) st = st.
Proof. now destruct st. Qed.

(** Filtering names by probes the cache answers: no search is launched. *)
Lemma probe_filter_answered (w : world) (negate : bool) (m : string)
    (done : list (cache_key * probe_value)) (pkgs : list string) :
  forall st,
    answers done (cache st) ->
    (forall p, In p pkgs -> exists v, In ((p, m), v) done) ->
    exists c',
      probe_filter w negate m pkgs st
      = (Ok (filter (fun p => xorb (answered done m p) negate) pkgs), set_cache c' st) /\
      answers done c'.
Proof.
  induction pkgs as [|p rest IH]; intros st Hans Hall.
  - exists (cache st). simpl. unfold ret. now rewrite set_cache_same.
  - destruct (Hall p (or_introl eq_refl)) as [v Hv].
    destruct (answers_hit w p m st v done Hans Hv) as [Hrun Hans1].
    destruct (IH (set_cache (((p, m), v) :: cache_remove (p, m) (cache st)) st) Hans1)
      as (c' & Hrest & Hans').
    { intros q Hq. apply Hall. now right. }
    exists c'. split; [|exact Hans'].
    cbn [probe_filter filter]. unfold bind. rewrite Hrun, Hrest. unfold ret.
    rewrite set_cache_twice, (answered_value done _ m p v Hans Hv). reflexivity.
Qed.

Lemma show_all_run (w : world) (m : string) (pkgs : list string) :
  forall st st', show_all w m pkgs st = (Ok tt, st') ->
    cache st' = cache st /\
    launched st' = launched st ++ map (fun p => info_command p m) pkgs.
Proof.
  induction pkgs as [|p rest IH]; intros st st' H; simpl in *.
  - injection H as <-. now rewrite app_nil_r.
  - unfold bind, show_dependencies, bind, write, run_command, launch, ret in H.
    cbn [cache launched printed stdin] in H.
    destruct (w (List.length (launched st)) (info_command p m)); try discriminate.
    apply IH in H as [Hc Hl]. cbn [cache launched] in *.
    rewrite Hc, Hl, <- app_assoc. now split.
Qed.

Lemma run_command_run (w : world) (c : list string) (st st' : state) (b : bool) :
  run_command w c st = (Ok b, st') ->
  cache st' = cache st /\ launched st' = launched st ++ [c].
Proof.
  unfold run_command, launch.
  destruct (w (List.length (launched st)) c); try discriminate.
  intros H. injection H as _ <-. now split.
Qed.

Lemma filter_plain (f : string -> bool) (l : list string) :
  filter (fun p => xorb (f p) false) l = filter f l.
Proof. apply filter_ext. intros p. apply xorb_false_r. Qed.

Lemma filter_negated (f : string -> bool) (l : list string) :
  filter (fun p => xorb (f p) true) l = filter (fun p => negb (f p)) l.
Proof. apply filter_ext. intros p. apply xorb_true_r. Qed.

(** A round whose probes the cache answers: the names left are those the
    cache says are not found, and the processes launched are the info
    command of each name found and then their install command. *)
Lemma install_round_answered (w : world) (chosen : string)
    (available remaining remaining' : list string)
    (done : list (cache_key * probe_value)) (st st2 : state) :
  answers done (cache st) ->
  (forall p, In p available -> exists v, In ((p, chosen), v) done) ->
  (forall p, In p remaining -> exists v, In ((p, chosen), v) done) ->
  install_round w chosen available remaining st = (Ok remaining', st2) ->
  remaining' = filter (fun p => negb (answered done chosen p)) remaining /\
  exists new,
    launched st2 = launched st ++ new /\
    match filter (answered done chosen) available with
    | [] => new = []
    | existing =>
        exists cmd,
          build_command "-S" chosen existing = Ok cmd /\
          new = map (fun p => info_command p chosen) existing ++ [cmd]
    end.
Proof.
  intros Hans Ha Hr Hround.
  destruct (probe_filter_answered w false chosen done available st Hans Ha)
    as (c1 & Hpf1 & Hans1).
  rewrite filter_plain in Hpf1.
  unfold install_round, bind in Hround. rewrite Hpf1 in Hround. cbv beta iota in Hround.
  remember (filter (answered done chosen) available) as existing eqn:Eex. clear Eex.
  assert (Hlast : forall st1,
             answers done (cache st1) ->
             match probe_filter w true chosen remaining st1 with
             | (Ok a, st') =>
                 match match a with
                       | [] => ret tt
                       | _ :: _ =>
                           fun st0 =>
                             match write (EvMessage ("The following packages were not found in "
                                            ++ chosen ++ ": " ++ join_comma a)) st0 with
                             | (Ok _, st'0) =>
                                 write (EvMessage
                                   "Please select another repository for the remaining packages.")
                                   st'0
                             | (Raise e, st'0) => (Raise e, st'0)
                             end
                       end st' with
                 | (Ok _, st'0) => ret a st'0
                 | (Raise e, st'0) => (Raise e, st'0)
                 end
             | (Raise e, st') => (Raise e, st')
             end = (Ok remaining', st2) ->
             remaining' = filter (fun p => negb (answered done chosen p)) remaining /\
             launched st2 = launched st1).
  { intros st1 Hans' H.
    destruct (probe_filter_answered w true chosen done remaining st1 Hans' Hr)
      as (c2 & Hpf2 & _).
    rewrite filter_negated in Hpf2. rewrite Hpf2 in H.
    destruct (filter (fun p => negb (answered done chosen p)) remaining) as [|r0 rs];
      unfold ret, write in H; cbn [cache launched printed stdin set_cache] in H;
      injection H as <- <-; split; reflexivity. }
  destruct existing as [|e0 es].
  - unfold ret in Hround at 1. 
    apply Hlast in Hround; [|exact Hans1]. destruct Hround as [-> ->].
    split; [reflexivity|]. exists []. simpl. now rewrite app_nil_r.
  - destruct (show_all w chosen (e0 :: es) (set_cache c1 st)) as [[[]|e] st_a] eqn:Hshow;
      [|discriminate].
    apply show_all_run in Hshow as [Hca Hla].
    destruct (build_command "-S" chosen (e0 :: es)) as [cmd|e] eqn:Eb; [|discriminate].
    unfold write in Hround at 1. cbn [cache launched printed stdin] in Hround.
    match type of Hround with context [run_command w cmd ?s] =>
      destruct (run_command w cmd s) as [[b|e] st_b] eqn:Hrc; [|discriminate] end.
    apply run_command_run in Hrc as [Hcb Hlb]. cbn [cache launched] in Hcb, Hlb.
    unfold ret in Hround at 1.
    apply Hlast in Hround.
    + destruct Hround as [-> ->]. split; [reflexivity|].
      exists (map (fun p => info_command p chosen) (e0 :: es) ++ [cmd]).
      split; [|exists cmd; now split].
      rewrite Hlb, Hla. cbn [launched set_cache]. now rewrite <- app_assoc.
    + rewrite Hcb, Hca. exact Hans1.
Qed.

Lemma choose_cache options packages available install_mode inputs :
  forall st,
    cache (snd (choose options packages available install_mode inputs st)) = cache st.
Proof.
  induction inputs as [|i rest IH]; intros st; [reflexivity|].
  destruct i as [typed|]; [|reflexivity].
  cbn -[Nat.leb Nat.eqb isdigit int_of PyStr.strip nth_error Nat.add Nat.sub].
  destruct (isdigit (PyStr.strip typed)).
  - destruct (int_of (PyStr.strip typed)) as [n|e]; [|reflexivity].
    destruct ((1 <=? n) && (n <=? List.length options)).
    + now destruct (nth_error options (n - 1)).
    + destruct (n =? List.length options + 1); [reflexivity | now rewrite IH].
  - unfold bind, write. cbn [cache launched printed stdin]. now rewrite IH.
Qed.

(** A resolution request that returns a backend: its scan returned, the
    prompt touched neither the cache nor the launch log, and the backend
    is one of the options. *)
Lemma select_repository_scan (w : world) (pkgs managers : list string) (install_mode : bool)
    (st st1 : state) (chosen : string) (available : list string) :
  select_repository w pkgs managers install_mode st = (Ok (Some chosen, available), st1) ->
  exists acc st_a,
    check_repositories (package_exists w) install_mode managers pkgs empty_scan st
    = (Ok acc, st_a) /\
    cache st1 = cache st_a /\
    launched st1 = launched st_a /\
    In chosen (options_of managers acc) /\
    available = if install_mode then available_packages acc else pkgs.
Proof.
  unfold select_repository, select_repository_with, bind.
  destruct (check_repositories _ _ _ _ _ st) as [[acc|e] st_a]; [|discriminate].
  rewrite announce_mismatches_run.
  destruct (valid_options acc) as [|o os]; [discriminate|].
  unfold write. rewrite write_all_run. cbn [cache launched printed stdin].
  intros H. exists acc, st_a. split; [reflexivity|].
  match type of H with choose ?o ?p ?a ?i ?inp ?s = _ =>
    pose proof (choose_cache o p a i inp s) as Hc;
    pose proof (choose_launched o p a i inp s) as Hl;
    destruct (choose_run o p a i inp s) as (_ & _ & _ & Hr) end.
  rewrite H in Hc, Hl, Hr. cbn [fst snd cache launched] in Hc, Hl, Hr.
  destruct (Hr chosen available eq_refl) as [Hin Hav]. auto.
Qed.

Lemma found_with_answered (trace : list probe_record) (c : list (cache_key * probe_value))
    (m p : string) :
  answers (map probed trace) c ->
  answered (map probed trace) m p = found_with m p trace.
Proof.
  intros Hans. destruct (found_with m p trace) eqn:Ef.
  - apply existsb_exists in Ef as ([[m0 p0] v] & Hin & Hc).
    unfold record_manager, record_package, record_value in Hc. simpl in Hc.
    apply andb_true_iff in Hc as [Hc Hv]. apply andb_true_iff in Hc as [Hm Hp].
    apply String.eqb_eq in Hm, Hp. subst m0 p0.
    rewrite (answered_value _ c m p v Hans); [exact Hv|].
    apply in_map_iff. now exists (m, p, v).
  - unfold answered. destruct (cache_find (p, m) (map probed trace)) as [v|] eqn:Hf;
      [|reflexivity].
    apply cache_find_In, in_map_iff in Hf as ([[m0 p0] v0] & E & Hin).
    unfold probed, record_manager, record_package, record_value in E. simpl in E.
    injection E as -> -> ->.
    destruct (truthy v) eqn:Hv; [|reflexivity].
    rewrite <- Ef. symmetry. apply existsb_exists. exists (m, p, v).
    split; [exact Hin|]. unfold record_manager, record_package, record_value. simpl.
    now rewrite !String.eqb_refl, Hv.
Qed.

Lemma filter_length_lt {A : Type} (f : A -> bool) (l : list A) (x : A) :
  In x l -> f x = false -> List.length (filter f l) < List.length l.
Proof.
  induction l as [|a l IH]; simpl; [contradiction|].
  intros [->|Hin] Hx.
  - rewrite Hx. pose proof (filter_length_le f l). lia.
  - specialize (IH Hin Hx). destruct (f a); simpl; lia.
Qed.

(** X15.  A round of the installation loop whose scan covers at most 128
    (name, backend) pairs launches no search again: it installs, with one
    command after the info command of each, exactly the returned names
    that the scan found with the chosen backend, and hands on exactly the
    requested names the scan did not find with it, which are fewer than
    before. *)
Theorem round_installs_what_the_scan_found (w : world) (managers remaining : list string)
    (st st1 st2 : state) (chosen : string) (available remaining' : list string) :
  List.length managers * List.length remaining <= 128 ->
  select_repository w remaining managers true st = (Ok (Some chosen, available), st1) ->
  install_round w chosen available remaining st1 = (Ok remaining', st2) ->
  let trace := probes_of_scan (package_exists w) managers remaining st in
  let existing := filter (fun p => found_with chosen p trace) available in
  existing <> [] /\
  (exists cmd,
     build_command "-S" chosen existing = Ok cmd /\
     launched st2 = launched st1 ++ map (fun p => info_command p chosen) existing ++ [cmd]) /\
  remaining' = filter (fun p => negb (found_with chosen p trace)) remaining /\
  List.length remaining' < List.length remaining.
Proof.
  intros Hsize Hsel Hround trace existing.
  destruct (select_repository_scan _ _ _ _ _ _ _ _ Hsel)
    as (acc & st_a & Hscan & Hc & Hl & Hopt & Hav).
  assert (Hholds : holds (map probed trace) (cache st_a)).
  { apply (holds_check_repositories w true managers remaining empty_scan st acc st_a []
             Hscan); [simpl; unfold maxsize; lia|].
    exists [], (cache st). repeat split; [constructor | simpl; lia | intros x []]. }
  apply holds_answers in Hholds. rewrite <- Hc in Hholds.
  destruct (check_repositories_trace _ _ _ _ _ _ _ _ Hscan) as [Hacc Hkeys].
  fold trace in Hacc, Hkeys.
  apply filter_In in Hopt as [Hchosen Hvalid].
  rewrite Hacc, record_all_valid in Hvalid. simpl in Hvalid.
  apply existsb_exists in Hvalid as ([[m0 p0] v0] & Hin0 & Hc0).
  unfold record_manager, record_value in Hc0. simpl in Hc0.
  apply andb_true_iff in Hc0 as [Hm0 Hv0]. apply String.eqb_eq in Hm0. subst m0.
  assert (Hp0 : In p0 remaining).
  { assert (H : In (chosen, p0) (scan_pairs managers remaining)).
    { rewrite <- Hkeys. apply in_map_iff. now exists (chosen, p0, v0). }
    apply in_flat_map in H as (m & _ & H). apply in_map_iff in H as (p & E & H).
    now injection E as -> ->. }
  assert (Hf0 : found_with chosen p0 trace = true).
  { apply existsb_exists. exists (chosen, p0, v0). split; [exact Hin0|].
    unfold record_manager, record_package, record_value. simpl.
    rewrite !String.eqb_refl. destruct v0 as [[|]|s]; try discriminate. reflexivity. }
  assert (Hrem : forall p, In p remaining ->
                           exists v, In ((p, chosen), v) (map probed trace)).
  { intros p Hp.
    assert (H : In (chosen, p) (map fst trace)).
    { rewrite Hkeys. apply in_flat_map. exists chosen. split; [exact Hchosen|].
      apply in_map_iff. now exists p. }
    apply in_map_iff in H as ([[m1 p1] v1] & E & H). simpl in E. injection E as -> ->.
    exists v1. apply in_map_iff. now exists (chosen, p, v1). }
  assert (Hsub : incl available remaining).
  { destruct (keeps_to_check_repositories remaining w true managers remaining
                (incl_refl _) empty_scan (fun x F => match F with end) st) as [_ Hpost].
    rewrite Hscan in Hpost. rewrite Hav. exact (Hpost acc eq_refl). }
  assert (Ha0 : In p0 available).
  { rewrite Hav, Hacc, record_all_available. apply add_keys_in. right.
    apply in_map_iff. exists (chosen, p0, v0). split; [reflexivity|].
    apply filter_In. now split. }
  destruct (install_round_answered w chosen available remaining remaining'
              (map probed trace) st1 st2 Hholds
              (fun p Hp => Hrem p (Hsub p Hp)) Hrem Hround) as (Hleft & new & Hnew & Hex).
  assert (Ee : filter (answered (map probed trace) chosen) available = existing).
  { apply filter_ext. intros p. exact (found_with_answered trace _ chosen p Hholds). }
  assert (El : filter (fun p => negb (answered (map probed trace) chosen p)) remaining
               = filter (fun p => negb (found_with chosen p trace)) remaining).
  { apply filter_ext. intros p. now rewrite (found_with_answered trace _ chosen p Hholds). }
  rewrite Ee in Hex. rewrite El in Hleft.
  assert (Hne : existing <> []).
  { intros E. assert (H : In p0 existing) by (apply filter_In; now split).
    rewrite E in H. exact H. }
  split; [exact Hne|]. split; [|split; [exact Hleft|]].
  - destruct existing as [|e0 es]; [congruence|].
    destruct Hex as (cmd & Hb & ->). exists cmd. now split.
  - rewrite Hleft. apply (filter_length_lt _ _ p0 Hp0). now rewrite Hf0.
Qed.

(** On the host where snap knows curl and apt knows curl and git: git,
    curl and zzz are requested and snap is chosen; curl is installed with
    snap, git and zzz are left. *)
Lemma round_installs_what_the_scan_found_witness :
  let w := two_backend_world in
  let st := initial_state [Line "1"] in
  let sel := select_repository w ["git"; "curl"; "zzz"] ["snap"; "apt"] true st in
  let round := install_round w "snap" ["curl"; "git"] ["git"; "curl"; "zzz"] (snd sel) in
  let trace := probes_of_scan (package_exists w) ["snap"; "apt"] ["git"; "curl"; "zzz"] st in
  let existing := filter (fun p => found_with "snap" p trace) ["curl"; "git"] in
  sel = (Ok (Some "snap", ["curl"; "git"]), snd sel) /\
  round = (Ok ["git"; "zzz"], snd round) /\
  existing <> [] /\
  (exists cmd,
     build_command "-S" "snap" existing = Ok cmd /\
     launched (snd round)
     = launched (snd sel) ++ map (fun p => info_command p "snap") existing ++ [cmd]) /\
  ["git"; "zzz"] = filter (fun p => negb (found_with "snap" p trace)) ["git"; "curl"; "zzz"] /\
  List.length ["git"; "zzz"] < List.length ["git"; "curl"; "zzz"].
Proof.
  intros w st sel round trace existing.
  assert (Hsel : sel = (Ok (Some "snap", ["curl"; "git"]), snd sel))
    by (vm_compute; reflexivity).
  assert (Hround : round = (Ok ["git"; "zzz"], snd round)) by (vm_compute; reflexivity).
  split; [exact Hsel|]. split; [exact Hround|].
  apply (round_installs_what_the_scan_found w ["snap"; "apt"] ["git"; "curl"; "zzz"]
           st (snd sel) (snd round) "snap" ["curl"; "git"] ["git"; "zzz"]).
  - simpl. lia.
  - exact Hsel.
  - exact Hround.
Defined.

(** ** The entry point *)

Lemma yields_ret {A : Type} (Q : A -> Prop) (a : A) : Q a -> yields Q (ret a).
Proof.
  intros H st. split; [split; discriminate|]. intros a' E. now injection E as <-.
Qed.

Lemma yields_raise {A : Type} (Q : A -> Prop) (e : exn) :
  e <> KeyError -> e <> IndexError -> yields Q (@raise A e).
Proof.
  intros H1 H2 st. split; [split; simpl; congruence | discriminate].
Qed.

Lemma yields_bind {A B : Type} (Q : A -> Prop) (R : B -> Prop) (m : M A) (k : A -> M B) :
  yields Q m -> (forall a, Q a -> yields R (k a)) -> yields R (bind m k).
Proof.
  intros Hm Hk st. unfold bind. destruct (Hm st) as [[H1 H2] Hq].
  destruct (m st) as [[a|e] st1]; simpl in *.
  - apply Hk. now apply Hq.
  - split; [split; congruence | discriminate].
Qed.

Lemma yields_weaken {A : Type} (Q Q' : A -> Prop) (m : M A) :
  (forall a, Q a -> Q' a) -> yields Q m -> yields Q' m.
Proof.
  intros H Hm st. destruct (Hm st) as [Hn Hq]. split; [exact Hn|]. auto.
Qed.

Lemma yields_write (e : event) : yields (fun _ => True) (write e).
Proof. intros st. split; [split; discriminate | auto]. Qed.

Lemma yields_write_all (l : list event) : yields (fun _ => True) (write_all l).
Proof.
  intros st. rewrite write_all_run. split; [split; discriminate | auto].
Qed.

Lemma yields_run_command (w : world) (c : list string) :
  yields (fun _ => True) (run_command w c).
Proof.
  intros st. unfold run_command, launch.
  destruct (w (List.length (launched st)) c); (split; [split; discriminate | auto]).
Qed.

(** The prober raises nothing but the [OSError] of a search that cannot
    be started. *)
Lemma yields_package_exists (w : world) (p m : string) :
  yields (fun _ => True) (package_exists w p m).
Proof.
  intros st. split; [|auto].
  destruct (cache_find (p, m) (cache st)) as [v|] eqn:Hfind.
  - rewrite (package_exists_hit _ _ _ _ _ Hfind). split; discriminate.
  - rewrite (package_exists_miss _ _ _ _ Hfind). cbv zeta.
    destruct (w (List.length (launched st)) (search_command p m)) as [rc out| | |].
    + rewrite package_exists_on_completed. split; discriminate.
    + split; discriminate.
    + split; discriminate.
    + split; discriminate.
Qed.

Lemma yields_check_packages (w : world) install_mode manager (packages : list string) :
  forall acc, yields (fun _ => True)
                     (check_packages (package_exists w) install_mode manager packages acc).
Proof.
  induction packages as [|p rest IH]; intros acc; simpl; [now apply yields_ret|].
  eapply yields_bind; [apply yields_package_exists|]. intros r _. apply IH.
Qed.

Lemma yields_check_repositories (w : world) install_mode (repo_order packages : list string) :
  forall acc, yields (fun _ => True)
                     (check_repositories (package_exists w) install_mode repo_order packages acc).
Proof.
  induction repo_order as [|m rest IH]; intros acc; simpl; [now apply yields_ret|].
  eapply yields_bind; [apply yields_write|]. intros _ _.
  eapply yields_bind; [apply yields_check_packages|]. intros acc' _. apply IH.
Qed.

(** The prompt indexes the options only within their range. *)
Lemma choose_no_lookup_error options packages available install_mode inputs :
  forall st, no_lookup_error (fst (choose options packages available install_mode inputs st)).
Proof.
  induction inputs as [|i rest IH]; intros st; [split; discriminate|].
  destruct i as [typed|]; [|split; discriminate].
  cbn -[Nat.leb Nat.eqb isdigit int_of PyStr.strip nth_error Nat.add Nat.sub].
  destruct (isdigit (PyStr.strip typed)).
  - unfold int_of.
    destruct (all_chars is_ascii_digit (PyStr.strip typed)
              && (String.length (PyStr.strip typed) <=? max_str_digits));
      [|split; discriminate].
    destruct ((1 <=? int_digits 0 (PyStr.strip typed))
              && (int_digits 0 (PyStr.strip typed) <=? List.length options)) eqn:Hrange.
    + destruct (nth_error options (int_digits 0 (PyStr.strip typed) - 1)) eqn:Hnth;
        [split; discriminate|].
      apply andb_true_iff in Hrange as [H1 H2].
      apply Nat.leb_le in H1, H2. apply nth_error_None in Hnth. lia.
    + destruct (int_digits 0 (PyStr.strip typed) =? List.length options + 1);
        [split; discriminate | apply IH].
  - unfold bind, write. cbn [cache launched printed stdin]. apply IH.
Qed.

Lemma yields_select_repository (w : world) (pkgs managers : list string) (install_mode : bool) :
  yields (fun r => forall m l, r = (Some m, l) -> In m managers)
         (select_repository w pkgs managers install_mode).
Proof.
  unfold select_repository, select_repository_with.
  eapply yields_bind; [apply yields_check_repositories|]. intros acc _.
  eapply yields_bind with (Q := fun _ => True).
  - intros st. rewrite announce_mismatches_run. split; [split; discriminate | auto].
  - intros _ _. destruct (valid_options acc) as [|o os].
    + eapply yields_bind; [apply yields_write|]. intros _ _.
      apply yields_ret. discriminate.
    + eapply yields_bind; [apply yields_write|]. intros _ _.
      eapply yields_bind; [apply yields_write_all|]. intros _ _.
      eapply yields_bind; [apply yields_write|]. intros _ _.
      intros st. split; [apply choose_no_lookup_error|].
      intros [c l] E m l' Hr. injection Hr as -> ->.
      destruct (choose_run (options_of managers acc) pkgs (available_packages acc)
                  install_mode (stdin st) st) as (_ & _ & _ & Hc).
      destruct (Hc m l' E) as [Hin _]. now apply filter_In in Hin.
Qed.

Lemma yields_show_all (w : world) (m : string) (pkgs : list string) :
  yields (fun _ => True) (show_all w m pkgs).
Proof.
  induction pkgs as [|p rest IH]; simpl; [now apply yields_ret|].
  eapply yields_bind with (Q := fun _ => True); [|intros _ _; exact IH].
  unfold show_dependencies.
  eapply yields_bind; [apply yields_write|]. intros _ _.
  eapply yields_bind; [apply yields_run_command|]. intros _ _. now apply yields_ret.
Qed.

Lemma yields_probe_filter (w : world) (negate : bool) (m : string) (pkgs : list string) :
  yields (fun _ => True) (probe_filter w negate m pkgs).
Proof.
  induction pkgs as [|p rest IH]; simpl; [now apply yields_ret|].
  eapply yields_bind; [apply yields_package_exists|]. intros v _.
  eapply yields_bind; [exact IH|]. intros l _. now apply yields_ret.
Qed.

Lemma build_command_mapped (command m : string) (args argv : list string) :
  mapped_command command m = Ok argv ->
  exists cmd, build_command command m args = Ok cmd.
Proof. intros H. unfold build_command. rewrite H. eauto. Qed.

Lemma yields_install_round (w : world) (chosen : string) (available remaining : list string) :
  In chosen backends ->
  yields (fun _ => True) (install_round w chosen available remaining).
Proof.
  intros Hc. unfold install_round.
  eapply yields_bind; [apply yields_probe_filter|]. intros existing _.
  eapply yields_bind with (Q := fun _ => True).
  - destruct existing as [|e0 es]; [now apply yields_ret|].
    eapply yields_bind; [apply yields_show_all|]. intros _ _.
    destruct (backends_are_mapped chosen Hc) as (_ & _ & _ & Hm).
    destruct (Hm "-S") as (word & argv & Hw); [simpl; tauto|].
    destruct (build_command_mapped "-S" chosen (e0 :: es) _ Hw) as [cmd ->].
    eapply yields_bind; [apply yields_write|]. intros _ _.
    eapply yields_bind; [apply yields_run_command|]. intros _ _. now apply yields_ret.
  - intros _ _. eapply yields_bind; [apply yields_probe_filter|]. intros rem _.
    eapply yields_bind with (Q := fun _ => True); [|intros _ _; now apply yields_ret].
    destruct rem; [now apply yields_ret|].
    eapply yields_bind; [apply yields_write|]. intros _ _. apply yields_write.
Qed.

Lemma no_lookup_error_raise {A B : Type} (e : exn) :
  @no_lookup_error A (Raise e) -> @no_lookup_error B (Raise e).
Proof. intros [H1 H2]. split; congruence. Qed.

Lemma handle_install_no_lookup_error (w : world) (managers : list string) :
  incl managers backends ->
  forall fuel remaining st r st',
    handle_install_loop fuel w managers remaining st = Some (r, st') ->
    no_lookup_error r.
Proof.
  intros Hm. induction fuel as [|fuel IH]; intros remaining st r st' Hrun.
  - destruct remaining; [|discriminate]. injection Hrun as <- _. split; discriminate.
  - destruct remaining as [|p0 ps]; [injection Hrun as <- _; split; discriminate|].
    cbn [handle_install_loop] in Hrun.
    destruct (yields_select_repository w (p0 :: ps) managers true st) as [Hsel Hpost].
    destruct (select_repository w (p0 :: ps) managers true st)
      as [[[chosen available]|e] st1]; simpl in Hsel, Hpost.
    + assert (Habort : Some (write (EvMessage "Installation aborted.") st1) = Some (r, st') ->
                       no_lookup_error r).
      { intros E. injection E as <- _. split; discriminate. }
      destruct chosen as [chosen|]; [|now apply Habort].
      destruct available as [|a0 as0]; [now apply Habort|].
      destruct (chosen =? "")%string; [now apply Habort|].
      assert (Hc : In chosen backends) by (apply Hm; exact (Hpost _ eq_refl _ _ eq_refl)).
      destruct (yields_install_round w chosen (a0 :: as0) (p0 :: ps) Hc st1) as [Hround _].
      destruct (install_round w chosen (a0 :: as0) (p0 :: ps) st1) as [[remaining'|e] st2];
        simpl in Hround.
      * exact (IH _ _ _ _ Hrun).
      * injection Hrun as <- _. exact (no_lookup_error_raise e Hround).
    + injection Hrun as <- _. exact (no_lookup_error_raise e Hsel).
Qed.

Lemma yields_execute (w : world) (command m : string) (args argv : list string) :
  mapped_command command m = Ok argv ->
  yields (fun _ => True) (execute w command m args).
Proof.
  intros H. unfold execute.
  destruct (build_command_mapped command m args _ H) as [cmd ->].
  eapply yields_bind; [apply yields_write|]. intros _ _.
  eapply yields_bind; [apply yields_run_command|]. intros _ _. now apply yields_ret.
Qed.

Lemma yields_resolve_and_run (w : world) (command : string) (args managers : list string) :
  incl managers backends ->
  yields (fun _ => True) (resolve_and_run w command args managers).
Proof.
  intros Hm. unfold resolve_and_run.
  eapply yields_bind; [apply yields_select_repository|]. intros [chosen available] Hr.
  destruct chosen as [chosen|].
  - destruct (chosen =? "")%string.
    { eapply yields_bind; [apply yields_write|]. intros _ _. now apply yields_ret. }
    assert (Hc : In chosen backends) by (apply Hm; exact (Hr _ _ eq_refl)).
    destruct (backends_are_mapped chosen Hc) as (_ & _ & _ & Hmap).
    destruct (command =? "-R")%string.
    { destruct (Hmap "-R") as (word & argv & Hw); [simpl; tauto|].
      destruct (build_command_mapped "-R" chosen available _ Hw) as [cmd ->].
      eapply yields_bind; [apply yields_write|]. intros _ _.
      eapply yields_bind; [apply yields_run_command|]. intros _ _. now apply yields_ret. }
    destruct (command =? "-Ss")%string.
    { destruct (Hmap "-Ss") as (word & argv & ->); [simpl; tauto|].
      eapply yields_bind; [apply yields_write|]. intros _ _.
      eapply yields_bind; [apply yields_run_command|]. intros _ _. now apply yields_ret. }
    destruct (command =? "-Qi")%string; [|now apply yields_ret].
    eapply yields_bind; [apply yields_show_all|]. intros _ _. now apply yields_ret.
  - eapply yields_bind; [apply yields_write|]. intros _ _. now apply yields_ret.
Qed.

Lemma yields_self_install (w : world) (h : host) (env : install_env) (name : string) :
  yields (fun _ => True) (self_install w h env name).
Proof.
  unfold self_install. destruct (path_exists h _); [now apply yields_ret|].
  eapply yields_bind; [apply yields_write|]. intros _ _.
  eapply yields_bind; [apply yields_write|]. intros _ _.
  eapply yields_bind with (Q := fun _ => True).
  - destruct (copyfile env _ _).
    + now apply yields_ret.
    + eapply yields_bind; [apply yields_run_command|]. intros [|] _;
        (eapply yields_bind; [apply yields_write|]); intros _ _; now apply yields_ret.
    + apply yields_raise; discriminate.
  - intros [[]|code] _; [|now apply yields_ret].
    eapply yields_bind; [apply yields_run_command|]. intros ok1 _.
    eapply yields_bind with (Q := fun _ => True).
    + destruct ok1; [now apply yields_ret | apply yields_run_command].
    + intros [|] _.
      * eapply yields_bind; [apply yields_write|]. intros _ _.
        eapply yields_bind; [apply yields_write|]. intros _ _. now apply yields_ret.
      * eapply yields_bind; [apply yields_write|]. intros _ _. now apply yields_ret.
Qed.

Lemma mapped_of_mem (command m : string) (verbs : Dict.t (list string)) :
  Dict.get command_mappings m = Some verbs ->
  Dict.mem verbs command = true ->
  exists argv, mapped_command command m = Ok argv.
Proof.
  intros Hg Hmem. unfold mapped_command. rewrite Hg.
  unfold Dict.mem in Hmem. destruct (Dict.get verbs command); [eauto | discriminate].
Qed.

Lemma detected_in_backends (h : host) :
  incl (Dict.keys (detect_package_managers h)) backends.
Proof.
  unfold detect_package_managers, distro_is.
  assert (Hd : In (detect_os (os_release h))
                  [ None; Some ("Arch Linux", "pacman"); Some ("Debian", "apt");
                    Some ("Fedora", "dnf"); Some ("openSUSE", "zypper") ]).
  { unfold detect_os. destruct (os_release h); [apply classify_os_cases | now left]. }
  simpl in Hd.
  destruct (which h "paru"), (which h "yay"), (which h "apt"), (which h "dnf"),
           (which h "zypper"), (which h "snap"),
           (which h "flatpak" || path_exists h "/var/lib/flatpak"
            || path_exists h (expanduser h "~/.local/share/flatpak"));
    destruct Hd as [Hd|[Hd|[Hd|[Hd|[Hd|[]]]]]]; rewrite <- Hd;
    intros x Hx; vm_compute in Hx; vm_compute; tauto.
Qed.

Lemma detect_os_native (os_release : option (list string)) (distro pkg_manager : string) :
  detect_os os_release = Some (distro, pkg_manager) -> In pkg_manager native_backends.
Proof.
  unfold detect_os. destruct os_release as [lines|]; [|discriminate].
  match goal with |- classify_os ?a ?b = _ -> _ =>
    pose proof (classify_os_cases a b) as H end.
  intros E. rewrite E in H. simpl in H.
  destruct H as [H|[H|[H|[H|[H|[]]]]]]; try discriminate;
    injection H as _ <-; simpl; tauto.
Qed.

Lemma run_main_no_lookup_error (fuel : nat) (w : world) (script_name : string)
    (argv : list string) (pkg_manager : string) (managers : list string)
    (st st' : state) (r : result main_result) :
  In pkg_manager native_backends -> incl managers backends ->
  run_main fuel w script_name argv pkg_manager managers st = Some (r, st') ->
  no_lookup_error r.
Proof.
  intros Hp Hm. unfold run_main.
  assert (Hok : forall (x : main_result) (s : state),
             Some (Ok x, s) = Some (r, st') -> no_lookup_error r).
  { intros x s E. injection E as <- _. split; discriminate. }
  assert (Hy : forall (m : M main_result),
             yields (fun _ => True) m -> Some (m st) = Some (r, st') -> no_lookup_error r).
  { intros m Hy E. injection E as E. destruct (Hy st) as [Hn _]. now rewrite E in Hn. }
  destruct argv as [|command args]; [apply Hok|].
  destruct ((command =? "-r")%string && (script_name =? "evopkg")%string); [apply Hok|].
  destruct ((command =? "-m")%string && (script_name =? "evopkg")%string); [apply Hok|].
  destruct ((command =? "-c")%string && (script_name =? "evopkg")%string); [apply Hok|].
  set (cmd := if truthy_name (simulated_manager script_name)
              then translate_verb command else command).
  destruct (Dict.get command_mappings pkg_manager) as [verbs|] eqn:Hg.
  2:{ exfalso. simpl in Hp.
      destruct Hp as [<-|[<-|[<-|[<-|[]]]]]; discriminate Hg. }
  destruct (Dict.mem verbs cmd) eqn:Hmem.
  2:{ apply Hy. eapply yields_bind; [apply yields_write|]. intros _ _. now apply yields_ret. }
  destruct (mapped_of_mem cmd pkg_manager verbs Hg Hmem) as [argv Hargv].
  destruct ((truthy_name (simulated_manager script_name)
             || truthy_name (custom_manager script_name)
             || (script_name =? "evopkg")%string)
            && negb match args with [] => true | _ :: _ => false end).
  2:{ apply Hy. now apply (yields_execute w cmd pkg_manager args argv). }
  destruct (cmd =? "-S")%string.
  { unfold handle_install.
    destruct (handle_install_loop fuel w managers args st) as [[[u|e] s]|] eqn:Hloop;
      [apply Hok | | discriminate].
    intros E. injection E as <- _.
    exact (no_lookup_error_raise e
             (handle_install_no_lookup_error w managers Hm _ _ _ _ _ Hloop)). }
  destruct (mem_string cmd ["-R"; "-Ss"; "-Qi"]).
  - apply Hy. now apply yields_resolve_and_run.
  - apply Hy. now apply (yields_execute w cmd pkg_manager args argv).
Qed.

(** X16.  On every host, under every script name and with every command
    line, a run of [main] that ends raises neither a [KeyError] nor an
    [IndexError]: the native backend of the detected system and every
    detected backend have all the table entries the dispatch looks up, and
    the prompt indexes the options only within their range. *)
Theorem main_raises_no_lookup_error (fuel : nat) (w : world) (h : host) (env : install_env)
    (script_name : string) (argv : list string) (st st' : state) (r : result main_result) :
  main fuel w h env script_name argv st = Some (r, st') ->
  r <> Raise KeyError /\ r <> Raise IndexError.
Proof.
  unfold main.
  destruct (detect_os (os_release h)) as [[distro pkg_manager]|] eqn:Hos.
  2:{ intros E. injection E as <- _. split; discriminate. }
  assert (Hy : yields (fun _ => True)
                 (if path_exists h "/usr/local/bin/evopkg" then ret (Continue tt)
                  else self_install w h env "evopkg")).
  { destruct (path_exists h _); [now apply yields_ret | apply yields_self_install]. }
  destruct (Hy st) as [Hn _].
  destruct ((if path_exists h "/usr/local/bin/evopkg" then ret (Continue tt)
             else self_install w h env "evopkg") st) as [[[[]|code]|e] st1];
    simpl in Hn.
  - apply run_main_no_lookup_error.
    + exact (detect_os_native _ _ _ Hos).
    + apply detected_in_backends.
  - intros E. injection E as <- _. split; discriminate.
  - intros E. injection E as <- _. exact (no_lookup_error_raise e Hn).
Qed.

Lemma main_raises_no_lookup_error_witness :
  exists r st',
    main 5 two_backend_world installed_debian_host plain_env "evopkg"
      ["-S"; "git"; "curl"] (initial_state [Line "1"; Line "1"]) = Some (r, st') /\
    r <> Raise KeyError /\ r <> Raise IndexError.
Proof.
  eexists. eexists. split; [vm_compute; reflexivity|].
  eapply (main_raises_no_lookup_error 5 two_backend_world installed_debian_host plain_env
            "evopkg" ["-S"; "git"; "curl"] (initial_state [Line "1"; Line "1"])).
  vm_compute. reflexivity.
Defined.

Lemma native_flags (pkg_manager command : string) :
  In pkg_manager native_backends ->
  exists verbs,
    Dict.get command_mappings pkg_manager = Some verbs /\
    Dict.mem verbs command = mem_string command all_flags.
Proof.
  intros Hp. simpl in Hp.
  destruct Hp as [<-|[<-|[<-|[<-|[]]]]]; eexists; (split; [reflexivity|]);
    unfold Dict.mem, mem_string, all_flags; cbn [Dict.get existsb];
    rewrite !(String.eqb_sym command);
    repeat match goal with
           | |- context [(?k =? command)%string] => destruct (k =? command)%string
           end; reflexivity.
Qed.

Lemma run_main_unknown (fuel : nat) (w : world) (script_name command : string)
    (args : list string) (pkg_manager : string) (managers : list string) (st : state) :
  In pkg_manager native_backends ->
  (script_name =? "evopkg")%string && mem_string command ["-r"; "-m"; "-c"] = false ->
  mem_string (looked_up script_name command) all_flags = false ->
  run_main fuel w script_name (command :: args) pkg_manager managers st
  = Some (Ok (Exits 1),
          mkState (cache st) (launched st)
                  (printed st ++ [EvMessage ("Unknown command '"
                                             ++ looked_up script_name command ++ "'!")])
                  (stdin st)).
Proof.
  intros Hp Hopt Hflag. unfold run_main.
  assert (Hr : (command =? "-r")%string && (script_name =? "evopkg")%string = false
               /\ (command =? "-m")%string && (script_name =? "evopkg")%string = false
               /\ (command =? "-c")%string && (script_name =? "evopkg")%string = false).
  { destruct (script_name =? "evopkg")%string; [|now rewrite !andb_false_r].
    unfold mem_string in Hopt. cbn [andb existsb] in Hopt.
    destruct (command =? "-r")%string; [discriminate|].
    destruct (command =? "-m")%string; [discriminate|].
    destruct (command =? "-c")%string; [discriminate|]. auto. }
  destruct Hr as (-> & -> & ->).
  destruct (native_flags pkg_manager (looked_up script_name command) Hp)
    as (verbs & -> & Hmem).
  fold (looked_up script_name command). rewrite Hmem, Hflag. reflexivity.
Qed.

(** X17.  On a supported host, a command that is not an option of evopkg
    and, after the translation of verbs under a simulated name, none of
    the ten flags is rejected: the run writes the unknown-command message
    and exits with status 1, and it launches nothing, probes nothing and
    reads nothing.  The verbs install, remove, update, upgrade, clean,
    list, search and info are rejected in this way under every name that
    is not one of the four simulated names, evopkg included. *)
Theorem unknown_command_is_rejected (fuel : nat) (w : world) (script_name command : string)
    (args : list string) (pkg_manager : string) (managers : list string) (st : state) :
  In pkg_manager native_backends ->
  let rejected c :=
    run_main fuel w script_name (command :: args) pkg_manager managers st
    = Some (Ok (Exits 1),
            mkState (cache st) (launched st)
                    (printed st ++ [EvMessage ("Unknown command '" ++ c ++ "'!")])
                    (stdin st)) in
  ((script_name =? "evopkg")%string && mem_string command ["-r"; "-m"; "-c"] = false ->
   mem_string (looked_up script_name command) all_flags = false ->
   rejected (looked_up script_name command)) /\
  (In command literal_verbs -> mem_string script_name ["dnf"; "zypper"; "apt"; "pacman"] = false ->
   rejected command).
Proof.
  intros Hp rejected. split.
  - intros Hopt Hflag. now apply run_main_unknown.
  - intros Hv Hs.
    assert (El : looked_up script_name command = command).
    { unfold looked_up, simulated_manager. now rewrite Hs. }
    unfold rejected. rewrite <- El at 2. apply run_main_unknown; [exact Hp| |].
    + simpl in Hv.
      repeat (destruct Hv as [<-|Hv]; [apply andb_false_r|]). contradiction.
    + rewrite El. simpl in Hv.
      repeat (destruct Hv as [<-|Hv]; [reflexivity|]). contradiction.
Qed.

Lemma unknown_command_is_rejected_witness :
  In "apt" native_backends /\
  run_main 5 two_backend_world "evopkg" ["install"; "git"] "apt" ["apt"; "snap"]
    (initial_state [Line "1"])
  = Some (Ok (Exits 1),
          mkState [] [] [EvMessage "Unknown command 'install'!"] [Line "1"]).
Proof.
  assert (Hp : In "apt" native_backends) by (simpl; tauto).
  split; [exact Hp|].
  apply (proj2 (unknown_command_is_rejected 5 two_backend_world "evopkg" "install" ["git"]
                  "apt" ["apt"; "snap"] (initial_state [Line "1"]) Hp)).
  - simpl. tauto.
  - reflexivity.
Defined.

(** ** Installing the script under a name *)

Lemma run_command_true (w : world) (c : list string) (st st' : state) :
  run_command w c st = (Ok true, st') ->
  launched st' = launched st ++ [c] /\
  exists out, w (List.length (launched st)) c = Completed 0 out.
Proof.
  unfold run_command, launch.
  destruct (w (List.length (launched st)) c) as [rc out| | |]; try discriminate.
  intros H. injection H as Hrc <-. split; [reflexivity|].
  apply Z.eqb_eq in Hrc. subst rc. eauto.
Qed.

Lemma run_command_launched (w : world) (c : list string) (st : state) :
  launched (snd (run_command w c st)) = launched st ++ [c].
Proof.
  unfold run_command, launch. now destruct (w (List.length (launched st)) c).
Qed.

Lemma nth_error_snoc {A : Type} (l : list A) (x : A) :
  nth_error (l ++ [x]) (List.length l) = Some x.
Proof. rewrite nth_error_app2 by lia. now rewrite Nat.sub_diag. Qed.

(** What [self_install] launches, and what a normal return means. *)
Lemma self_install_run (w : world) (h : host) (env : install_env) (name : string)
    (st : state) :
  let run := self_install w h env name st in
  exists new,
    launched (snd run) = launched st ++ new /\
    Forall (install_step env name) new /\
    (path_exists h ("/usr/local/bin/" ++ name)%string = true ->
     run = (Ok (Continue tt), st)) /\
    (path_exists h ("/usr/local/bin/" ++ name)%string = false ->
     fst run = Ok (Continue tt) ->
     exists n, made_executable w name (launched (snd run)) n).
Proof.
  intros run. subst run. unfold self_install.
  destruct (path_exists h ("/usr/local/bin/" ++ name)%string) eqn:Hex.
  { exists []. unfold ret. simpl. rewrite app_nil_r.
    repeat split; [constructor | discriminate]. }
  set (target := ("/usr/local/bin/" ++ name)%string).
  match goal with
  | |- context [bind (run_command w ["chmod"; "755"; target]) ?k] =>
      set (finish := bind (run_command w ["chmod"; "755"; target]) k)
  end.
  assert (Hchmod : forall st1 pre,
             launched st1 = launched st ++ pre ->
             Forall (install_step env name) pre ->
             exists new,
               launched (snd (finish st1)) = launched st ++ new /\
               Forall (install_step env name) new /\
               (fst (finish st1) = Ok (Continue tt) ->
                exists n, made_executable w name (launched (snd (finish st1))) n)).
  { intros st1 pre Hpre Hfor. subst finish. unfold bind.
    assert (S1 : install_step env name ["chmod"; "755"; target]) by (right; now left).
    assert (S2 : install_step env name ["sudo"; "chmod"; "755"; target]) by (right; now right).
    pose proof (run_command_launched w ["chmod"; "755"; target] st1) as Hl1.
    destruct (run_command w ["chmod"; "755"; target] st1) as [[[|]|e] st2] eqn:Hrc1;
      simpl in Hl1.
    - apply run_command_true in Hrc1 as [_ [out Hout]].
      exists (pre ++ [["chmod"; "755"; target]]).
      unfold ret, progress_bar, write. cbn [fst snd launched].
      rewrite Hl1, Hpre, <- app_assoc.
      split; [reflexivity|]. split; [apply Forall_app; split; [exact Hfor | now constructor]|].
      intros _. exists (List.length (launched st1)).
      exists ["chmod"; "755"; target], out.
      split; [|split; [now left | exact Hout]].
      rewrite app_assoc, <- Hpre. apply nth_error_snoc.
    - pose proof (run_command_launched w ["sudo"; "chmod"; "755"; target] st2) as Hl2.
      exists (pre ++ [["chmod"; "755"; target]; ["sudo"; "chmod"; "755"; target]]).
      assert (Hall : launched (snd (run_command w ["sudo"; "chmod"; "755"; target] st2))
                     = launched st ++ pre
                       ++ [["chmod"; "755"; target]; ["sudo"; "chmod"; "755"; target]]).
      { rewrite Hl2, Hl1, Hpre, <- !app_assoc. reflexivity. }
      assert (Hfor' : Forall (install_step env name)
                        (pre ++ [["chmod"; "755"; target];
                                 ["sudo"; "chmod"; "755"; target]])).
      { apply Forall_app. split; [exact Hfor | repeat constructor; assumption]. }
      destruct (run_command w ["sudo"; "chmod"; "755"; target] st2) as [[[|]|e] st3] eqn:Hrc2;
        cbn [snd] in Hall, Hl2;
        unfold ret, progress_bar, write; cbn [fst snd launched];
        (split; [exact Hall|]); (split; [exact Hfor'|]); try discriminate.
      intros _. apply run_command_true in Hrc2 as [_ [out Hout]].
      exists (List.length (launched st2)).
      exists ["sudo"; "chmod"; "755"; target], out.
      split; [|split; [now right | exact Hout]].
      rewrite Hl2. apply nth_error_snoc.
    - exists (pre ++ [["chmod"; "755"; target]]). cbn [fst snd].
      rewrite Hl1, Hpre, <- app_assoc.
      split; [reflexivity|]. split; [apply Forall_app; split; [exact Hfor | now constructor]|].
      discriminate. }
  unfold bind, progress_bar, write, ret, raise. cbn [cache launched printed stdin].
  destruct (copyfile env (script_path env) target).
  - match goal with |- context [finish ?s] =>
      destruct (Hchmod s []) as (new & Hl & Hf & Hm);
        [simpl; now rewrite app_nil_r | constructor |] end.
    exists new. split; [exact Hl|]. split; [exact Hf|]. split; [discriminate|].
    intros _. exact Hm.
  - assert (S0 : install_step env name ["sudo"; "cp"; script_path env; target]) by now left.
    match goal with |- context [run_command w ?c ?s] =>
      pose proof (run_command_launched w c s) as Hl0;
      destruct (run_command w c s) as [[[|]|e] st2] eqn:Hrc0 end;
      cbn [snd launched] in Hl0.
    + match goal with |- context [finish ?s] =>
        destruct (Hchmod s [["sudo"; "cp"; script_path env; target]])
          as (new & Hl & Hf & Hm); [exact Hl0 | now constructor |] end.
      exists new. split; [exact Hl|]. split; [exact Hf|]. split; [discriminate|].
      intros _. exact Hm.
    + cbn [fst snd cache launched printed stdin].
      exists [["sudo"; "cp"; script_path env; target]].
      split; [exact Hl0|]. split; [now constructor|]. split; discriminate.
    + exists [["sudo"; "cp"; script_path env; target]]. cbn [fst snd].
      split; [exact Hl0|]. split; [now constructor|]. split; discriminate.
  - cbn [fst snd launched]. exists [].
    rewrite app_nil_r. split; [reflexivity|]. split; [constructor|]. split; discriminate.
Qed.

Lemma ask_custom_name_chosen (inputs : list user_input) :
  forall evs custom_name,
    ask_custom_name inputs = (evs, NameChosen custom_name) -> valid_name custom_name.
Proof.
  induction inputs as [|i rest IH]; intros evs custom_name; [discriminate|].
  destruct i as [typed|]; [|discriminate].
  cbn [ask_custom_name].
  destruct (mem_string _ _) eqn:Eres.
  - destruct (ask_custom_name rest) as [evs' r]. intros H. injection H as _ ->. eauto.
  - destruct (String.eqb_spec (PyStr.strip typed) "") as [_|Hne]; [discriminate|].
    destruct (is_english_alphanumeric (PyStr.strip typed)) eqn:Eal.
    + intros H. injection H as _ <-. split; [exact Hne|]. split.
      * now rewrite <- english_alnum_chars.
      * rewrite lower_reserved in Eres. intros Hin.
        apply mem_string_in in Hin. congruence.
    + destruct (ask_custom_name rest) as [evs' r]. intros H. injection H as _ ->. eauto.
Qed.

(** X18.  Whatever is typed, all that [custom_install] launches is the
    installation of the script under one name, [/usr/local/bin/<name>]:
    the copy with sudo and the two commands that set its mode to 755.
    That name is not empty, consists of English letters and decimal digits
    only (so the target cannot leave [/usr/local/bin]) and is no reserved
    backend name in whatever letter case; and when something was launched
    and the call returns normally, one of the mode commands has ended
    with status 0. *)
Theorem custom_install_installs_a_valid_name (w : world) (h : host) (env : install_env)
    (st : state) :
  let run := custom_install w h env st in
  exists new,
    launched (snd run) = launched st ++ new /\
    (new = [] \/
     exists name,
       valid_name name /\
       Forall (install_step env name) new /\
       (fst run = Ok (Continue tt) ->
        exists n, made_executable w name (launched (snd run)) n)).
Proof.
  intros run. subst run. unfold custom_install, bind, write.
  cbn [cache launched printed stdin].
  destruct (ask_custom_name (stdin st)) as [evs outcome] eqn:Eask.
  destruct outcome as [name| | |];
    try (exists []; cbn [snd launched]; rewrite app_nil_r; split; [reflexivity | now left]).
  pose proof (ask_custom_name_chosen _ _ _ Eask) as Hvalid.
  match goal with |- context [self_install w h env name ?s] =>
    destruct (self_install_run w h env name s) as (new & Hl & Hf & Hexists & Hmade) end.
  cbn [launched] in Hl.
  destruct (path_exists h ("/usr/local/bin/" ++ name)%string) eqn:Hex.
  - rewrite (Hexists eq_refl). exists []. cbn [snd launched]. rewrite app_nil_r.
    split; [reflexivity | now left].
  - exists new. split; [exact Hl|]. right. exists name.
    split; [exact Hvalid|]. split; [exact Hf|]. exact (Hmade eq_refl).
Qed.

(** ** Simulating a package manager *)

Lemma only_launches_ret {A : Type} (P : list string -> Prop) (a : A) :
  only_launches P (ret a).
Proof. intros st. exists []. simpl. now rewrite app_nil_r. Qed.

Lemma only_launches_raise {A : Type} (P : list string -> Prop) (e : exn) :
  only_launches P (@raise A e).
Proof. intros st. exists []. simpl. now rewrite app_nil_r. Qed.

Lemma only_launches_bind {A B : Type} (P : list string -> Prop) (m : M A) (k : A -> M B) :
  only_launches P m -> (forall a, only_launches P (k a)) -> only_launches P (bind m k).
Proof.
  intros Hm Hk st. unfold bind. destruct (Hm st) as (new1 & Hl1 & Hf1).
  destruct (m st) as [[a|e] st1]; simpl in Hl1.
  - destruct (Hk a st1) as (new2 & Hl2 & Hf2). exists (new1 ++ new2).
    rewrite Hl2, Hl1, <- app_assoc. split; [reflexivity | now apply Forall_app].
  - exists new1. now split.
Qed.

Lemma only_launches_write (P : list string -> Prop) (e : event) :
  only_launches P (write e).
Proof. intros st. exists []. simpl. now rewrite app_nil_r. Qed.

Lemma only_launches_write_all (P : list string -> Prop) (l : list event) :
  only_launches P (write_all l).
Proof.
  intros st. rewrite write_all_run. exists []. simpl. now rewrite app_nil_r.
Qed.

Lemma only_launches_weaken {A : Type} (P Q : list string -> Prop) (m : M A) :
  (forall c, P c -> Q c) -> only_launches P m -> only_launches Q m.
Proof.
  intros H Hm st. destruct (Hm st) as (new & Hl & Hf). exists new.
  split; [exact Hl|]. eapply Forall_impl; eauto.
Qed.

Lemma only_launches_self_install (w : world) (h : host) (env : install_env) (name : string) :
  only_launches (install_step env name) (self_install w h env name).
Proof.
  intros st. destruct (self_install_run w h env name st) as (new & Hl & Hf & _).
  exists new. now split.
Qed.

Lemma simulation_options_spec (h : host) (name : string) :
  In name (simulation_options h) ->
  In name ["dnf"; "zypper"; "apt"; "pacman"] /\
  forall distro, detect_os (os_release h) <> Some (distro, name).
Proof.
  unfold simulation_options. intros H. apply filter_In in H as [Hin Hne].
  split; [exact Hin|]. intros distro E. rewrite E in Hne.
  now rewrite String.eqb_refl in Hne.
Qed.

Lemma only_launches_simulator (w : world) (h : host) (env : install_env) (name : string) :
  In name (simulation_options h) ->
  only_launches (simulator_step h env) (self_install w h env name).
Proof.
  intros Hin. apply (only_launches_weaken (install_step env name));
    [|apply only_launches_self_install].
  intros c Hc. exists name. destruct (simulation_options_spec h name Hin). auto.
Qed.

Lemma only_launches_install_all (w : world) (h : host) (env : install_env)
    (options : list string) :
  incl options (simulation_options h) ->
  only_launches (simulator_step h env) (install_all w h env options).
Proof.
  induction options as [|mgr rest IH]; intros Hincl; simpl; [apply only_launches_ret|].
  apply only_launches_bind.
  - apply only_launches_simulator, Hincl. now left.
  - intros [[]|code]; [|apply only_launches_ret].
    apply only_launches_bind; [apply only_launches_write|]. intros _.
    apply IH. intros x Hx. apply Hincl. now right.
Qed.

Lemma only_launches_simulate_choice (w : world) (h : host) (env : install_env)
    (inputs : list user_input) :
  only_launches (simulator_step h env)
                (simulate_choice w h env (simulation_options h) inputs).
Proof.
  induction inputs as [|i rest IH].
  - cbn [simulate_choice]. apply only_launches_bind; [apply only_launches_write|].
    intros _. apply only_launches_raise.
  - cbn [simulate_choice]. apply only_launches_bind; [apply only_launches_write|].
    intros _. destruct i as [typed|].
    + apply only_launches_bind.
      { intros st. exists []. simpl. now rewrite app_nil_r. }
      intros _. destruct (isdigit (PyStr.strip typed)).
      * destruct (int_of (PyStr.strip typed)) as [n|e]; [|apply only_launches_raise].
        destruct ((1 <=? n) && (n <=? List.length (simulation_options h))).
        -- destruct (nth_error (simulation_options h) (n - 1)) as [mgr|] eqn:Hnth;
             [|apply only_launches_raise].
           apply only_launches_bind.
           ++ apply only_launches_simulator. eapply nth_error_In; eauto.
           ++ intros [[]|code]; [|apply only_launches_ret].
              apply only_launches_bind; [apply only_launches_write|]. intros _.
              apply only_launches_bind; [apply only_launches_write|]. intros _.
              apply only_launches_ret.
        -- destruct (n =? List.length (simulation_options h) + 1).
           ++ apply only_launches_bind.
              ** apply only_launches_install_all, incl_refl.
              ** intros [[]|code]; [|apply only_launches_ret].
                 apply only_launches_bind; [apply only_launches_write|]. intros _.
                 apply only_launches_ret.
           ++ destruct (n =? List.length (simulation_options h) + 2);
                [apply only_launches_ret | exact IH].
      * apply only_launches_bind; [apply only_launches_write|]. intros _. exact IH.
    + apply only_launches_bind.
      { intros st. exists []. simpl. now rewrite app_nil_r. }
      intros _. apply only_launches_bind; [apply only_launches_write|]. intros _.
      apply only_launches_ret.
Qed.

Lemma simulation_options_length (h : host) :
  List.length (simulation_options h) =
  match detect_os (os_release h) with Some _ => 3 | None => 4 end.
Proof.
  unfold simulation_options.
  assert (Hd : In (detect_os (os_release h))
                  [ None; Some ("Arch Linux", "pacman"); Some ("Debian", "apt");
                    Some ("Fedora", "dnf"); Some ("openSUSE", "zypper") ]).
  { unfold detect_os. destruct (os_release h); [apply classify_os_cases | now left]. }
  simpl in Hd. destruct Hd as [Hd|[Hd|[Hd|[Hd|[Hd|[]]]]]]; rewrite <- Hd; reflexivity.
Qed.

(** X19.  Whatever is typed, [simulate_package_manager] installs the
    script only under names among dnf, zypper, apt and pacman that are not
    the native backend of the detected system, so that a simulator never
    takes the name of the real package manager: every process it launches
    is the copy with sudo or a mode command for [/usr/local/bin/<name>]
    with such a name.  On a supported system it offers three such names,
    on an unsupported one all four. *)
Theorem simulators_spare_the_native_backend (w : world) (h : host) (env : install_env)
    (st : state) :
  (exists new,
     launched (snd (simulate_package_manager w h env st)) = launched st ++ new /\
     Forall (fun c => exists name,
                 In name ["dnf"; "zypper"; "apt"; "pacman"] /\
                 (forall distro, detect_os (os_release h) <> Some (distro, name)) /\
                 install_step env name c) new) /\
  List.length (simulation_options h) =
  match detect_os (os_release h) with Some _ => 3 | None => 4 end.
Proof.
  split; [|apply simulation_options_length].
  assert (H : only_launches (simulator_step h env) (simulate_package_manager w h env)).
  { unfold simulate_package_manager.
    apply only_launches_bind; [apply only_launches_write|]. intros _.
    apply only_launches_bind; [apply only_launches_write|]. intros _.
    apply only_launches_bind; [apply only_launches_write|]. intros _.
    apply only_launches_bind; [apply only_launches_write_all|]. intros _.
    apply only_launches_bind; [apply only_launches_write|]. intros _.
    apply only_launches_bind; [apply only_launches_write|]. intros _.
    intros st0. apply only_launches_simulate_choice. }
  exact (H st).
Qed.

(** ** Removing installed managers *)

Lemma confined_ret {A : Type} Pe Pc (a : A) : confined Pe Pc (ret a).
Proof. intros st. exists [], []. simpl. rewrite !app_nil_r. auto. Qed.

Lemma confined_raise {A : Type} Pe Pc (e : exn) : confined Pe Pc (@raise A e).
Proof. intros st. exists [], []. simpl. rewrite !app_nil_r. auto. Qed.

Lemma confined_bind {A B : Type} Pe Pc (m : M A) (k : A -> M B) :
  confined Pe Pc m -> (forall a, confined Pe Pc (k a)) -> confined Pe Pc (bind m k).
Proof.
  intros Hm Hk st. unfold bind. destruct (Hm st) as (evs1 & new1 & Hp1 & Hl1 & He1 & Hc1).
  destruct (m st) as [[a|e] st1]; simpl in Hp1, Hl1.
  - destruct (Hk a st1) as (evs2 & new2 & Hp2 & Hl2 & He2 & Hc2).
    exists (evs1 ++ evs2), (new1 ++ new2).
    rewrite Hp2, Hp1, Hl2, Hl1, <- !app_assoc.
    repeat split; try reflexivity; now apply Forall_app.
  - exists evs1, new1. auto.
Qed.

Lemma confined_write (Pe : event -> Prop) Pc (e : event) : Pe e -> confined Pe Pc (write e).
Proof.
  intros H st. exists [e], []. simpl. rewrite app_nil_r. repeat split; auto.
Qed.

Lemma confined_write_all (Pe : event -> Prop) Pc (l : list event) :
  Forall Pe l -> confined Pe Pc (write_all l).
Proof.
  intros H st. rewrite write_all_run. exists l, []. simpl. rewrite app_nil_r. auto.
Qed.

Lemma confined_pop_input Pe Pc : confined Pe Pc pop_input.
Proof. intros st. exists [], []. simpl. rewrite !app_nil_r. auto. Qed.

Lemma confined_run_command Pe (Pc : list string -> Prop) (w : world) (c : list string) :
  Pc c -> confined Pe Pc (run_command w c).
Proof.
  intros H st. exists [], [c]. rewrite run_command_launched.
  unfold run_command, launch. destruct (w (List.length (launched st)) c);
    simpl; rewrite app_nil_r; auto.
Qed.

(** The names offered for removal are entries that may be removed. *)
Lemma installed_managers_removable (entries : list dir_entry) :
  forall installed,
    installed_managers entries = Ok installed ->
    forall mgr, In mgr installed -> removable entries mgr.
Proof.
  assert (Hmono : forall e rest mgr, removable rest mgr -> removable (e :: rest) mgr).
  { intros e rest mgr (Hne & e0 & text & Hin & H). split; [exact Hne|].
    exists e0, text. split; [now right | exact H]. }
  induction entries as [|e rest IH]; intros installed H mgr Hin.
  - injection H as <-. contradiction.
  - cbn [installed_managers] in H.
    destruct (executable_file e) eqn:Hx; [|now apply Hmono, (IH installed)].
    destruct (read_text e) as [text| |] eqn:Hr; [|now apply Hmono, (IH installed)|discriminate].
    destruct (installed_managers rest) as [l|x]; [|discriminate].
    injection H as <-.
    destruct (PyStr.contains signature text && negb (entry_name e =? "evopkg")%string) eqn:Hc;
      [|now apply Hmono, (IH l)].
    destruct Hin as [<-|Hin]; [|now apply Hmono, (IH l)].
    apply andb_true_iff in Hc as [Hsig Hne]. apply negb_true_iff, String.eqb_neq in Hne.
    split; [exact Hne|]. exists e, text. repeat split; auto. now left.
Qed.

Lemma confined_remove_manager (w : world) (fs : files) (entries : list dir_entry)
    (mgr : string) :
  removable entries mgr ->
  confined (removal_event entries) (removal_step entries) (remove_manager w fs mgr).
Proof.
  intros Hr. unfold remove_manager.
  apply confined_bind.
  - apply confined_write. intros mgr' E. injection E as <-. exact Hr.
  - intros _. destruct (os_remove fs (bin_path mgr)).
    + apply confined_ret.
    + apply confined_bind; [|intros _; apply confined_ret].
      apply confined_run_command. now exists mgr.
    + apply confined_raise.
Qed.

Lemma confined_remove_managers (w : world) (fs : files) (entries : list dir_entry)
    (mgrs : list string) :
  (forall mgr, In mgr mgrs -> removable entries mgr) ->
  confined (removal_event entries) (removal_step entries) (remove_managers w fs mgrs).
Proof.
  induction mgrs as [|mgr rest IH]; intros H; simpl; [apply confined_ret|].
  apply confined_bind; [apply confined_remove_manager, H; now left|].
  intros _. apply IH. intros m Hm. apply H. now right.
Qed.

Lemma removal_event_other (entries : list dir_entry) (e : event) :
  (forall mgr, e <> EvProgress "Removing" mgr) -> removal_event entries e.
Proof. intros H mgr E. destruct (H mgr E). Qed.

Lemma confined_removal_choice (w : world) (fs : files) (entries : list dir_entry)
    (installed : list string) (inputs : list user_input) :
  (forall mgr, In mgr installed -> removable entries mgr) ->
  confined (removal_event entries) (removal_step entries)
           (removal_choice w fs installed inputs).
Proof.
  intros Hall.
  assert (Hw : forall e, (forall mgr, e <> EvProgress "Removing" mgr) ->
                         confined (removal_event entries) (removal_step entries) (write e)).
  { intros e H. apply confined_write, removal_event_other, H. }
  induction inputs as [|i rest IH]; cbn [removal_choice];
    (apply confined_bind; [apply Hw; discriminate|]); intros _.
  - apply confined_raise.
  - destruct i as [typed|].
    + apply confined_bind; [apply confined_pop_input|]. intros _.
      destruct (isdigit (PyStr.strip typed)).
      * destruct (int_of (PyStr.strip typed)) as [n|e]; [|apply confined_raise].
        destruct ((1 <=? n) && (n <=? List.length installed)).
        -- destruct (nth_error installed (n - 1)) as [mgr|] eqn:Hnth; [|apply confined_raise].
           apply confined_bind.
           ++ apply confined_remove_manager, Hall. eapply nth_error_In; eauto.
           ++ intros _. apply Hw. discriminate.
        -- destruct (n =? List.length installed + 1).
           ++ apply confined_bind; [now apply confined_remove_managers|].
              intros _. apply Hw. discriminate.
           ++ destruct (n =? List.length installed + 2); [|exact IH].
              apply confined_bind; [apply Hw; discriminate|].
              intros _. apply Hw. discriminate.
      * apply confined_bind; [apply Hw; discriminate | intros _; exact IH].
    + apply confined_bind; [apply confined_pop_input|]. intros _.
      apply Hw. discriminate.
Qed.

(** X20.  Whatever the directory holds, whatever is typed and whatever
    the host answers, [removal_menu] announces the removal of an entry,
    and then removes it with [os.remove] or with [sudo rm], only when the
    entry is an executable file of /usr/local/bin whose text holds the
    signature and whose name is not evopkg: evopkg itself and files
    without the signature are never removed, and nothing else is
    launched. *)
Theorem removal_menu_removes_signed_files_only (w : world) (fs : files)
    (entries : list dir_entry) (st : state) :
  listdir fs = Some entries ->
  exists evs new,
    printed (snd (removal_menu w fs st)) = printed st ++ evs /\
    launched (snd (removal_menu w fs st)) = launched st ++ new /\
    (forall mgr, In (EvProgress "Removing" mgr) evs -> removable entries mgr) /\
    (forall c, In c new ->
       exists mgr, removable entries mgr /\ c = ["sudo"; "rm"; bin_path mgr]).
Proof.
  intros Hlist.
  assert (H : confined (removal_event entries) (removal_step entries) (removal_menu w fs)).
  { unfold removal_menu. rewrite Hlist.
    assert (Hw : forall e, (forall mgr, e <> EvProgress "Removing" mgr) ->
                           confined (removal_event entries) (removal_step entries) (write e)).
    { intros e H. apply confined_write, removal_event_other, H. }
    destruct (installed_managers entries) as [installed|e] eqn:Hinst; [|apply confined_raise].
    pose proof (installed_managers_removable entries installed Hinst) as Hall.
    destruct installed as [|m0 ms]; [apply Hw; discriminate|].
    apply confined_bind; [apply Hw; discriminate|]. intros _.
    apply confined_bind.
    { apply confined_write_all. apply Forall_forall. intros e He.
      apply in_map_iff in He as (x & <- & _). apply removal_event_other. discriminate. }
    intros _. apply confined_bind; [apply Hw; discriminate|]. intros _.
    apply confined_bind; [apply Hw; discriminate|]. intros _.
    intros st0. now apply confined_removal_choice. }
  destruct (H st) as (evs & new & Hp & Hl & He & Hc).
  exists evs, new. split; [exact Hp|]. split; [exact Hl|]. split.
  - intros mgr Hin. rewrite Forall_forall in He. exact (He _ Hin mgr eq_refl).
  - intros c Hin. rewrite Forall_forall in Hc. exact (Hc _ Hin).
Qed.

Lemma removal_menu_removes_signed_files_only_witness :
  listdir sample_files = Some sample_bin /\
  exists evs new,
    printed (snd (removal_menu two_backend_world sample_files (initial_state [Line "2"])))
    = printed (initial_state [Line "2"]) ++ evs /\
    launched (snd (removal_menu two_backend_world sample_files (initial_state [Line "2"])))
    = launched (initial_state [Line "2"]) ++ new /\
    (forall mgr, In (EvProgress "Removing" mgr) evs -> removable sample_bin mgr) /\
    (forall c, In c new ->
       exists mgr, removable sample_bin mgr /\ c = ["sudo"; "rm"; bin_path mgr]).
Proof.
  split; [reflexivity|].
  apply (removal_menu_removes_signed_files_only two_backend_world sample_files sample_bin
           (initial_state [Line "2"])).
  reflexivity.
Defined.

(** X21.  A file of /usr/local/bin that may be executed but is not text
    (reading it raises [UnicodeDecodeError]) makes [removal_menu] fail
    with that [ValueError] before it writes, reads or removes anything,
    whatever else the directory holds. *)
Theorem removal_menu_fails_on_a_binary_file (w : world) (fs : files)
    (entries : list dir_entry) (e : dir_entry) (st : state) :
  listdir fs = Some entries ->
  In e entries -> executable_file e = true -> read_text e = Undecodable ->
  removal_menu w fs st = (Raise ValueError, st).
Proof.
  intros Hlist Hin Hx Hr. unfold removal_menu. rewrite Hlist.
  assert (H : installed_managers entries = Raise ValueError).
  { clear Hlist. induction entries as [|e0 rest IH]; [contradiction|].
    cbn [installed_managers]. destruct Hin as [->|Hin].
    - now rewrite Hx, Hr.
    - rewrite (IH Hin). destruct (executable_file e0); [|reflexivity].
      now destruct (read_text e0). }
  now rewrite H.
Qed.

Lemma removal_menu_fails_on_a_binary_file_witness :
  let fs := mkFiles (Some (sample_bin ++ [mkEntry "ls" true Undecodable])) (fun _ => Removed) in
  listdir fs = Some (sample_bin ++ [mkEntry "ls" true Undecodable]) /\
  In (mkEntry "ls" true Undecodable) (sample_bin ++ [mkEntry "ls" true Undecodable]) /\
  removal_menu two_backend_world fs (initial_state [Line "1"])
  = (Raise ValueError, initial_state [Line "1"]).
Proof.
  intros fs.
  assert (Hin : In (mkEntry "ls" true Undecodable)
                   (sample_bin ++ [mkEntry "ls" true Undecodable])).
  { apply in_or_app. right. now left. }
  split; [reflexivity|]. split; [exact Hin|].
  apply (removal_menu_fails_on_a_binary_file two_backend_world fs
           (sample_bin ++ [mkEntry "ls" true Undecodable]) (mkEntry "ls" true Undecodable)
           (initial_state [Line "1"])); [reflexivity | exact Hin | reflexivity | reflexivity].
Defined.
